(** * Meeting-minutes pipeline: a shallow embedding of the Python sources

    The development follows the layout of the repository:
    - [PyStr]            the built-in [str]/[bytes] operations the sources call;
    - [Evaluator]        [src/evaluator.py];
    - [MeetingSummarizer] [src/summarizer.py];
    - [AudioProcessor]   [src/audio_processor.py];
    - [Json] and [OutputGenerator]  [src/output_generator.py].

    Conventions.  A Python [str] is a sequence of Unicode code points and is
    modelled as [list N]; [bytes] is [list Byte.byte].  Python floats are
    modelled by exact rationals ([Q]): every float the sources compute is a
    quotient of two small lengths, or one minus such a quotient. *)

From Stdlib Require Import NArith ZArith QArith Qminmax Lia Lqa.
From Stdlib Require Import Strings.String Strings.Ascii Strings.Byte.
From stdpp Require Import base option list gmap sets.

#[local] Set Warnings "-register-all".
Local Open Scope N_scope.

(* ===================================================================== *)
(** * Python strings *)
(* ===================================================================== *)

Module PyStr.

(** A code point, and a Python [str]. *)
Definition char := N.
Definition str := list char.
(** A Python [bytes] object. *)
Definition bytes := list Byte.byte.

(** ** UTF-8 ([str.encode('utf-8')] and [bytes.decode('utf-8')]) *)

Definition byte_of (n : N) : Byte.byte := default Byte.x00 (Byte.of_N n).

(** Surrogates and values above U+10FFFF have no UTF-8 form: Python raises
    [UnicodeEncodeError], the model returns [None]. *)
Definition encode_char (c : char) : option bytes :=
  if c <? 0x80 then Some [byte_of c]
  else if c <? 0x800 then
    Some [byte_of (0xC0 + c / 0x40); byte_of (0x80 + c mod 0x40)]
  else if c <? 0x10000 then
    if (0xD800 <=? c) && (c <? 0xE000) then None
    else Some [byte_of (0xE0 + c / 0x1000);
               byte_of (0x80 + (c / 0x40) mod 0x40);
               byte_of (0x80 + c mod 0x40)]
  else if c <? 0x110000 then
    Some [byte_of (0xF0 + c / 0x40000);
          byte_of (0x80 + (c / 0x1000) mod 0x40);
          byte_of (0x80 + (c / 0x40) mod 0x40);
          byte_of (0x80 + c mod 0x40)]
  else None.

Definition encode_utf8 (s : str) : option bytes :=
  @concat _ <$> mapM encode_char s.

(** A continuation byte [10xxxxxx]. *)
Definition is_cont (b : N) : bool := (0x80 <=? b) && (b <? 0xC0).

(** The strict decoder: overlong forms, surrogates, values above U+10FFFF
    and truncated sequences are errors. *)
Fixpoint decode_utf8_N (bs : list N) : option str :=
  match bs with
  | [] => Some []
  | b0 :: r0 =>
    if b0 <? 0x80 then cons b0 <$> decode_utf8_N r0
    else if b0 <? 0xC2 then None
    else if b0 <? 0xE0 then
      match r0 with
      | b1 :: r1 =>
        if is_cont b1
        then cons ((b0 - 0xC0) * 0x40 + (b1 - 0x80)) <$> decode_utf8_N r1
        else None
      | _ => None
      end
    else if b0 <? 0xF0 then
      match r0 with
      | b1 :: b2 :: r2 =>
        let c := (b0 - 0xE0) * 0x1000 + (b1 - 0x80) * 0x40 + (b2 - 0x80) in
        if is_cont b1 && is_cont b2 && (0x800 <=? c)
           && negb ((0xD800 <=? c) && (c <? 0xE000))
        then cons c <$> decode_utf8_N r2
        else None
      | _ => None
      end
    else if b0 <? 0xF5 then
      match r0 with
      | b1 :: b2 :: b3 :: r3 =>
        let c := (b0 - 0xF0) * 0x40000 + (b1 - 0x80) * 0x1000
                 + (b2 - 0x80) * 0x40 + (b3 - 0x80) in
        if is_cont b1 && is_cont b2 && is_cont b3
           && (0x10000 <=? c) && (c <? 0x110000)
        then cons c <$> decode_utf8_N r3
        else None
      | _ => None
      end
    else None
  end.

Definition decode_utf8 (bs : bytes) : option str :=
  decode_utf8_N (map Byte.to_N bs).

(** String literals of the sources.  A literal of this file is the UTF-8
    text of the Python literal; [lit] reads it back as code points. *)
Definition lit (s : string) : str :=
  default [] (decode_utf8 (list_byte_of_string s)).

(** The bytes of a literal, for [b'...']-like constants. *)
Definition blit (s : string) : bytes := list_byte_of_string s.

(** ** Tables of the Unicode character database

    The tables of this section are those of Unicode 14.0.0, the database of
    CPython 3.11 ([unicodedata.unidata_version]). *)

(** Membership in a list of closed ranges. *)
Fixpoint in_ranges (c : char) (rs : list (N * N)) : bool :=
  match rs with
  | [] => false
  | (lo, hi) :: rs' => ((lo <=? c) && (c <=? hi)) || in_ranges c rs'
  end.

(** The suffix left once the leading code points satisfying [p] are gone. *)
Fixpoint drop_while (p : char -> bool) (s : str) : str :=
  match s with
  | [] => []
  | c :: s' => if p c then drop_while p s' else s
  end.

(** ** [str.lower()]

    CPython lowers a text code point by code point with the full lowercase
    mapping ([_PyUnicode_ToLowerFull]), except for the capital sigma, whose
    form depends on its neighbours ([handle_capital_sigma]). *)

(** The simple lowercase mappings: an entry [(lo, hi, step, target)] sends
    [lo], [lo + step], ..., up to [hi], to [target], [target + step], ... *)
Definition lower_table : list (N * N * N * N) :=
  [
    (0x41, 0x5A, 1, 0x61); (0xC0, 0xD6, 1, 0xE0); (0xD8, 0xDE, 1, 0xF8);
    (0x100, 0x12E, 2, 0x101); (0x132, 0x136, 2, 0x133); (0x139, 0x147, 2, 0x13A);
    (0x14A, 0x176, 2, 0x14B); (0x178, 0x178, 1, 0xFF); (0x179, 0x17D, 2, 0x17A);
    (0x181, 0x181, 1, 0x253); (0x182, 0x184, 2, 0x183); (0x186, 0x186, 1, 0x254);
    (0x187, 0x187, 1, 0x188); (0x189, 0x18A, 1, 0x256); (0x18B, 0x18B, 1, 0x18C);
    (0x18E, 0x18E, 1, 0x1DD); (0x18F, 0x18F, 1, 0x259); (0x190, 0x190, 1, 0x25B);
    (0x191, 0x191, 1, 0x192); (0x193, 0x193, 1, 0x260); (0x194, 0x194, 1, 0x263);
    (0x196, 0x196, 1, 0x269); (0x197, 0x197, 1, 0x268); (0x198, 0x198, 1, 0x199);
    (0x19C, 0x19C, 1, 0x26F); (0x19D, 0x19D, 1, 0x272); (0x19F, 0x19F, 1, 0x275);
    (0x1A0, 0x1A4, 2, 0x1A1); (0x1A6, 0x1A6, 1, 0x280); (0x1A7, 0x1A7, 1, 0x1A8);
    (0x1A9, 0x1A9, 1, 0x283); (0x1AC, 0x1AC, 1, 0x1AD); (0x1AE, 0x1AE, 1, 0x288);
    (0x1AF, 0x1AF, 1, 0x1B0); (0x1B1, 0x1B2, 1, 0x28A); (0x1B3, 0x1B5, 2, 0x1B4);
    (0x1B7, 0x1B7, 1, 0x292); (0x1B8, 0x1B8, 1, 0x1B9); (0x1BC, 0x1BC, 1, 0x1BD);
    (0x1C4, 0x1C4, 1, 0x1C6); (0x1C5, 0x1C5, 1, 0x1C6); (0x1C7, 0x1C7, 1, 0x1C9);
    (0x1C8, 0x1C8, 1, 0x1C9); (0x1CA, 0x1CA, 1, 0x1CC); (0x1CB, 0x1DB, 2, 0x1CC);
    (0x1DE, 0x1EE, 2, 0x1DF); (0x1F1, 0x1F1, 1, 0x1F3); (0x1F2, 0x1F4, 2, 0x1F3);
    (0x1F6, 0x1F6, 1, 0x195); (0x1F7, 0x1F7, 1, 0x1BF); (0x1F8, 0x21E, 2, 0x1F9);
    (0x220, 0x220, 1, 0x19E); (0x222, 0x232, 2, 0x223); (0x23A, 0x23A, 1, 0x2C65);
    (0x23B, 0x23B, 1, 0x23C); (0x23D, 0x23D, 1, 0x19A); (0x23E, 0x23E, 1, 0x2C66);
    (0x241, 0x241, 1, 0x242); (0x243, 0x243, 1, 0x180); (0x244, 0x244, 1, 0x289);
    (0x245, 0x245, 1, 0x28C); (0x246, 0x24E, 2, 0x247); (0x370, 0x372, 2, 0x371);
    (0x376, 0x376, 1, 0x377); (0x37F, 0x37F, 1, 0x3F3); (0x386, 0x386, 1, 0x3AC);
    (0x388, 0x38A, 1, 0x3AD); (0x38C, 0x38C, 1, 0x3CC); (0x38E, 0x38F, 1, 0x3CD);
    (0x391, 0x3A1, 1, 0x3B1); (0x3A3, 0x3AB, 1, 0x3C3); (0x3CF, 0x3CF, 1, 0x3D7);
    (0x3D8, 0x3EE, 2, 0x3D9); (0x3F4, 0x3F4, 1, 0x3B8); (0x3F7, 0x3F7, 1, 0x3F8);
    (0x3F9, 0x3F9, 1, 0x3F2); (0x3FA, 0x3FA, 1, 0x3FB); (0x3FD, 0x3FF, 1, 0x37B);
    (0x400, 0x40F, 1, 0x450); (0x410, 0x42F, 1, 0x430); (0x460, 0x480, 2, 0x461);
    (0x48A, 0x4BE, 2, 0x48B); (0x4C0, 0x4C0, 1, 0x4CF); (0x4C1, 0x4CD, 2, 0x4C2);
    (0x4D0, 0x52E, 2, 0x4D1); (0x531, 0x556, 1, 0x561); (0x10A0, 0x10C5, 1, 0x2D00);
    (0x10C7, 0x10C7, 1, 0x2D27); (0x10CD, 0x10CD, 1, 0x2D2D); (0x13A0, 0x13EF, 1, 0xAB70);
    (0x13F0, 0x13F5, 1, 0x13F8); (0x1C90, 0x1CBA, 1, 0x10D0); (0x1CBD, 0x1CBF, 1, 0x10FD);
    (0x1E00, 0x1E94, 2, 0x1E01); (0x1E9E, 0x1E9E, 1, 0xDF); (0x1EA0, 0x1EFE, 2, 0x1EA1);
    (0x1F08, 0x1F0F, 1, 0x1F00); (0x1F18, 0x1F1D, 1, 0x1F10); (0x1F28, 0x1F2F, 1, 0x1F20);
    (0x1F38, 0x1F3F, 1, 0x1F30); (0x1F48, 0x1F4D, 1, 0x1F40); (0x1F59, 0x1F5F, 2, 0x1F51);
    (0x1F68, 0x1F6F, 1, 0x1F60); (0x1F88, 0x1F8F, 1, 0x1F80); (0x1F98, 0x1F9F, 1, 0x1F90);
    (0x1FA8, 0x1FAF, 1, 0x1FA0); (0x1FB8, 0x1FB9, 1, 0x1FB0); (0x1FBA, 0x1FBB, 1, 0x1F70);
    (0x1FBC, 0x1FBC, 1, 0x1FB3); (0x1FC8, 0x1FCB, 1, 0x1F72); (0x1FCC, 0x1FCC, 1, 0x1FC3);
    (0x1FD8, 0x1FD9, 1, 0x1FD0); (0x1FDA, 0x1FDB, 1, 0x1F76); (0x1FE8, 0x1FE9, 1, 0x1FE0);
    (0x1FEA, 0x1FEB, 1, 0x1F7A); (0x1FEC, 0x1FEC, 1, 0x1FE5); (0x1FF8, 0x1FF9, 1, 0x1F78);
    (0x1FFA, 0x1FFB, 1, 0x1F7C); (0x1FFC, 0x1FFC, 1, 0x1FF3); (0x2126, 0x2126, 1, 0x3C9);
    (0x212A, 0x212A, 1, 0x6B); (0x212B, 0x212B, 1, 0xE5); (0x2132, 0x2132, 1, 0x214E);
    (0x2160, 0x216F, 1, 0x2170); (0x2183, 0x2183, 1, 0x2184); (0x24B6, 0x24CF, 1, 0x24D0);
    (0x2C00, 0x2C2F, 1, 0x2C30); (0x2C60, 0x2C60, 1, 0x2C61); (0x2C62, 0x2C62, 1, 0x26B);
    (0x2C63, 0x2C63, 1, 0x1D7D); (0x2C64, 0x2C64, 1, 0x27D); (0x2C67, 0x2C6B, 2, 0x2C68);
    (0x2C6D, 0x2C6D, 1, 0x251); (0x2C6E, 0x2C6E, 1, 0x271); (0x2C6F, 0x2C6F, 1, 0x250);
    (0x2C70, 0x2C70, 1, 0x252); (0x2C72, 0x2C72, 1, 0x2C73); (0x2C75, 0x2C75, 1, 0x2C76);
    (0x2C7E, 0x2C7F, 1, 0x23F); (0x2C80, 0x2CE2, 2, 0x2C81); (0x2CEB, 0x2CED, 2, 0x2CEC);
    (0x2CF2, 0x2CF2, 1, 0x2CF3); (0xA640, 0xA66C, 2, 0xA641); (0xA680, 0xA69A, 2, 0xA681);
    (0xA722, 0xA72E, 2, 0xA723); (0xA732, 0xA76E, 2, 0xA733); (0xA779, 0xA77B, 2, 0xA77A);
    (0xA77D, 0xA77D, 1, 0x1D79); (0xA77E, 0xA786, 2, 0xA77F); (0xA78B, 0xA78B, 1, 0xA78C);
    (0xA78D, 0xA78D, 1, 0x265); (0xA790, 0xA792, 2, 0xA791); (0xA796, 0xA7A8, 2, 0xA797);
    (0xA7AA, 0xA7AA, 1, 0x266); (0xA7AB, 0xA7AB, 1, 0x25C); (0xA7AC, 0xA7AC, 1, 0x261);
    (0xA7AD, 0xA7AD, 1, 0x26C); (0xA7AE, 0xA7AE, 1, 0x26A); (0xA7B0, 0xA7B0, 1, 0x29E);
    (0xA7B1, 0xA7B1, 1, 0x287); (0xA7B2, 0xA7B2, 1, 0x29D); (0xA7B3, 0xA7B3, 1, 0xAB53);
    (0xA7B4, 0xA7C2, 2, 0xA7B5); (0xA7C4, 0xA7C4, 1, 0xA794); (0xA7C5, 0xA7C5, 1, 0x282);
    (0xA7C6, 0xA7C6, 1, 0x1D8E); (0xA7C7, 0xA7C9, 2, 0xA7C8); (0xA7D0, 0xA7D0, 1, 0xA7D1);
    (0xA7D6, 0xA7D8, 2, 0xA7D7); (0xA7F5, 0xA7F5, 1, 0xA7F6); (0xFF21, 0xFF3A, 1, 0xFF41);
    (0x10400, 0x10427, 1, 0x10428); (0x104B0, 0x104D3, 1, 0x104D8); (0x10570, 0x10594, 2, 0x10597);
    (0x10571, 0x1057A, 1, 0x10598); (0x1057D, 0x1058A, 1, 0x105A4); (0x1058D, 0x10592, 1, 0x105B4);
    (0x10595, 0x10595, 1, 0x105BC); (0x10C80, 0x10CB2, 1, 0x10CC0); (0x118A0, 0x118BF, 1, 0x118C0);
    (0x16E40, 0x16E5F, 1, 0x16E60); (0x1E900, 0x1E921, 1, 0x1E922) ].

Fixpoint lower_lookup (c : char) (table : list (N * N * N * N))
  : option char :=
  match table with
  | [] => None
  | (lo, hi, step, target) :: table' =>
    if (lo <=? c) && (c <=? hi) && ((c - lo) mod step =? 0)
    then Some (target + (c - lo))
    else lower_lookup c table'
  end.

(** [_PyUnicode_ToLowerFull]: U+0130 is the only code point whose lowercase
    form has more than one code point; a code point without a mapping is
    its own lowercase form. *)
Definition lower_char (c : char) : list char :=
  if c =? 0x130 then [0x69; 0x307]
  else match lower_lookup c lower_table with
       | Some c' => [c']
       | None => [c]
       end.

(** [_PyUnicode_IsCaseIgnorable]. *)
Definition case_ignorable_table : list (N * N) :=
  [
    (0x27, 0x27); (0x2E, 0x2E); (0x3A, 0x3A); (0x5E, 0x5E); (0x60, 0x60);
    (0xA8, 0xA8); (0xAD, 0xAD); (0xAF, 0xAF); (0xB4, 0xB4); (0xB7, 0xB8);
    (0x2B0, 0x36F); (0x374, 0x375); (0x37A, 0x37A); (0x384, 0x385); (0x387, 0x387);
    (0x483, 0x489); (0x559, 0x559); (0x55F, 0x55F); (0x591, 0x5BD); (0x5BF, 0x5BF);
    (0x5C1, 0x5C2); (0x5C4, 0x5C5); (0x5C7, 0x5C7); (0x5F4, 0x5F4); (0x600, 0x605);
    (0x610, 0x61A); (0x61C, 0x61C); (0x640, 0x640); (0x64B, 0x65F); (0x670, 0x670);
    (0x6D6, 0x6DD); (0x6DF, 0x6E8); (0x6EA, 0x6ED); (0x70F, 0x70F); (0x711, 0x711);
    (0x730, 0x74A); (0x7A6, 0x7B0); (0x7EB, 0x7F5); (0x7FA, 0x7FA); (0x7FD, 0x7FD);
    (0x816, 0x82D); (0x859, 0x85B); (0x888, 0x888); (0x890, 0x891); (0x898, 0x89F);
    (0x8C9, 0x902); (0x93A, 0x93A); (0x93C, 0x93C); (0x941, 0x948); (0x94D, 0x94D);
    (0x951, 0x957); (0x962, 0x963); (0x971, 0x971); (0x981, 0x981); (0x9BC, 0x9BC);
    (0x9C1, 0x9C4); (0x9CD, 0x9CD); (0x9E2, 0x9E3); (0x9FE, 0x9FE); (0xA01, 0xA02);
    (0xA3C, 0xA3C); (0xA41, 0xA42); (0xA47, 0xA48); (0xA4B, 0xA4D); (0xA51, 0xA51);
    (0xA70, 0xA71); (0xA75, 0xA75); (0xA81, 0xA82); (0xABC, 0xABC); (0xAC1, 0xAC5);
    (0xAC7, 0xAC8); (0xACD, 0xACD); (0xAE2, 0xAE3); (0xAFA, 0xAFF); (0xB01, 0xB01);
    (0xB3C, 0xB3C); (0xB3F, 0xB3F); (0xB41, 0xB44); (0xB4D, 0xB4D); (0xB55, 0xB56);
    (0xB62, 0xB63); (0xB82, 0xB82); (0xBC0, 0xBC0); (0xBCD, 0xBCD); (0xC00, 0xC00);
    (0xC04, 0xC04); (0xC3C, 0xC3C); (0xC3E, 0xC40); (0xC46, 0xC48); (0xC4A, 0xC4D);
    (0xC55, 0xC56); (0xC62, 0xC63); (0xC81, 0xC81); (0xCBC, 0xCBC); (0xCBF, 0xCBF);
    (0xCC6, 0xCC6); (0xCCC, 0xCCD); (0xCE2, 0xCE3); (0xD00, 0xD01); (0xD3B, 0xD3C);
    (0xD41, 0xD44); (0xD4D, 0xD4D); (0xD62, 0xD63); (0xD81, 0xD81); (0xDCA, 0xDCA);
    (0xDD2, 0xDD4); (0xDD6, 0xDD6); (0xE31, 0xE31); (0xE34, 0xE3A); (0xE46, 0xE4E);
    (0xEB1, 0xEB1); (0xEB4, 0xEBC); (0xEC6, 0xEC6); (0xEC8, 0xECD); (0xF18, 0xF19);
    (0xF35, 0xF35); (0xF37, 0xF37); (0xF39, 0xF39); (0xF71, 0xF7E); (0xF80, 0xF84);
    (0xF86, 0xF87); (0xF8D, 0xF97); (0xF99, 0xFBC); (0xFC6, 0xFC6); (0x102D, 0x1030);
    (0x1032, 0x1037); (0x1039, 0x103A); (0x103D, 0x103E); (0x1058, 0x1059); (0x105E, 0x1060);
    (0x1071, 0x1074); (0x1082, 0x1082); (0x1085, 0x1086); (0x108D, 0x108D); (0x109D, 0x109D);
    (0x10FC, 0x10FC); (0x135D, 0x135F); (0x1712, 0x1714); (0x1732, 0x1733); (0x1752, 0x1753);
    (0x1772, 0x1773); (0x17B4, 0x17B5); (0x17B7, 0x17BD); (0x17C6, 0x17C6); (0x17C9, 0x17D3);
    (0x17D7, 0x17D7); (0x17DD, 0x17DD); (0x180B, 0x180F); (0x1843, 0x1843); (0x1885, 0x1886);
    (0x18A9, 0x18A9); (0x1920, 0x1922); (0x1927, 0x1928); (0x1932, 0x1932); (0x1939, 0x193B);
    (0x1A17, 0x1A18); (0x1A1B, 0x1A1B); (0x1A56, 0x1A56); (0x1A58, 0x1A5E); (0x1A60, 0x1A60);
    (0x1A62, 0x1A62); (0x1A65, 0x1A6C); (0x1A73, 0x1A7C); (0x1A7F, 0x1A7F); (0x1AA7, 0x1AA7);
    (0x1AB0, 0x1ACE); (0x1B00, 0x1B03); (0x1B34, 0x1B34); (0x1B36, 0x1B3A); (0x1B3C, 0x1B3C);
    (0x1B42, 0x1B42); (0x1B6B, 0x1B73); (0x1B80, 0x1B81); (0x1BA2, 0x1BA5); (0x1BA8, 0x1BA9);
    (0x1BAB, 0x1BAD); (0x1BE6, 0x1BE6); (0x1BE8, 0x1BE9); (0x1BED, 0x1BED); (0x1BEF, 0x1BF1);
    (0x1C2C, 0x1C33); (0x1C36, 0x1C37); (0x1C78, 0x1C7D); (0x1CD0, 0x1CD2); (0x1CD4, 0x1CE0);
    (0x1CE2, 0x1CE8); (0x1CED, 0x1CED); (0x1CF4, 0x1CF4); (0x1CF8, 0x1CF9); (0x1D2C, 0x1D6A);
    (0x1D78, 0x1D78); (0x1D9B, 0x1DFF); (0x1FBD, 0x1FBD); (0x1FBF, 0x1FC1); (0x1FCD, 0x1FCF);
    (0x1FDD, 0x1FDF); (0x1FED, 0x1FEF); (0x1FFD, 0x1FFE); (0x200B, 0x200F); (0x2018, 0x2019);
    (0x2024, 0x2024); (0x2027, 0x2027); (0x202A, 0x202E); (0x2060, 0x2064); (0x2066, 0x206F);
    (0x2071, 0x2071); (0x207F, 0x207F); (0x2090, 0x209C); (0x20D0, 0x20F0); (0x2C7C, 0x2C7D);
    (0x2CEF, 0x2CF1); (0x2D6F, 0x2D6F); (0x2D7F, 0x2D7F); (0x2DE0, 0x2DFF); (0x2E2F, 0x2E2F);
    (0x3005, 0x3005); (0x302A, 0x302D); (0x3031, 0x3035); (0x303B, 0x303B); (0x3099, 0x309E);
    (0x30FC, 0x30FE); (0xA015, 0xA015); (0xA4F8, 0xA4FD); (0xA60C, 0xA60C); (0xA66F, 0xA672);
    (0xA674, 0xA67D); (0xA67F, 0xA67F); (0xA69C, 0xA69F); (0xA6F0, 0xA6F1); (0xA700, 0xA721);
    (0xA770, 0xA770); (0xA788, 0xA78A); (0xA7F2, 0xA7F4); (0xA7F8, 0xA7F9); (0xA802, 0xA802);
    (0xA806, 0xA806); (0xA80B, 0xA80B); (0xA825, 0xA826); (0xA82C, 0xA82C); (0xA8C4, 0xA8C5);
    (0xA8E0, 0xA8F1); (0xA8FF, 0xA8FF); (0xA926, 0xA92D); (0xA947, 0xA951); (0xA980, 0xA982);
    (0xA9B3, 0xA9B3); (0xA9B6, 0xA9B9); (0xA9BC, 0xA9BD); (0xA9CF, 0xA9CF); (0xA9E5, 0xA9E6);
    (0xAA29, 0xAA2E); (0xAA31, 0xAA32); (0xAA35, 0xAA36); (0xAA43, 0xAA43); (0xAA4C, 0xAA4C);
    (0xAA70, 0xAA70); (0xAA7C, 0xAA7C); (0xAAB0, 0xAAB0); (0xAAB2, 0xAAB4); (0xAAB7, 0xAAB8);
    (0xAABE, 0xAABF); (0xAAC1, 0xAAC1); (0xAADD, 0xAADD); (0xAAEC, 0xAAED); (0xAAF3, 0xAAF4);
    (0xAAF6, 0xAAF6); (0xAB5B, 0xAB5F); (0xAB69, 0xAB6B); (0xABE5, 0xABE5); (0xABE8, 0xABE8);
    (0xABED, 0xABED); (0xFB1E, 0xFB1E); (0xFBB2, 0xFBC2); (0xFE00, 0xFE0F); (0xFE13, 0xFE13);
    (0xFE20, 0xFE2F); (0xFE52, 0xFE52); (0xFE55, 0xFE55); (0xFEFF, 0xFEFF); (0xFF07, 0xFF07);
    (0xFF0E, 0xFF0E); (0xFF1A, 0xFF1A); (0xFF3E, 0xFF3E); (0xFF40, 0xFF40); (0xFF70, 0xFF70);
    (0xFF9E, 0xFF9F); (0xFFE3, 0xFFE3); (0xFFF9, 0xFFFB); (0x101FD, 0x101FD); (0x102E0, 0x102E0);
    (0x10376, 0x1037A); (0x10780, 0x10785); (0x10787, 0x107B0); (0x107B2, 0x107BA); (0x10A01, 0x10A03);
    (0x10A05, 0x10A06); (0x10A0C, 0x10A0F); (0x10A38, 0x10A3A); (0x10A3F, 0x10A3F); (0x10AE5, 0x10AE6);
    (0x10D24, 0x10D27); (0x10EAB, 0x10EAC); (0x10F46, 0x10F50); (0x10F82, 0x10F85); (0x11001, 0x11001);
    (0x11038, 0x11046); (0x11070, 0x11070); (0x11073, 0x11074); (0x1107F, 0x11081); (0x110B3, 0x110B6);
    (0x110B9, 0x110BA); (0x110BD, 0x110BD); (0x110C2, 0x110C2); (0x110CD, 0x110CD); (0x11100, 0x11102);
    (0x11127, 0x1112B); (0x1112D, 0x11134); (0x11173, 0x11173); (0x11180, 0x11181); (0x111B6, 0x111BE);
    (0x111C9, 0x111CC); (0x111CF, 0x111CF); (0x1122F, 0x11231); (0x11234, 0x11234); (0x11236, 0x11237);
    (0x1123E, 0x1123E); (0x112DF, 0x112DF); (0x112E3, 0x112EA); (0x11300, 0x11301); (0x1133B, 0x1133C);
    (0x11340, 0x11340); (0x11366, 0x1136C); (0x11370, 0x11374); (0x11438, 0x1143F); (0x11442, 0x11444);
    (0x11446, 0x11446); (0x1145E, 0x1145E); (0x114B3, 0x114B8); (0x114BA, 0x114BA); (0x114BF, 0x114C0);
    (0x114C2, 0x114C3); (0x115B2, 0x115B5); (0x115BC, 0x115BD); (0x115BF, 0x115C0); (0x115DC, 0x115DD);
    (0x11633, 0x1163A); (0x1163D, 0x1163D); (0x1163F, 0x11640); (0x116AB, 0x116AB); (0x116AD, 0x116AD);
    (0x116B0, 0x116B5); (0x116B7, 0x116B7); (0x1171D, 0x1171F); (0x11722, 0x11725); (0x11727, 0x1172B);
    (0x1182F, 0x11837); (0x11839, 0x1183A); (0x1193B, 0x1193C); (0x1193E, 0x1193E); (0x11943, 0x11943);
    (0x119D4, 0x119D7); (0x119DA, 0x119DB); (0x119E0, 0x119E0); (0x11A01, 0x11A0A); (0x11A33, 0x11A38);
    (0x11A3B, 0x11A3E); (0x11A47, 0x11A47); (0x11A51, 0x11A56); (0x11A59, 0x11A5B); (0x11A8A, 0x11A96);
    (0x11A98, 0x11A99); (0x11C30, 0x11C36); (0x11C38, 0x11C3D); (0x11C3F, 0x11C3F); (0x11C92, 0x11CA7);
    (0x11CAA, 0x11CB0); (0x11CB2, 0x11CB3); (0x11CB5, 0x11CB6); (0x11D31, 0x11D36); (0x11D3A, 0x11D3A);
    (0x11D3C, 0x11D3D); (0x11D3F, 0x11D45); (0x11D47, 0x11D47); (0x11D90, 0x11D91); (0x11D95, 0x11D95);
    (0x11D97, 0x11D97); (0x11EF3, 0x11EF4); (0x13430, 0x13438); (0x16AF0, 0x16AF4); (0x16B30, 0x16B36);
    (0x16B40, 0x16B43); (0x16F4F, 0x16F4F); (0x16F8F, 0x16F9F); (0x16FE0, 0x16FE1); (0x16FE3, 0x16FE4);
    (0x1AFF0, 0x1AFF3); (0x1AFF5, 0x1AFFB); (0x1AFFD, 0x1AFFE); (0x1BC9D, 0x1BC9E); (0x1BCA0, 0x1BCA3);
    (0x1CF00, 0x1CF2D); (0x1CF30, 0x1CF46); (0x1D167, 0x1D169); (0x1D173, 0x1D182); (0x1D185, 0x1D18B);
    (0x1D1AA, 0x1D1AD); (0x1D242, 0x1D244); (0x1DA00, 0x1DA36); (0x1DA3B, 0x1DA6C); (0x1DA75, 0x1DA75);
    (0x1DA84, 0x1DA84); (0x1DA9B, 0x1DA9F); (0x1DAA1, 0x1DAAF); (0x1E000, 0x1E006); (0x1E008, 0x1E018);
    (0x1E01B, 0x1E021); (0x1E023, 0x1E024); (0x1E026, 0x1E02A); (0x1E130, 0x1E13D); (0x1E2AE, 0x1E2AE);
    (0x1E2EC, 0x1E2EF); (0x1E8D0, 0x1E8D6); (0x1E944, 0x1E94B); (0x1F3FB, 0x1F3FF); (0xE0001, 0xE0001);
    (0xE0020, 0xE007F); (0xE0100, 0xE01EF) ].

Definition case_ignorable (c : char) : bool :=
  in_ranges c case_ignorable_table.

(** [_PyUnicode_IsCased] on the code points that are not case-ignorable;
    [handle_capital_sigma] tests no other. *)
Definition cased_table : list (N * N) :=
  [
    (0x41, 0x5A); (0x61, 0x7A); (0xAA, 0xAA); (0xB5, 0xB5); (0xBA, 0xBA);
    (0xC0, 0xD6); (0xD8, 0xF6); (0xF8, 0x1BA); (0x1BC, 0x1BF); (0x1C4, 0x293);
    (0x295, 0x2AF); (0x370, 0x373); (0x376, 0x377); (0x37B, 0x37D); (0x37F, 0x37F);
    (0x386, 0x386); (0x388, 0x38A); (0x38C, 0x38C); (0x38E, 0x3A1); (0x3A3, 0x3F5);
    (0x3F7, 0x481); (0x48A, 0x52F); (0x531, 0x556); (0x560, 0x588); (0x10A0, 0x10C5);
    (0x10C7, 0x10C7); (0x10CD, 0x10CD); (0x10D0, 0x10FA); (0x10FD, 0x10FF); (0x13A0, 0x13F5);
    (0x13F8, 0x13FD); (0x1C80, 0x1C88); (0x1C90, 0x1CBA); (0x1CBD, 0x1CBF); (0x1D00, 0x1D2B);
    (0x1D6B, 0x1D77); (0x1D79, 0x1D9A); (0x1E00, 0x1F15); (0x1F18, 0x1F1D); (0x1F20, 0x1F45);
    (0x1F48, 0x1F4D); (0x1F50, 0x1F57); (0x1F59, 0x1F59); (0x1F5B, 0x1F5B); (0x1F5D, 0x1F5D);
    (0x1F5F, 0x1F7D); (0x1F80, 0x1FB4); (0x1FB6, 0x1FBC); (0x1FBE, 0x1FBE); (0x1FC2, 0x1FC4);
    (0x1FC6, 0x1FCC); (0x1FD0, 0x1FD3); (0x1FD6, 0x1FDB); (0x1FE0, 0x1FEC); (0x1FF2, 0x1FF4);
    (0x1FF6, 0x1FFC); (0x2102, 0x2102); (0x2107, 0x2107); (0x210A, 0x2113); (0x2115, 0x2115);
    (0x2119, 0x211D); (0x2124, 0x2124); (0x2126, 0x2126); (0x2128, 0x2128); (0x212A, 0x212D);
    (0x212F, 0x2134); (0x2139, 0x2139); (0x213C, 0x213F); (0x2145, 0x2149); (0x214E, 0x214E);
    (0x2160, 0x217F); (0x2183, 0x2184); (0x24B6, 0x24E9); (0x2C00, 0x2C7B); (0x2C7E, 0x2CE4);
    (0x2CEB, 0x2CEE); (0x2CF2, 0x2CF3); (0x2D00, 0x2D25); (0x2D27, 0x2D27); (0x2D2D, 0x2D2D);
    (0xA640, 0xA66D); (0xA680, 0xA69B); (0xA722, 0xA76F); (0xA771, 0xA787); (0xA78B, 0xA78E);
    (0xA790, 0xA7CA); (0xA7D0, 0xA7D1); (0xA7D3, 0xA7D3); (0xA7D5, 0xA7D9); (0xA7F5, 0xA7F6);
    (0xA7FA, 0xA7FA); (0xAB30, 0xAB5A); (0xAB60, 0xAB68); (0xAB70, 0xABBF); (0xFB00, 0xFB06);
    (0xFB13, 0xFB17); (0xFF21, 0xFF3A); (0xFF41, 0xFF5A); (0x10400, 0x1044F); (0x104B0, 0x104D3);
    (0x104D8, 0x104FB); (0x10570, 0x1057A); (0x1057C, 0x1058A); (0x1058C, 0x10592); (0x10594, 0x10595);
    (0x10597, 0x105A1); (0x105A3, 0x105B1); (0x105B3, 0x105B9); (0x105BB, 0x105BC); (0x10C80, 0x10CB2);
    (0x10CC0, 0x10CF2); (0x118A0, 0x118DF); (0x16E40, 0x16E7F); (0x1D400, 0x1D454); (0x1D456, 0x1D49C);
    (0x1D49E, 0x1D49F); (0x1D4A2, 0x1D4A2); (0x1D4A5, 0x1D4A6); (0x1D4A9, 0x1D4AC); (0x1D4AE, 0x1D4B9);
    (0x1D4BB, 0x1D4BB); (0x1D4BD, 0x1D4C3); (0x1D4C5, 0x1D505); (0x1D507, 0x1D50A); (0x1D50D, 0x1D514);
    (0x1D516, 0x1D51C); (0x1D51E, 0x1D539); (0x1D53B, 0x1D53E); (0x1D540, 0x1D544); (0x1D546, 0x1D546);
    (0x1D54A, 0x1D550); (0x1D552, 0x1D6A5); (0x1D6A8, 0x1D6C0); (0x1D6C2, 0x1D6DA); (0x1D6DC, 0x1D6FA);
    (0x1D6FC, 0x1D714); (0x1D716, 0x1D734); (0x1D736, 0x1D74E); (0x1D750, 0x1D76E); (0x1D770, 0x1D788);
    (0x1D78A, 0x1D7A8); (0x1D7AA, 0x1D7C2); (0x1D7C4, 0x1D7CB); (0x1DF00, 0x1DF09); (0x1DF0B, 0x1DF1E);
    (0x1E900, 0x1E943); (0x1F130, 0x1F149); (0x1F150, 0x1F169); (0x1F170, 0x1F189) ].

Definition cased (c : char) : bool := in_ranges c cased_table.

(** The second half of the Final_Sigma context: what follows the sigma is,
    after any case-ignorable code points, the end of the text or a code
    point that is not cased. *)
Definition sigma_ends (rest : str) : bool :=
  match drop_while case_ignorable rest with
  | [] => true
  | c :: _ => negb (cased c)
  end.

(** [after_cased] tells whether the nearest code point before [s] that is
    not case-ignorable exists and is cased, the first half of the
    Final_Sigma context. *)
Fixpoint lower_from (after_cased : bool) (s : str) : str :=
  match s with
  | [] => []
  | c :: s' =>
    (if c =? 0x3A3
     then [if after_cased && sigma_ends s' then 0x3C2 else 0x3C3]
     else lower_char c)
    ++ lower_from (if case_ignorable c then after_cased else cased c) s'
  end.

Definition lower (s : str) : str := lower_from false s.

(** ** Whitespace: [str.isspace()] on one code point, as [split()] and
    [strip()] use it. *)
Definition is_space (c : char) : bool :=
  ((0x09 <=? c) && (c <=? 0x0D)) || ((0x1C <=? c) && (c <=? 0x20))
  || (c =? 0x85) || (c =? 0xA0) || (c =? 0x1680)
  || ((0x2000 <=? c) && (c <=? 0x200A))
  || (c =? 0x2028) || (c =? 0x2029) || (c =? 0x202F) || (c =? 0x205F)
  || (c =? 0x3000).

(** [s.split()]: maximal runs of non-whitespace.  [cur] is the word being
    read, in reading order. *)
Fixpoint split_go (s : str) (cur : str) : list str :=
  match s with
  | [] => if decide (cur = []) then [] else [cur]
  | c :: s' =>
    if is_space c
    then (if decide (cur = []) then split_go s' [] else cur :: split_go s' [])
    else split_go s' (cur ++ [c])
  end.

Definition split (s : str) : list str := split_go s [].

(** [s.startswith(p)]. *)
Fixpoint startswith (p s : str) : bool :=
  match p, s with
  | [], _ => true
  | a :: p', b :: s' => (a =? b) && startswith p' s'
  | _ :: _, [] => false
  end.

(** [s.split(sep)] for a non-empty separator: non-overlapping occurrences,
    left to right.  [skip] counts the code points of a separator that are
    still to be dropped. *)
Fixpoint split_sep_go (sep s : str) (skip : nat) (cur : str) : list str :=
  match s with
  | [] => [cur]
  | c :: s' =>
    match skip with
    | S k => split_sep_go sep s' k cur
    | O =>
      if startswith sep s
      then cur :: split_sep_go sep s' (Nat.pred (length sep)) []
      else split_sep_go sep s' O (cur ++ [c])
    end
  end.

Definition split_sep (sep s : str) : list str := split_sep_go sep s O [].

(** [xs[-1]] on a list that [split] returned (never empty). *)
Definition last_piece (xs : list str) : str := default [] (last xs).

(** [s.lstrip()], [s.rstrip()], [s.strip()]. *)
Definition lstrip (s : str) : str := drop_while is_space s.
Definition rstrip (s : str) : str := reverse (drop_while is_space (reverse s)).
Definition strip (s : str) : str := rstrip (lstrip s).

(** [s.lstrip(chars)]. *)
Definition lstrip_chars (chars s : str) : str :=
  drop_while (fun c => bool_decide (c ∈ chars)) s.

(** [s.isdigit()]: the text is not empty and each code point is a digit
    ([_PyUnicode_IsDigit]). *)
Definition digit_table : list (N * N) :=
  [
    (0x30, 0x39); (0xB2, 0xB3); (0xB9, 0xB9); (0x660, 0x669); (0x6F0, 0x6F9);
    (0x7C0, 0x7C9); (0x966, 0x96F); (0x9E6, 0x9EF); (0xA66, 0xA6F); (0xAE6, 0xAEF);
    (0xB66, 0xB6F); (0xBE6, 0xBEF); (0xC66, 0xC6F); (0xCE6, 0xCEF); (0xD66, 0xD6F);
    (0xDE6, 0xDEF); (0xE50, 0xE59); (0xED0, 0xED9); (0xF20, 0xF29); (0x1040, 0x1049);
    (0x1090, 0x1099); (0x1369, 0x1371); (0x17E0, 0x17E9); (0x1810, 0x1819); (0x1946, 0x194F);
    (0x19D0, 0x19DA); (0x1A80, 0x1A89); (0x1A90, 0x1A99); (0x1B50, 0x1B59); (0x1BB0, 0x1BB9);
    (0x1C40, 0x1C49); (0x1C50, 0x1C59); (0x2070, 0x2070); (0x2074, 0x2079); (0x2080, 0x2089);
    (0x2460, 0x2468); (0x2474, 0x247C); (0x2488, 0x2490); (0x24EA, 0x24EA); (0x24F5, 0x24FD);
    (0x24FF, 0x24FF); (0x2776, 0x277E); (0x2780, 0x2788); (0x278A, 0x2792); (0xA620, 0xA629);
    (0xA8D0, 0xA8D9); (0xA900, 0xA909); (0xA9D0, 0xA9D9); (0xA9F0, 0xA9F9); (0xAA50, 0xAA59);
    (0xABF0, 0xABF9); (0xFF10, 0xFF19); (0x104A0, 0x104A9); (0x10A40, 0x10A43); (0x10D30, 0x10D39);
    (0x10E60, 0x10E68); (0x11052, 0x1105A); (0x11066, 0x1106F); (0x110F0, 0x110F9); (0x11136, 0x1113F);
    (0x111D0, 0x111D9); (0x112F0, 0x112F9); (0x11450, 0x11459); (0x114D0, 0x114D9); (0x11650, 0x11659);
    (0x116C0, 0x116C9); (0x11730, 0x11739); (0x118E0, 0x118E9); (0x11950, 0x11959); (0x11C50, 0x11C59);
    (0x11D50, 0x11D59); (0x11DA0, 0x11DA9); (0x16A60, 0x16A69); (0x16AC0, 0x16AC9); (0x16B50, 0x16B59);
    (0x1D7CE, 0x1D7FF); (0x1E140, 0x1E149); (0x1E2F0, 0x1E2F9); (0x1E950, 0x1E959); (0x1F100, 0x1F10A);
    (0x1FBF0, 0x1FBF9) ].

Definition is_digit_char (c : char) : bool := in_ranges c digit_table.
Definition isdigit (s : str) : bool :=
  negb (bool_decide (s = [])) && forallb is_digit_char s.

(** [sep.join(xs)]. *)
Fixpoint join (sep : str) (xs : list str) : str :=
  match xs with
  | [] => []
  | [x] => x
  | x :: xs' => x ++ sep ++ join sep xs'
  end.

(** [s.rfind(c)] for one code point: the last index, or [None] for -1. *)
Fixpoint rfind_char (c : char) (s : str) : option nat :=
  match s with
  | [] => None
  | a :: s' =>
    match rfind_char c s' with
    | Some i => Some (S i)
    | None => if a =? c then Some O else None
    end
  end.

(** [str(n)] for a non-negative integer: decimal digits, no leading zero. *)
Fixpoint digits_go (fuel : nat) (n : N) (acc : str) : str :=
  let acc' := (0x30 + n mod 10) :: acc in
  match fuel with
  | O => acc'
  | S f => if n / 10 =? 0 then acc' else digits_go f (n / 10) acc'
  end.
Definition str_of_N (n : N) : str := digits_go (N.to_nat n) n [].
Definition str_of_nat (n : nat) : str := str_of_N (N.of_nat n).
Definition str_of_Z (z : Z) : str :=
  match z with
  | Zneg p => 0x2D :: str_of_N (Npos p)
  | _ => str_of_N (Z.to_N z)
  end.

End PyStr.
Export PyStr.

(* ===================================================================== *)
(** * src/evaluator.py *)
(* ===================================================================== *)

Module Evaluator.

(** [a / b] on two lengths (Python's true division). *)
Definition true_div (a b : nat) : Q :=
  (inject_Z (Z.of_nat a) / inject_Z (Z.of_nat b))%Q.

(** [max(0.0, min(1.0, x))]. *)
Definition clamp01 (x : Q) : Q := Qmax 0 (Qmin 1 x).

(** [set(xs)]. *)
Definition to_set `{Countable A} (xs : list A) : gset A := list_to_set xs.

Definition _calculate_wer (reference hypothesis : str) : Q :=
  let ref_words := split (lower reference) in
  let hyp_words := split (lower hypothesis) in
  if decide (length ref_words = 0%nat) then
    (if decide (0 < length hyp_words)%nat then 1 else 0)%Q
  else
    let common_words := to_set ref_words ∩ to_set hyp_words in
    let wer := (1 - true_div (size common_words) (length ref_words))%Q in
    clamp01 wer.

Definition _calculate_cer (reference hypothesis : str) : Q :=
  if decide (length reference = 0%nat) then
    (if decide (0 < length hypothesis)%nat then 1 else 0)%Q
  else
    let common_chars :=
      length (filter (fun ab => ab.1 = ab.2)
                     (zip (lower reference) (lower hypothesis))) in
    let cer := (1 - true_div common_chars (length reference))%Q in
    clamp01 cer.

Definition _calculate_bleu (reference hypothesis : str) : Q :=
  let ref_words := to_set (split (lower reference)) in
  let hyp_words := to_set (split (lower hypothesis)) in
  if decide (size hyp_words = 0%nat) then 0%Q
  else
    let precision := true_div (size (ref_words ∩ hyp_words)) (size hyp_words) in
    precision.

Definition _calculate_rouge_1 (reference hypothesis : str) : Q :=
  let ref_words := to_set (split (lower reference)) in
  let hyp_words := to_set (split (lower hypothesis)) in
  if decide (size ref_words = 0%nat) then 0%Q
  else
    let overlap := size (ref_words ∩ hyp_words) in
    true_div overlap (size ref_words).

(** [[(words[i], words[i+1]) for i in range(len(words)-1)]]. *)
Definition _get_bigrams (text : str) : list (str * str) :=
  let words := split text in
  (fun i => (nth i words [], nth (i + 1) words []))
    <$> seq 0 (length words - 1).

Definition _calculate_rouge_2 (reference hypothesis : str) : Q :=
  let ref_bigrams := _get_bigrams (lower reference) in
  let hyp_bigrams := _get_bigrams (lower hypothesis) in
  if decide (length ref_bigrams = 0%nat) then 0%Q
  else
    let overlap := size (to_set ref_bigrams ∩ to_set hyp_bigrams) in
    true_div overlap (length ref_bigrams).

Definition _calculate_rouge_l (reference hypothesis : str) : Q :=
  _calculate_rouge_1 reference hypothesis.

Definition _calculate_semantic_similarity (reference hypothesis : str) : Q :=
  _calculate_rouge_1 reference hypothesis.

(** The dictionaries the two entry points return, one field per key. *)
Record TranscriptionMetrics := {
  word_error_rate : Q;
  character_error_rate : Q;
  bleu_score : Q;
  accuracy : Q
}.

Record SummarizationMetrics := {
  rouge_1 : Q;
  rouge_2 : Q;
  rouge_l : Q;
  semantic_similarity : Q
}.

(** No metric raises on [str] arguments, so the [except] branches (which
    return an empty dictionary) are not reached. *)
Definition evaluate_transcription (reference hypothesis : str)
  : TranscriptionMetrics :=
  {| word_error_rate := _calculate_wer reference hypothesis;
     character_error_rate := _calculate_cer reference hypothesis;
     bleu_score := _calculate_bleu reference hypothesis;
     accuracy := (1 - _calculate_wer reference hypothesis)%Q |}.

Definition evaluate_summarization (reference hypothesis : str)
  : SummarizationMetrics :=
  {| rouge_1 := _calculate_rouge_1 reference hypothesis;
     rouge_2 := _calculate_rouge_2 reference hypothesis;
     rouge_l := _calculate_rouge_l reference hypothesis;
     semantic_similarity :=
       _calculate_semantic_similarity reference hypothesis |}.

End Evaluator.

(* ===================================================================== *)
(** * src/summarizer.py *)
(* ===================================================================== *)

Module MeetingSummarizer.

(** [self.model]: unset, the marker string ["demo_mode"] that [_load_model]
    stores when loading fails, or a loaded model. *)
Inductive Model := NoModel | DemoMode | Loaded.

(** The keyword arguments of a generation call that vary between call
    sites ([do_sample=True] everywhere). *)
Record GenArgs := {
  max_new_tokens : Z;
  temperature : Q
}.

(** The text-generation pipeline.  Sampling makes its answer depend on more
    than the prompt: the first argument is the number of calls made so far
    and stands for that hidden state.  [None] is a raised exception, also
    one raised by [response[0]['generated_text']]. *)
Definition Pipeline := nat -> str -> GenArgs -> option str.

Record Summarizer := {
  model : Model;
  pipeline : option Pipeline
}.

(** Computations that call the pipeline thread the call counter. *)
Definition Gen (A : Type) : Type := nat -> A * nat.
Definition ret {A} (a : A) : Gen A := fun n => (a, n).
Definition bind {A B} (m : Gen A) (k : A -> Gen B) : Gen B :=
  fun n => let '(a, n') := m n in k a n'.
Definition call (p : Pipeline) (prompt : str) (args : GenArgs)
  : Gen (option str) :=
  fun n => (p n prompt args, S n).

Notation "x <- m ;; k" := (bind m (fun x => k))
  (at level 100, m at next level, right associativity).

(** [meeting_data['transcript']]; only the key ['text'] is read. *)
Record Transcript := {
  text : option str
}.

(** [meeting_data]: every key is read with [.get], so each may be absent. *)
Record MeetingData := {
  md_title : option str;
  md_date : option str;
  md_participants : option (list str);
  md_transcript : option Transcript
}.

Record MeetingInfo := {
  title : str;
  date : str;
  participants : list str;
  duration : str
}.

Record ActionItem := {
  task : str;
  assignee : str;
  due_date : str;
  priority : str
}.

(** The dictionary [generate_minutes] returns. *)
Record Minutes := {
  meeting_info : MeetingInfo;
  summary : str;
  key_decisions : list str;
  action_items : list ActionItem;
  next_steps : list str;
  full_transcript : str
}.

Definition dq : str := [0x22].
Definition nl : str := [0x0A].

(** [meeting_data.get('transcript', {}).get('text', '')]. *)
Definition transcript_text (meeting_data : MeetingData) : str :=
  match md_transcript meeting_data with
  | Some t => default [] (text t)
  | None => []
  end.

Definition _estimate_duration (transcript : str) : str :=
  let word_count := length (split transcript) in
  let duration_minutes := Nat.max 1 (word_count / 150) in
  str_of_nat duration_minutes ++ lit " minutes".

(** ** Demo mode fallbacks *)

Definition _generate_demo_summary (transcript : str) (max_length : Z) : str :=
  strip (lit "
        The team meeting covered three main areas: marketing campaign progress, 
        budget analysis, and technical status updates. Key highlights include:
        
        • Marketing campaign has completed design phase and is moving to implementation
        • Budget analysis shows 15% under budget, providing flexibility for additional features
        • Technical development is on track with no major blockers
        • Team agreed to allocate extra budget funds to user testing
        • All systems are ready for the planned launch timeline
        ").

Definition _extract_demo_decisions (transcript : str) : list str :=
  [ lit "Allocate extra budget funds to user testing";
    lit "Proceed with campaign launch by end of next week" ].

Definition _extract_demo_action_items (transcript : str) : list ActionItem :=
  [ {| task := lit "Finalize campaign launch preparations";
       assignee := lit "John";
       due_date := lit "End of next week";
       priority := lit "High" |};
    {| task := lit "Prepare budget reallocation proposal";
       assignee := lit "Jane";
       due_date := lit "Next meeting";
       priority := lit "Medium" |} ].

Definition _extract_demo_next_steps (transcript : str) : list str :=
  [ lit "Review budget reallocation proposal in next meeting";
    lit "Monitor campaign launch progress";
    lit "Schedule user testing sessions" ].

(** [time.sleep(2)] has no effect on the value returned. *)
Definition _generate_demo_minutes (meeting_data : MeetingData) (max_length : Z)
  : Minutes :=
  let transcript := transcript_text meeting_data in
  {| meeting_info :=
       {| title := default (lit "Meeting") (md_title meeting_data);
          date := default [] (md_date meeting_data);
          participants := default [] (md_participants meeting_data);
          duration := _estimate_duration transcript |};
     summary := _generate_demo_summary transcript max_length;
     key_decisions := _extract_demo_decisions transcript;
     action_items := _extract_demo_action_items transcript;
     next_steps := _extract_demo_next_steps transcript;
     full_transcript := transcript |}.

(** ** Calls to the language model *)

Definition summary_prompt (transcript : str) (max_length : Z) : str :=
  lit "
        Please analyze the following meeting transcript and provide a concise summary in " ++ str_of_Z max_length ++ lit " words or less.
        Focus on the main topics discussed, key points raised, and overall meeting outcomes.
        
        Transcript:
        "
  ++ take 2000 transcript ++ lit "  # Limit input length
        
        Summary:".

Definition _generate_llm_summary (p : Pipeline) (transcript : str)
    (max_length : Z) : Gen str :=
  response <- call p (summary_prompt transcript max_length)
                {| max_new_tokens := max_length; temperature := 7 # 10 |} ;;
  ret match response with
      | Some generated_text =>
        strip (last_piece (split_sep (lit "Summary:") generated_text))
      | None => _generate_demo_summary transcript max_length
      end.

Definition decisions_prompt (transcript : str) : str :=
  lit "
        Analyze this meeting transcript and extract the key decisions that were made.
        Return only the decisions as a numbered list.
        
        Transcript:
        " ++ take 1500 transcript ++ lit "
        
        Key Decisions:".

Definition _extract_llm_decisions (p : Pipeline) (transcript : str)
  : Gen (list str) :=
  response <- call p (decisions_prompt transcript)
                {| max_new_tokens := 200; temperature := 3 # 10 |} ;;
  ret match response with
      | Some generated_text =>
        let decisions_text :=
          strip (last_piece (split_sep (lit "Key Decisions:") generated_text)) in
        let decisions :=
          strip <$> filter (fun d => strip d ≠ [] ∧ isdigit (strip d) = false)
                           (split_sep nl decisions_text) in
        take 5 decisions
      | None => _extract_demo_decisions transcript
      end.

Definition action_items_prompt (transcript : str) : str :=
  lit "
        Analyze this meeting transcript and extract action items with assignees and due dates.
        Format as: " ++ dq ++ lit "Task - Assignee - Due Date - Priority" ++ dq ++ lit "
        
        Transcript:
        "
  ++ take 1500 transcript ++ lit "
        
        Action Items:".

(** One line of the model's answer; [None] when the line yields no item. *)
Definition parse_action_item (line : str) : option ActionItem :=
  if bool_decide (0x2D ∈ line) && negb (bool_decide (strip line = [])) then
    let parts := strip <$> split_sep (lit "-") line in
    if decide (2 <= length parts)%nat then
      Some {| task := default [] (parts !! 0%nat);
              assignee := default (lit "Unassigned") (parts !! 1%nat);
              due_date := default (lit "TBD") (parts !! 2%nat);
              priority := default (lit "Medium") (parts !! 3%nat) |}
    else None
  else None.

Definition _extract_llm_action_items (p : Pipeline) (transcript : str)
  : Gen (list ActionItem) :=
  response <- call p (action_items_prompt transcript)
                {| max_new_tokens := 300; temperature := 3 # 10 |} ;;
  ret match response with
      | Some generated_text =>
        let items_text :=
          strip (last_piece (split_sep (lit "Action Items:") generated_text)) in
        omap parse_action_item (take 5 (split_sep nl items_text))
      | None => _extract_demo_action_items transcript
      end.

Definition next_steps_prompt (transcript : str) : str :=
  lit "
        Based on this meeting transcript, what are the logical next steps and follow-up actions?
        List them as bullet points.
        
        Transcript:
        " ++ take 1500 transcript ++ lit "
        
        Next Steps:".

Definition _extract_llm_next_steps (p : Pipeline) (transcript : str)
  : Gen (list str) :=
  response <- call p (next_steps_prompt transcript)
                {| max_new_tokens := 200; temperature := 5 # 10 |} ;;
  ret match response with
      | Some generated_text =>
        let steps_text :=
          strip (last_piece (split_sep (lit "Next Steps:") generated_text)) in
        let next_steps :=
          (fun s => lstrip_chars (lit "•-*") (strip s))
            <$> filter (fun s => strip s ≠ []) (split_sep nl steps_text) in
        take 5 next_steps
      | None => _extract_demo_next_steps transcript
      end.

(** Every call to the pipeline sits in a [try] of its own, so on [str]
    inputs nothing reaches the outer [except]; that handler returns the demo
    minutes as well. *)
Definition generate_minutes (self : Summarizer) (meeting_data : MeetingData)
    (max_length : Z) : Gen Minutes :=
  let transcript := transcript_text meeting_data in
  match model self, pipeline self with
  | DemoMode, _ | _, None =>
    ret (_generate_demo_minutes meeting_data max_length)
  | _, Some p =>
    let info :=
      {| title := default (lit "Meeting") (md_title meeting_data);
         date := default [] (md_date meeting_data);
         participants := default [] (md_participants meeting_data);
         duration := _estimate_duration transcript |} in
    s <- _generate_llm_summary p transcript max_length ;;
    d <- _extract_llm_decisions p transcript ;;
    a <- _extract_llm_action_items p transcript ;;
    n <- _extract_llm_next_steps p transcript ;;
    ret {| meeting_info := info;
           summary := s;
           key_decisions := d;
           action_items := a;
           next_steps := n;
           full_transcript := transcript |}
  end.

End MeetingSummarizer.

(* ===================================================================== *)
(** * src/audio_processor.py *)
(* ===================================================================== *)

Module AudioProcessor.

(** [self.supported_formats]. *)
Definition supported_formats : list str :=
  [ lit ".mp3"; lit ".wav"; lit ".mp4"; lit ".avi"; lit ".mov"; lit ".mkv" ].

(** [PurePosixPath(file_path).name]: the last component, where empty
    components and ["."] components do not count; empty when there is none. *)
Definition posix_path_name (file_path : str) : str :=
  last_piece
    (filter (fun x => x ≠ [] ∧ x ≠ lit ".") (split_sep (lit "/") file_path)).

Section Flavour.

(** [Path(file_path).name], the final component of the path.  [Path] is
    [PosixPath] or [WindowsPath] by platform, and the two read separators
    and drives differently; [posix_path_name] is the first. *)
Variable path_name : str -> str.

(** [Path(file_path).suffix], the same code in both flavours: with
    [i = name.rfind('.')], the text from index [i] on when
    [0 < i < len(name) - 1], and the empty string otherwise. *)
Definition suffix (file_path : str) : str :=
  let name := path_name file_path in
  match rfind_char 0x2E name with
  | Some i =>
    if decide (0 < i ∧ i < length name - 1)%nat then drop i name else []
  | None => []
  end.

Definition validate_file (file_path : str) : bool :=
  let file_ext := lower (suffix file_path) in
  bool_decide (file_ext ∈ supported_formats).

End Flavour.

End AudioProcessor.

(* ===================================================================== *)
(** * JSON text, as [json.dumps] writes it and [json.loads] reads it *)
(* ===================================================================== *)

Module Json.

(** The Python values the exporter serialises: [str], [list] and [dict]
    with [str] keys (a dictionary keeps the order of insertion). *)
Inductive value :=
| JStr (s : str)
| JList (xs : list value)
| JDict (kvs : list (str * value)).

(** ** [json.dumps(obj, indent=2, ensure_ascii=False)] *)

Definition hex_digit (n : N) : char :=
  if n <? 10 then 0x30 + n else 0x61 + (n - 10).

(** The escapes of [ESCAPE_DCT]; with [ensure_ascii=False] every other code
    point is written as it is. *)
Definition escape_char (c : char) : str :=
  if c =? 0x22 then [0x5C; 0x22]
  else if c =? 0x5C then [0x5C; 0x5C]
  else if c =? 0x0A then [0x5C; 0x6E]
  else if c =? 0x0D then [0x5C; 0x72]
  else if c =? 0x09 then [0x5C; 0x74]
  else if c =? 0x08 then [0x5C; 0x62]
  else if c =? 0x0C then [0x5C; 0x66]
  else if c <? 0x20 then
    [0x5C; 0x75; 0x30; 0x30; hex_digit (c / 16); hex_digit (c mod 16)]
  else [c].

Definition encode_basestring (s : str) : str :=
  [0x22] ++ (s ≫= escape_char) ++ [0x22].

(** A line break followed by [level] indentation steps of two spaces. *)
Definition newline_indent (level : nat) : str :=
  0x0A :: replicate (2 * level) 0x20.

(** The chunks of a non-empty container, joined by [',' + newline_indent]. *)
Fixpoint join_items (level : nat) (items : list str) : str :=
  match items with
  | [] => []
  | [x] => x
  | x :: rest => x ++ [0x2C] ++ newline_indent level ++ join_items level rest
  end.

Fixpoint encode (level : nat) (v : value) : str :=
  match v with
  | JStr s => encode_basestring s
  | JList [] => [0x5B; 0x5D]
  | JList xs =>
    [0x5B] ++ newline_indent (S level)
    ++ join_items (S level) (map (encode (S level)) xs)
    ++ newline_indent level ++ [0x5D]
  | JDict [] => [0x7B; 0x7D]
  | JDict kvs =>
    [0x7B] ++ newline_indent (S level)
    ++ join_items (S level)
         (map (fun kv => encode_basestring (fst kv) ++ [0x3A; 0x20]
                         ++ encode (S level) (snd kv)) kvs)
    ++ newline_indent level ++ [0x7D]
  end.

Definition dumps (v : value) : str := encode 0 v.

(** ** [json.loads(text)]

    The decoder on the JSON texts made of strings, arrays and objects;
    numbers and the literals [true], [false], [null] do not occur in what
    the exporter writes and are rejected here. *)

Definition is_ws (c : char) : bool :=
  (c =? 0x20) || (c =? 0x09) || (c =? 0x0A) || (c =? 0x0D).

Definition skip_ws (s : str) : str := drop_while is_ws s.

Definition hex_value (c : char) : option N :=
  if (0x30 <=? c) && (c <=? 0x39) then Some (c - 0x30)
  else if (0x61 <=? c) && (c <=? 0x66) then Some (c - 0x61 + 10)
  else if (0x41 <=? c) && (c <=? 0x46) then Some (c - 0x41 + 10)
  else None.

(** Four hexadecimal digits. *)
Definition hex4 (a b c d : char) : option N :=
  x ← hex_value a; y ← hex_value b; z ← hex_value c; w ← hex_value d;
  Some (((x * 16 + y) * 16 + z) * 16 + w).

(** The [BACKSLASH] table of the decoder. *)
Definition unescape (c : char) : option char :=
  if c =? 0x22 then Some 0x22
  else if c =? 0x5C then Some 0x5C
  else if c =? 0x2F then Some 0x2F
  else if c =? 0x62 then Some 0x08
  else if c =? 0x66 then Some 0x0C
  else if c =? 0x6E then Some 0x0A
  else if c =? 0x72 then Some 0x0D
  else if c =? 0x74 then Some 0x09
  else None.

(** [scanstring] in strict mode, from just after the opening quote: the
    decoded content and the text after the closing quote.  A high surrogate
    escape followed by a low surrogate escape is one code point. *)
Fixpoint scanstring (s : str) (acc : str) : option (str * str) :=
  match s with
  | [] => None
  | c :: s1 =>
    if c =? 0x22 then Some (acc, s1)
    else if c =? 0x5C then
      match s1 with
      | [] => None
      | e :: s2 =>
        if e =? 0x75 then
          match s2 with
          | h1 :: h2 :: h3 :: h4 :: s3 =>
            match hex4 h1 h2 h3 h4 with
            | None => None
            | Some uni =>
              match s3 with
              | b :: u :: l1 :: l2 :: l3 :: l4 :: s4 =>
                match hex4 l1 l2 l3 l4 with
                | Some uni2 =>
                  if (0xD800 <=? uni) && (uni <=? 0xDBFF)
                     && (b =? 0x5C) && (u =? 0x75)
                     && (0xDC00 <=? uni2) && (uni2 <=? 0xDFFF)
                  then scanstring s4
                         (acc ++ [0x10000 + (uni - 0xD800) * 0x400
                                  + (uni2 - 0xDC00)])
                  else scanstring s3 (acc ++ [uni])
                | None => scanstring s3 (acc ++ [uni])
                end
              | _ => scanstring s3 (acc ++ [uni])
              end
            end
          | _ => None
          end
        else
          match unescape e with
          | Some x => scanstring s2 (acc ++ [x])
          | None => None
          end
      end
    else if c <? 0x20 then None
    else scanstring s1 (acc ++ [c])
  end.

(** [dict(pairs)]: a later pair with a key already present replaces the
    value and keeps the position. *)
Fixpoint dict_set (k : str) (v : value) (d : list (str * value))
  : list (str * value) :=
  match d with
  | [] => [(k, v)]
  | (k', v') :: d' =>
    if decide (k = k') then (k, v) :: d' else (k', v') :: dict_set k v d'
  end.

Definition dict_of_pairs (pairs : list (str * value)) : list (str * value) :=
  fold_left (fun d kv => dict_set (fst kv) (snd kv) d) pairs [].

(** [scan_once], [JSONArray] and [JSONObject].  The three functions call
    each other on ever shorter rests of the text; [fuel] bounds the number
    of calls, and [loads] supplies more than the length of the text.
    [parse_array] and [parse_object] start at the first element (or just
    after the opening quote of the first key) and carry what was read so
    far. *)
Fixpoint parse_value (fuel : nat) (s : str) : option (value * str) :=
  match fuel with
  | O => None
  | S fuel' =>
    match s with
    | c :: s1 =>
      if c =? 0x22 then
        match scanstring s1 [] with
        | Some (x, r) => Some (JStr x, r)
        | None => None
        end
      else if c =? 0x5B then
        match skip_ws s1 with
        | c2 :: r2 =>
          if c2 =? 0x5D then Some (JList [], r2)
          else parse_array fuel' (c2 :: r2) []
        | [] => None
        end
      else if c =? 0x7B then
        match skip_ws s1 with
        | c2 :: r2 =>
          if c2 =? 0x7D then Some (JDict [], r2)
          else if c2 =? 0x22 then parse_object fuel' r2 []
          else None
        | [] => None
        end
      else None
    | [] => None
    end
  end
with parse_array (fuel : nat) (s : str) (acc : list value)
  : option (value * str) :=
  match fuel with
  | O => None
  | S fuel' =>
    match parse_value fuel' s with
    | Some (v, r) =>
      match skip_ws r with
      | c :: r1 =>
        if c =? 0x5D then Some (JList (acc ++ [v]), r1)
        else if c =? 0x2C then parse_array fuel' (skip_ws r1) (acc ++ [v])
        else None
      | [] => None
      end
    | None => None
    end
  end
with parse_object (fuel : nat) (s : str) (acc : list (str * value))
  : option (value * str) :=
  match fuel with
  | O => None
  | S fuel' =>
    match scanstring s [] with
    | Some (key, r) =>
      match skip_ws r with
      | c :: r1 =>
        if c =? 0x3A then
          match parse_value fuel' (skip_ws r1) with
          | Some (v, r2) =>
            match skip_ws r2 with
            | c3 :: r3 =>
              if c3 =? 0x7D
              then Some (JDict (dict_of_pairs (acc ++ [(key, v)])), r3)
              else if c3 =? 0x2C then
                match skip_ws r3 with
                | c4 :: r4 =>
                  if c4 =? 0x22
                  then parse_object fuel' r4 (acc ++ [(key, v)])
                  else None
                | [] => None
                end
              else None
            | [] => None
            end
          | None => None
          end
        else None
      | [] => None
      end
    | None => None
    end
  end.

(** [JSONDecoder.decode]: white space, one value, white space, end. *)
Definition loads (s : str) : option value :=
  match parse_value (S (length s)) (skip_ws s) with
  | Some (v, r) => if decide (skip_ws r = []) then Some v else None
  | None => None
  end.

End Json.

(* ===================================================================== *)
(** * src/output_generator.py *)
(* ===================================================================== *)

Module OutputGenerator.
Import MeetingSummarizer Json.

(** The dictionary [json.dumps] receives: the keys of the minutes in the
    order [generate_minutes] inserts them. *)
Definition action_item_to_json (item : ActionItem) : value :=
  JDict [ (lit "task", JStr (task item));
          (lit "assignee", JStr (assignee item));
          (lit "due_date", JStr (due_date item));
          (lit "priority", JStr (priority item)) ].

Definition meeting_info_to_json (info : MeetingInfo) : value :=
  JDict [ (lit "title", JStr (title info));
          (lit "date", JStr (date info));
          (lit "participants", JList (JStr <$> participants info));
          (lit "duration", JStr (duration info)) ].

Definition to_json (minutes : Minutes) : value :=
  JDict [ (lit "meeting_info", meeting_info_to_json (meeting_info minutes));
          (lit "summary", JStr (summary minutes));
          (lit "key_decisions", JList (JStr <$> key_decisions minutes));
          (lit "action_items",
             JList (action_item_to_json <$> action_items minutes));
          (lit "next_steps", JList (JStr <$> next_steps minutes));
          (lit "full_transcript", JStr (full_transcript minutes)) ].

(** [None] is the exception that [encode('utf-8')] raises and the method
    re-raises. *)
Definition _generate_json (minutes : Minutes) : option bytes :=
  let json_data := dumps (to_json minutes) in
  encode_utf8 json_data.

(** [html_template.format(...)].  The minutes are a [Minutes] record, so the
    defaults of the [.get] calls are never used. *)
Definition html_template
    (title date duration participants summary decisions_html
     action_items_html next_steps_html transcript generated_time : str)
  : str :=
  lit "
            <!DOCTYPE html>
            <html lang=" ++ dq
  ++ lit "en" ++ dq
  ++ lit ">
            <head>
                <meta charset=" ++ dq
  ++ lit "UTF-8" ++ dq
  ++ lit ">
                <meta name=" ++ dq ++ lit "viewport" ++ dq
  ++ lit " content=" ++ dq ++ lit "width=device-width, initial-scale=1.0"
  ++ dq
  ++ lit ">
                <title>Meeting Minutes - " ++ title
  ++ lit "</title>
                <style>
                    body {
                        font-family: Arial, sans-serif;
                        max-width: 800px;
                        margin: 0 auto;
                        padding: 20px;
                        line-height: 1.6;
                    }
                    .header {
                        background-color: #f4f4f4;
                        padding: 20px;
                        border-radius: 5px;
                        margin-bottom: 20px;
                    }
                    .section {
                        margin-bottom: 30px;
                    }
                    .action-item {
                        background-color: #fff3cd;
                        padding: 10px;
                        margin: 5px 0;
                        border-left: 4px solid #ffc107;
                    }
                    .decision {
                        background-color: #d1ecf1;
                        padding: 10px;
                        margin: 5px 0;
                        border-left: 4px solid #17a2b8;
                    }
                    h1, h2 {
                        color: #333;
                    }
                    .timestamp {
                        color: #666;
                        font-size: 0.9em;
                    }
                </style>
            </head>
            <body>
                <div class="
  ++ dq ++ lit "header" ++ dq
  ++ lit ">
                    <h1>Meeting Minutes: " ++ title
  ++ lit "</h1>
                    <p><strong>Date:</strong> " ++ date
  ++ lit "</p>
                    <p><strong>Duration:</strong> "
  ++ duration
  ++ lit "</p>
                    <p><strong>Participants:</strong> "
  ++ participants
  ++ lit "</p>
                </div>
                
                <div class="
  ++ dq ++ lit "section" ++ dq
  ++ lit ">
                    <h2>📋 Summary</h2>
                    <p>"
  ++ summary
  ++ lit "</p>
                </div>
                
                <div class="
  ++ dq ++ lit "section" ++ dq
  ++ lit ">
                    <h2>🎯 Key Decisions</h2>
                    "
  ++ decisions_html
  ++ lit "
                </div>
                
                <div class="
  ++ dq ++ lit "section" ++ dq
  ++ lit ">
                    <h2>✅ Action Items</h2>
                    "
  ++ action_items_html
  ++ lit "
                </div>
                
                <div class="
  ++ dq ++ lit "section" ++ dq
  ++ lit ">
                    <h2>🔄 Next Steps</h2>
                    <ul>
                        "
  ++ next_steps_html
  ++ lit "
                    </ul>
                </div>
                
                <div class="
  ++ dq ++ lit "section" ++ dq
  ++ lit ">
                    <h2>📝 Full Transcript</h2>
                    <div style="
  ++ dq
  ++ lit "background-color: #f8f9fa; padding: 15px; border-radius: 5px;"
  ++ dq
  ++ lit ">
                        <pre style=" ++ dq
  ++ lit "white-space: pre-wrap;" ++ dq ++ lit ">" ++ transcript
  ++ lit "</pre>
                    </div>
                </div>
                
                <footer style="
  ++ dq ++ lit "margin-top: 40px; text-align: center; color: #666;" ++ dq
  ++ lit ">
                    <p class=" ++ dq ++ lit "timestamp" ++ dq
  ++ lit ">Generated on " ++ generated_time
  ++ lit "</p>
                </footer>
            </body>
            </html>
            ".

(** [generated_time] is [datetime.now().strftime('%Y-%m-%d %H:%M:%S')], an
    input of the model. *)
Definition _generate_html (generated_time : str) (minutes : Minutes)
  : option bytes :=
  let meeting_info := meeting_info minutes in
  let decisions_html :=
    concat ((fun decision =>
               lit "<div class=" ++ dq ++ lit "decision" ++ dq ++ lit ">• "
               ++ decision ++ lit "</div>") <$> key_decisions minutes) in
  let action_items_html :=
    concat ((fun item =>
               lit "<div class=" ++ dq ++ lit "action-item" ++ dq
               ++ lit "><strong>" ++ assignee item ++ lit ":</strong> "
               ++ task item ++ lit " <em>(Due: " ++ due_date item
               ++ lit ")</em></div>") <$> action_items minutes) in
  let next_steps_html :=
    concat ((fun step => lit "<li>" ++ step ++ lit "</li>")
              <$> next_steps minutes) in
  let html_content :=
    html_template (title meeting_info) (date meeting_info)
      (duration meeting_info) (join (lit ", ") (participants meeting_info))
      (summary minutes) decisions_html action_items_html next_steps_html
      (full_transcript minutes) generated_time in
  encode_utf8 html_content.

Definition _generate_pdf (minutes : Minutes) : option bytes :=
  let pdf_title := title (meeting_info minutes) in
  let pdf_date := date (meeting_info minutes) in
  let pdf_summary := summary minutes in
  let pdf_decisions :=
    join nl ((fun decision => lit "• " ++ decision)
               <$> key_decisions minutes) in
  let pdf_items :=
    join nl ((fun item => lit "• " ++ assignee item ++ lit ": " ++ task item)
               <$> action_items minutes) in
  let pdf_content :=
    lit "
            Meeting Minutes: " ++ pdf_title
    ++ lit "
            Date: " ++ pdf_date
    ++ lit "
            
            Summary:
            " ++ pdf_summary
    ++ lit "
            
            Key Decisions:
            "
    ++ pdf_decisions
    ++ lit "
            
            Action Items:
            "
    ++ pdf_items
    ++ lit "
            " in
  encode_utf8 pdf_content.

(** The loop of [generate_outputs]; an exception of a generator ends it. *)
Fixpoint generate_outputs_from (generated_time : str) (minutes : Minutes)
    (formats : list str) (outputs : gmap str bytes)
  : option (gmap str bytes) :=
  match formats with
  | [] => Some outputs
  | format_name :: rest =>
    if decide (format_name = lit "JSON") then
      b ← _generate_json minutes;
      generate_outputs_from generated_time minutes rest
        (<[lit "JSON" := b]> outputs)
    else if decide (format_name = lit "HTML") then
      b ← _generate_html generated_time minutes;
      generate_outputs_from generated_time minutes rest
        (<[lit "HTML" := b]> outputs)
    else if decide (format_name = lit "PDF") then
      b ← _generate_pdf minutes;
      generate_outputs_from generated_time minutes rest
        (<[lit "PDF" := b]> outputs)
    else generate_outputs_from generated_time minutes rest outputs
  end.

Definition generate_outputs (generated_time : str) (minutes : Minutes)
    (formats : list str) : option (gmap str bytes) :=
  generate_outputs_from generated_time minutes formats ∅.

End OutputGenerator.

(* ===================================================================== *)
(** * src/summarizer.py: the dictionaries returned *)
(* ===================================================================== *)

Module MinutesDict.
Import MeetingSummarizer Json.

(** The dictionary of an action item, as [_extract_llm_action_items] and
    [_extract_demo_action_items] write it. *)
Definition action_item_dict (item : ActionItem) : value :=
  JDict [ (lit "task", JStr (task item));
          (lit "assignee", JStr (assignee item));
          (lit "due_date", JStr (due_date item));
          (lit "priority", JStr (priority item)) ].

(** The dictionary literal that [_generate_demo_minutes] returns. *)
Definition _generate_demo_minutes_dict (meeting_data : MeetingData)
    (max_length : Z) : value :=
  let transcript := transcript_text meeting_data in
  JDict
    [ (lit "meeting_info",
       JDict
         [ (lit "title",
            JStr (default (lit "Meeting") (md_title meeting_data)));
           (lit "date", JStr (default [] (md_date meeting_data)));
           (lit "participants",
            JList (JStr <$> default [] (md_participants meeting_data)));
           (lit "duration", JStr (_estimate_duration transcript)) ]);
      (lit "summary", JStr (_generate_demo_summary transcript max_length));
      (lit "key_decisions", JList (JStr <$> _extract_demo_decisions transcript));
      (lit "action_items",
       JList (action_item_dict <$> _extract_demo_action_items transcript));
      (lit "next_steps", JList (JStr <$> _extract_demo_next_steps transcript));
      (lit "full_transcript", JStr transcript) ].

(** [generate_minutes], with the dictionary it returns written out: the
    literal of the model path, or the one of [_generate_demo_minutes]. *)
Definition generate_minutes_dict (self : Summarizer)
    (meeting_data : MeetingData) (max_length : Z) : Gen value :=
  let transcript := transcript_text meeting_data in
  match model self, pipeline self with
  | DemoMode, _ | _, None =>
    ret (_generate_demo_minutes_dict meeting_data max_length)
  | _, Some p =>
    s <- _generate_llm_summary p transcript max_length ;;
    d <- _extract_llm_decisions p transcript ;;
    a <- _extract_llm_action_items p transcript ;;
    n <- _extract_llm_next_steps p transcript ;;
    ret (JDict
           [ (lit "meeting_info",
              JDict
                [ (lit "title",
                   JStr (default (lit "Meeting") (md_title meeting_data)));
                  (lit "date", JStr (default [] (md_date meeting_data)));
                  (lit "participants",
                   JList (JStr <$> default [] (md_participants meeting_data)));
                  (lit "duration", JStr (_estimate_duration transcript)) ]);
             (lit "summary", JStr s);
             (lit "key_decisions", JList (JStr <$> d));
             (lit "action_items", JList (action_item_dict <$> a));
             (lit "next_steps", JList (JStr <$> n));
             (lit "full_transcript", JStr transcript) ])
  end.

End MinutesDict.

(* ===================================================================== *)
(** * Specification-side definitions

    The two metrics as the specification words them, and the predicates
    and readers in which the properties below are stated. *)
(* ===================================================================== *)

(* ===================================================================== *)
(** * src/summarizer.py: loading the model *)
(* ===================================================================== *)

Module ModelLoading.
Import MeetingSummarizer.

(** [needle in hay] on two strings. *)
Fixpoint contains (needle hay : str) : bool :=
  startswith needle hay
  || match hay with
     | [] => false
     | _ :: hay' => contains needle hay'
     end.

(** The model path that [_load_model] chooses from the model name. *)
Definition model_path (model_name : str) : str :=
  if contains (lit "qwen") (lower model_name)
  then lit "Qwen/Qwen2.5-7B-Instruct"
  else if contains (lit "llama") (lower model_name)
  then lit "meta-llama/Llama-3.1-8B-Instruct"
  else model_name.

(** [_load_model].  [loader] stands for the three library calls that load
    the tokenizer, the model and the pipeline from a path; [None] is an
    exception raised by any of them, after which [self.model] is the marker
    of demo mode and [self.pipeline] is still [None]. *)
Definition _load_model (loader : str -> option Pipeline) (model_name : str)
  : Summarizer :=
  match loader (model_path model_name) with
  | Some p => {| model := Loaded; pipeline := Some p |}
  | None => {| model := DemoMode; pipeline := None |}
  end.

(** [MeetingSummarizer(model_name)]; the dataset that [_load_dataset]
    fetches is not read by any other method. *)
Definition init (loader : str -> option Pipeline) (model_name : str)
  : Summarizer :=
  _load_model loader model_name.

End ModelLoading.

(* ===================================================================== *)
(** * src/audio_processor.py: the files *)
(* ===================================================================== *)

Module AudioFiles.

(** [process_file] on a file system of regular files, a map from paths to
    contents.  [tempfile.NamedTemporaryFile(delete=False, suffix='.wav')]
    creates an empty file and keeps it; its name, [tmp_name], is chosen by
    the library.  [shutil.copy2] raises when the source is missing or is the
    destination itself, and otherwise writes the content of the source to
    the destination.  The FFmpeg command line is built and not run, and
    [chunk_length] is not read.  The result is the file system afterwards
    and the returned path, [None] for the exception re-raised. *)
Definition process_file (tmp_name : str) (fs : gmap str bytes)
    (file_path : str) (chunk_length : Z) : gmap str bytes * option str :=
  let output_path := tmp_name in
  let fs := <[output_path := []]> fs in
  match fs !! file_path with
  | Some content =>
    if decide (file_path = output_path) then (fs, None)
    else (<[output_path := content]> fs, Some output_path)
  | None => (fs, None)
  end.

(** [get_duration]: the placeholder. *)
Definition get_duration (file_path : str) : Z := 300.

End AudioFiles.

(* ===================================================================== *)
(** * src/app.py *)
(* ===================================================================== *)

Module App.
Import MeetingSummarizer OutputGenerator.

(** [[p.strip() for p in participants.split('\n') if p.strip()]]. *)
Definition parse_participants (participants : str) : list str :=
  strip <$> filter (fun p => strip p ≠ []) (split_sep nl participants).

(** The dictionary [meeting_data] of [process_meeting]; [date] is
    [str(date)], the text of the date. *)
Definition make_meeting_data (title date participants : str)
    (transcript : Transcript) : MeetingData :=
  {| md_title := Some title;
     md_date := Some date;
     md_participants := Some (parse_participants participants);
     md_transcript := Some transcript |}.

(** Steps 3 and 4 of [process_meeting]: the minutes, then the output
    files; [None] for the files is the exception that the function reports
    and swallows. *)
Definition minutes_and_outputs (summarizer : Summarizer)
    (generated_time title date participants : str) (transcript : Transcript)
    (output_formats : list str) (max_summary_length : Z)
  : Gen (Minutes * option (gmap str bytes)) :=
  minutes <- generate_minutes summarizer
               (make_meeting_data title date participants transcript)
               max_summary_length ;;
  ret (minutes, generate_outputs generated_time minutes output_formats).




End App.

Local Close Scope N_scope.

Module Spec.
Import Evaluator.

(** The words of a text, lowercased. *)
Definition words (s : str) : list str := split (lower s).

(** The consecutive pairs of a list of words. *)
Definition pairs (ws : list str) : list (str * str) := zip ws (tail ws).

(** The number of distinct members of [xs] that are also in [ys]. *)
Definition distinct_common `{EqDecision A} (xs ys : list A) : nat :=
  length (filter (fun x => x ∈ ys) (remove_dups xs)).

(** The number of distinct members of [xs]. *)
Definition distinct `{EqDecision A} (xs : list A) : nat :=
  length (remove_dups xs).

(** The word error rate of the specification: both counts are taken over
    distinct words. *)
Definition wer_as_specified (reference hypothesis : str) : Q :=
  if decide (length (words reference) = 0%nat) then
    (if decide (1 <= length (words hypothesis))%nat then 1 else 0)%Q
  else
    clamp01 (1 - true_div (distinct_common (words reference) (words hypothesis))
                          (distinct (words reference)))%Q.

(** ROUGE-2 of the specification: both counts are taken over distinct
    pairs. *)
Definition rouge2_as_specified (reference hypothesis : str) : Q :=
  if decide (length (words reference) < 2)%nat then 0%Q
  else
    true_div (distinct_common (pairs (words reference))
                              (pairs (words hypothesis)))
             (distinct (pairs (words reference))).

(** A score. *)
Definition in_unit_interval (x : Q) : Prop := (0 <= x)%Q ∧ (x <= 1)%Q.

(** A word: not empty, no white space in it. *)
Definition plain_word (w : str) : Prop :=
  w ≠ [] ∧ Forall (fun c => is_space c = false) w.

(** The number a string of decimal digits denotes. *)
Definition number_of_digits (s : str) : N :=
  fold_left (fun a c => a * 10 + (c - 0x30))%N s 0%N.

(** [s] is the decimal numeral of [n]: ASCII digits only, at least one, no
    leading zero except in the numeral 0 itself, and of value [n]. *)
Definition decimal_numeral (n : N) (s : str) : Prop :=
  s ≠ []
  ∧ Forall (fun c => 0x30 ≤ c ∧ c ≤ 0x39)%N s
  ∧ (head s = Some 0x30%N → s = [0x30%N])
  ∧ number_of_digits s = n.

(** The keys of a dictionary, in order. *)
Definition dict_keys (v : Json.value) : list str :=
  match v with
  | Json.JDict kvs => kvs.*1
  | _ => []
  end.

(** The six fields of a minutes record. *)
Definition minutes_fields : list str :=
  [ lit "meeting_info"; lit "summary"; lit "key_decisions";
    lit "action_items"; lit "next_steps"; lit "full_transcript" ].

(** Demo mode: the guard of [generate_minutes]. *)
Definition in_demo_mode (self : MeetingSummarizer.Summarizer) : Prop :=
  MeetingSummarizer.model self = MeetingSummarizer.DemoMode
  ∨ MeetingSummarizer.pipeline self = None.

(** The number of calls the decoder makes on the text of a value. *)
Fixpoint json_size (v : Json.value) : nat :=
  match v with
  | Json.JStr _ => 1
  | Json.JList xs => S (foldr (fun x n => S (json_size x) + n) 0 xs)
  | Json.JDict kvs => S (foldr (fun kv n => S (json_size (snd kv)) + n) 0 kvs)
  end.

(** A value in which no dictionary has the same key twice, as every Python
    dictionary is. *)
Inductive distinct_keys : Json.value → Prop :=
| distinct_keys_str s : distinct_keys (Json.JStr s)
| distinct_keys_list xs :
    Forall distinct_keys xs → distinct_keys (Json.JList xs)
| distinct_keys_dict kvs :
    NoDup kvs.*1 → Forall (fun kv => distinct_keys (snd kv)) kvs →
    distinct_keys (Json.JDict kvs).

(** The first character of the text of a value: a quote, a bracket or a
    brace. *)
Definition starts_value (s : str) : Prop :=
  ∃ c r, s = c :: r ∧ (c = 0x22 ∨ c = 0x5B ∨ c = 0x7B)%N.

(** The decoder reads the text of [v], at any depth of indentation and
    whatever follows, given enough fuel. *)
Definition reads_back (v : Json.value) : Prop :=
  ∀ level rest fuel,
    json_size v ≤ fuel →
    Json.parse_value fuel (Json.encode level v ++ rest) = Some (v, rest).

(** [d[k]] on a decoded dictionary. *)
Fixpoint assoc (k : str) (kvs : list (str * Json.value))
  : option Json.value :=
  match kvs with
  | [] => None
  | (k', v) :: rest => if decide (k' = k) then Some v else assoc k rest
  end.

Definition dict_get (k : str) (v : Json.value) : option Json.value :=
  match v with
  | Json.JDict kvs => assoc k kvs
  | _ => None
  end.

(** A Unicode scalar value: a code point that has a UTF-8 form. *)
Definition is_scalar (c : char) : Prop :=
  (c < 0xD800 ∨ (0xE000 ≤ c ∧ c < 0x110000))%N.

(** A text that [encode('utf-8')] accepts. *)
Definition encodable (s : str) : Prop := Forall is_scalar s.

(** A value whose keys and strings are all encodable. *)
Inductive encodable_value : Json.value → Prop :=
| encodable_str s : encodable s → encodable_value (Json.JStr s)
| encodable_list xs :
    Forall encodable_value xs → encodable_value (Json.JList xs)
| encodable_dict kvs :
    Forall (fun kv => encodable (fst kv) ∧ encodable_value (snd kv)) kvs →
    encodable_value (Json.JDict kvs).

(** The members of a decoded list. *)
Definition json_list (v : Json.value) : option (list Json.value) :=
  match v with
  | Json.JList xs => Some xs
  | _ => None
  end.

(** What the test does with the payload:
    [json.loads(payload.decode('utf-8'))]. *)
Definition decode_payload (payload : bytes) : option Json.value :=
  decode_utf8 payload ≫= Json.loads.

(** The format identifiers [generate_outputs] dispatches on. *)
Definition recognised_formats : list str :=
  [ lit "JSON"; lit "HTML"; lit "PDF" ].

End Spec.

(* ===================================================================== *)
(** * Further notions in which properties are stated *)
(* ===================================================================== *)

Module Notions.

(** [sep] occurs in [s]. *)
Definition occurs {A} (sep s : list A) : Prop :=
  ∃ before after, s = before ++ sep ++ after.

(** No white space at either end. *)
Definition stripped (s : str) : Prop :=
  (∀ c r, s = c :: r → is_space c = false)
  ∧ (∀ c r, s = r ++ [c] → is_space c = false).

(** The code points that an entry of [lower_table] maps. *)
Definition mapped_by (e : N * N * N * N) : list char :=
  let '(lo, hi, step, _) := e in
  (fun k => (lo + N.of_nat k * step)%N)
    <$> seq 0 (S (N.to_nat ((hi - lo) / step))).

(** The code points that have a simple lowercase mapping. *)
Definition mapped : list char := lower_table ≫= mapped_by.

(** A code point that lowercasing leaves as it is, in every context. *)
Definition lowercase_char (c : char) : bool :=
  negb (c =? 0x3A3)%N && bool_decide (lower_char c = [c]).

(** The bullet characters that [_extract_llm_next_steps] removes. *)
Definition bullets : str := lit "•-*".

(** What a requested identifier contributes to the export: nothing when it
    is not recognised, otherwise the result of its generator. *)
Definition rendering (generated_time : str)
    (minutes : MeetingSummarizer.Minutes) (format_name : str)
  : option (option bytes) :=
  if decide (format_name = lit "JSON")
  then Some (OutputGenerator._generate_json minutes)
  else if decide (format_name = lit "HTML")
  then Some (OutputGenerator._generate_html generated_time minutes)
  else if decide (format_name = lit "PDF")
  then Some (OutputGenerator._generate_pdf minutes)
  else None.

(** The entry under [k] once the identifiers [fmts] were handled, starting
    from the mapping [outs]. *)
Definition entry (generated_time : str) (minutes : MeetingSummarizer.Minutes)
    (fmts : list str) (outs : gmap str bytes) (k : str) : option bytes :=
  match (if decide (k ∈ fmts) then rendering generated_time minutes k
         else None) with
  | Some r => r
  | None => outs !! k
  end.

(** The texts of the minutes that the HTML page shows. *)
Definition shown_texts (generated_time : str)
    (minutes : MeetingSummarizer.Minutes) : list str :=
  let info := MeetingSummarizer.meeting_info minutes in
  [ MeetingSummarizer.title info; MeetingSummarizer.date info;
    MeetingSummarizer.duration info; MeetingSummarizer.summary minutes;
    MeetingSummarizer.full_transcript minutes; generated_time ]
  ++ MeetingSummarizer.participants info
  ++ MeetingSummarizer.key_decisions minutes
  ++ MeetingSummarizer.next_steps minutes
  ++ (MeetingSummarizer.action_items minutes
        ≫= fun item => [ MeetingSummarizer.assignee item;
                         MeetingSummarizer.task item;
                         MeetingSummarizer.due_date item ]).

End Notions.

Module MoreTactics.
Import Tactics.

(** Settle the equality tests of the goal that arithmetic decides. *)
Ltac settle_eqb :=
  repeat match goal with
  | |- context [N.eqb ?a ?b] =>
    first [ rewrite (proj2 (N.eqb_eq a b)) by lia
          | rewrite (proj2 (N.eqb_neq a b)) by lia ]
  end.

End MoreTactics.

(* ===================================================================== *)
(** * Proof automation *)
(* ===================================================================== *)

Module Tactics.

(** Linear arithmetic with division and remainder by constants. *)
Ltac div_lia := zify; Z.to_euclidean_division_equations; lia.

(** Settle the comparisons of the goal whose outcome arithmetic decides. *)
Ltac settle_tests :=
  repeat match goal with
  | |- context [N.ltb ?a ?b] =>
    first [ rewrite (proj2 (N.ltb_lt a b)) by div_lia
          | rewrite (proj2 (N.ltb_ge a b)) by div_lia ]
  | |- context [N.leb ?a ?b] =>
    first [ rewrite (proj2 (N.leb_le a b)) by div_lia
          | rewrite (proj2 (N.leb_gt a b)) by div_lia ]
  end.

(** A closed list of literals has no repetition. *)
Ltac distinct_literals :=
  apply (bool_decide_unpack _); vm_compute; exact I.

End Tactics.

(* ===================================================================== *)
(** * Properties of src/evaluator.py *)
(* ===================================================================== *)

Module EvaluatorProps.
Import Evaluator Spec.

(** ** Sets of words and their sizes *)

Section set_sizes.
Context `{Countable A}.
Implicit Types xs ys : list A.

Lemma size_common xs ys :
  size (to_set xs ∩ to_set ys) = distinct_common xs ys.
Proof.
  unfold distinct_common, to_set, size, set_size. simpl.
  apply Permutation_length, NoDup_Permutation.
  - apply NoDup_elements.
  - apply NoDup_filter, NoDup_remove_dups.
  - intros x. rewrite elem_of_elements, elem_of_intersection.
    rewrite !elem_of_list_to_set, list_elem_of_filter, elem_of_remove_dups.
    tauto.
Qed.

Lemma size_to_set xs : size (to_set xs) = distinct xs.
Proof.
  unfold distinct, to_set, size, set_size. simpl.
  apply Permutation_length, NoDup_Permutation.
  - apply NoDup_elements.
  - apply NoDup_remove_dups.
  - intros x.
    by rewrite elem_of_elements, elem_of_list_to_set, elem_of_remove_dups.
Qed.

Lemma distinct_common_le xs ys : distinct_common xs ys ≤ distinct xs.
Proof. apply length_filter. Qed.

Lemma distinct_le_length xs : distinct xs ≤ length xs.
Proof.
  unfold distinct. induction xs as [|x xs IH]; simpl; [lia|].
  destruct (decide_rel elem_of x xs); simpl; lia.
Qed.

Lemma distinct_NoDup xs : NoDup xs → distinct xs = length xs.
Proof.
  unfold distinct. induction 1 as [|x xs Hx _ IH]; simpl; [done|].
  destruct (decide_rel elem_of x xs); [done|]. simpl. by rewrite IH.
Qed.
End set_sizes.

(** ** Quotients of lengths *)

Lemma true_div_nonneg a b : (0 <= true_div a b)%Q.
Proof.
  unfold true_div. destruct b as [|b].
  - simpl. unfold Qdiv, Qinv. simpl. rewrite Qmult_0_r. apply Qle_refl.
  - apply Qle_shift_div_l.
    + rewrite <- (Zlt_Qlt 0). lia.
    + rewrite Qmult_0_l. rewrite <- (Zle_Qle 0). lia.
Qed.

Lemma true_div_le_1 a b : (a ≤ b)%nat → (true_div a b <= 1)%Q.
Proof.
  intros Hab. unfold true_div. destruct b as [|b].
  - simpl. unfold Qdiv, Qinv. simpl. by rewrite Qmult_0_r.
  - apply Qle_shift_div_r.
    + rewrite <- (Zlt_Qlt 0). lia.
    + rewrite Qmult_1_l. rewrite <- Zle_Qle. lia.
Qed.

Lemma true_div_unit a b : (a ≤ b)%nat → in_unit_interval (true_div a b).
Proof. split; [apply true_div_nonneg | by apply true_div_le_1]. Qed.

Lemma true_div_ge_1 a b : (0 < b ≤ a)%nat → (1 <= true_div a b)%Q.
Proof.
  intros [Hb Hab]. unfold true_div. apply Qle_shift_div_l.
  - rewrite <- (Zlt_Qlt 0). lia.
  - rewrite Qmult_1_l. rewrite <- Zle_Qle. lia.
Qed.

Lemma clamp01_unit x : in_unit_interval (clamp01 x).
Proof.
  unfold clamp01. split.
  - apply Q.le_max_l.
  - apply Q.max_lub; [done | apply Q.le_min_l].
Qed.

Lemma clamp01_id x : in_unit_interval x → (clamp01 x == x)%Q.
Proof.
  intros [H0 H1]. unfold clamp01.
  rewrite (Q.min_r 1 x) by done. by rewrite Q.max_r.
Qed.

Lemma clamp01_nonpos x : (x <= 0)%Q → (clamp01 x == 0)%Q.
Proof.
  intros Hx. unfold clamp01. apply Q.max_l.
  apply (Qle_trans _ x); [apply Q.le_min_r | done].
Qed.

Lemma one_minus_unit x : in_unit_interval x → in_unit_interval (1 - x)%Q.
Proof.
  intros [H0 H1]. split; lra.
Qed.

(** ** Bigrams *)

Lemma consecutive_pairs (ws : list str) :
  (fun i => (nth i ws [], nth (i + 1) ws [])) <$> seq 0 (length ws - 1)
  = pairs ws.
Proof.
  unfold pairs. induction ws as [|a [|b ws] IH]; [done | done |].
  replace (length (a :: b :: ws) - 1) with (S (length (b :: ws) - 1))
    by (simpl; lia).
  rewrite <- cons_seq, fmap_cons.
  change (zip (a :: b :: ws) (tail (a :: b :: ws)))
    with ((a, b) :: zip (b :: ws) (tail (b :: ws))).
  f_equal. rewrite <- IH.
  rewrite <- fmap_S_seq, <- list_fmap_compose. by apply list_fmap_ext.
Qed.

Lemma get_bigrams_pairs (text : str) : _get_bigrams text = pairs (split text).
Proof. apply consecutive_pairs. Qed.

Lemma length_pairs (ws : list str) : length (pairs ws) = length ws - 1.
Proof.
  unfold pairs. rewrite length_zip. destruct ws; [done|].
  rewrite !length_cons. simpl tail. lia.
Qed.

(** ** Lowercasing and position-wise comparison *)

Lemma lower_char_nonempty c : 1 ≤ length (lower_char c).
Proof. unfold lower_char. repeat case_match; simpl; lia. Qed.

Lemma length_lower_from (after_cased : bool) (s : str) :
  length s ≤ length (lower_from after_cased s).
Proof.
  revert after_cased. induction s as [|c s IH]; intros after_cased; [done|].
  cbn [lower_from]. rewrite length_app, length_cons.
  specialize (IH (if case_ignorable c then after_cased else cased c)).
  pose proof (lower_char_nonempty c).
  unfold str, char in *. destruct (c =? 0x3A3)%N; cbn [length] in *; lia.
Qed.

(** Lowercasing never shortens a text. *)
Lemma length_lower (s : str) : length s ≤ length (lower s).
Proof. apply length_lower_from. Qed.

Lemma matches_of_prefix (l k : str) :
  length (filter (fun ab => ab.1 = ab.2) (zip l (l ++ k))) = length l.
Proof.
  induction l as [|a l IH]; simpl.
  - by destruct k.
  - rewrite filter_cons_True by done. simpl. by rewrite IH.
Qed.

(** ** The word error rate *)

(** C1, the claim as the specification states it, fails: on the reference
    "a a" and the hypothesis "a" the code answers 1/2, the formula over
    distinct reference words answers 0. *)
Lemma wer_as_specified_fails :
  ¬ (_calculate_wer (lit "a a") (lit "a")
     == wer_as_specified (lit "a a") (lit "a"))%Q.
Proof. intros H. vm_compute in H. discriminate H. Qed.

(** C1, amended: the word error rate is
    clamp(1 - (number of distinct lowercase words common to both)
              / (number of lowercase words of the reference, repeated words
                 counted each time), 0, 1);
    with a reference of zero words it is 1 when the hypothesis has at least
    one word and 0 otherwise. *)
Theorem wer_formula (reference hypothesis : str) :
  (_calculate_wer reference hypothesis ==
   if decide (length (words reference) = 0%nat) then
     if decide (1 ≤ length (words hypothesis))%nat then 1 else 0
   else
     clamp01 (1 - true_div
                    (distinct_common (words reference) (words hypothesis))
                    (length (words reference))))%Q.
Proof.
  unfold _calculate_wer, words. rewrite size_common.
  destruct (decide (length (split (lower reference)) = 0)); [|reflexivity].
  destruct (decide (0 < length (split (lower hypothesis))));
    destruct (decide (1 ≤ length (split (lower hypothesis))));
    (reflexivity || lia).
Qed.

(** The clamp of [_calculate_wer] never acts. *)
Lemma wer_unclamped (reference hypothesis : str) :
  length (words reference) ≠ 0 →
  (_calculate_wer reference hypothesis ==
   1 - true_div (distinct_common (words reference) (words hypothesis))
                (length (words reference)))%Q.
Proof.
  intros Hn. unfold _calculate_wer, words in *. rewrite size_common.
  rewrite decide_False by done.
  apply clamp01_id, one_minus_unit, true_div_unit.
  etrans; [apply distinct_common_le | apply distinct_le_length].
Qed.

(** On a reference without repeated words the code and the specification
    agree. *)
Lemma wer_as_specified_NoDup (reference hypothesis : str) :
  NoDup (words reference) →
  (_calculate_wer reference hypothesis
   == wer_as_specified reference hypothesis)%Q.
Proof.
  intros Hnd. unfold _calculate_wer, wer_as_specified, words in *.
  rewrite size_common, (distinct_NoDup _ Hnd).
  destruct (decide (length (split (lower reference)) = 0)); [|reflexivity].
  destruct (decide (0 < length (split (lower hypothesis))));
    destruct (decide (1 ≤ length (split (lower hypothesis))));
    (reflexivity || lia).
Qed.

Lemma wer_as_specified_NoDup_witness :
  NoDup (words (lit "The cat sat"))
  ∧ (_calculate_wer (lit "The cat sat") (lit "the dog sat")
     == wer_as_specified (lit "The cat sat") (lit "the dog sat"))%Q.
Proof.
  assert (NoDup (words (lit "The cat sat"))) as Hnd
    by (apply (bool_decide_unpack _); vm_compute; exact I).
  exact (conj Hnd
           (wer_as_specified_NoDup (lit "The cat sat") (lit "the dog sat") Hnd)).
Defined.

Example wer_identical :
  (_calculate_wer (lit "the cat sat") (lit "the cat sat") == 0)%Q
  ∧ (accuracy (evaluate_transcription (lit "the cat sat") (lit "the cat sat"))
     == 1)%Q.
Proof. split; vm_compute; reflexivity. Qed.

Example wer_empty_hypothesis :
  (_calculate_wer (lit "the cat sat") [] == 1)%Q.
Proof. vm_compute. reflexivity. Qed.

Example rouge_1_two_thirds :
  (_calculate_rouge_1 (lit "a b c") (lit "a b") == 2 # 3)%Q.
Proof. vm_compute. reflexivity. Qed.

(** ** ROUGE-2 *)

(** C2, the claim as the specification states it, fails: on the reference
    "a a a" and the hypothesis "a a" the code answers 1/2, the formula over
    distinct reference pairs answers 1. *)
Lemma rouge2_as_specified_fails :
  ¬ (_calculate_rouge_2 (lit "a a a") (lit "a a")
     == rouge2_as_specified (lit "a a a") (lit "a a"))%Q.
Proof. intros H. vm_compute in H. discriminate H. Qed.

(** C2, amended: rouge2 is
    (number of distinct lowercase consecutive word pairs common to both)
    / (number of consecutive word pairs of the reference, repeated pairs
       counted each time, that is the number of reference words minus one),
    and 0 when the reference has fewer than two words. *)
Theorem rouge2_formula (reference hypothesis : str) :
  (_calculate_rouge_2 reference hypothesis ==
   if decide (length (words reference) < 2)%nat then 0
   else
     true_div (distinct_common (pairs (words reference))
                               (pairs (words hypothesis)))
              (length (words reference) - 1)%nat)%Q.
Proof.
  unfold _calculate_rouge_2, words.
  rewrite !get_bigrams_pairs, size_common, length_pairs.
  destruct (decide (length (split (lower reference)) - 1 = 0));
    destruct (decide (length (split (lower reference)) < 2));
    (reflexivity || lia).
Qed.

(** On a reference without repeated pairs the code and the specification
    agree. *)
Lemma rouge2_as_specified_NoDup (reference hypothesis : str) :
  NoDup (pairs (words reference)) →
  (_calculate_rouge_2 reference hypothesis
   == rouge2_as_specified reference hypothesis)%Q.
Proof.
  intros Hnd. unfold _calculate_rouge_2, rouge2_as_specified, words in *.
  rewrite !get_bigrams_pairs, size_common, (distinct_NoDup _ Hnd).
  rewrite length_pairs.
  destruct (decide (length (split (lower reference)) - 1 = 0));
    destruct (decide (length (split (lower reference)) < 2));
    (reflexivity || lia).
Qed.

(** ** Ranges *)

Lemma wer_unit r h : in_unit_interval (_calculate_wer r h).
Proof.
  unfold _calculate_wer. repeat case_decide;
    try apply clamp01_unit; split; lra.
Qed.

Lemma cer_unit r h : in_unit_interval (_calculate_cer r h).
Proof.
  unfold _calculate_cer. repeat case_decide;
    try apply clamp01_unit; split; lra.
Qed.

Lemma bleu_unit r h : in_unit_interval (_calculate_bleu r h).
Proof.
  unfold _calculate_bleu. case_decide; [split; lra|].
  apply true_div_unit, subseteq_size, intersection_subseteq_r.
Qed.

Lemma rouge_1_unit r h : in_unit_interval (_calculate_rouge_1 r h).
Proof.
  unfold _calculate_rouge_1. case_decide; [split; lra|].
  apply true_div_unit, subseteq_size, intersection_subseteq_l.
Qed.

Lemma rouge_2_unit r h : in_unit_interval (_calculate_rouge_2 r h).
Proof.
  unfold _calculate_rouge_2. case_decide; [split; lra|].
  apply true_div_unit. rewrite size_common.
  etrans; [apply distinct_common_le | apply distinct_le_length].
Qed.

(** C8: every score that [evaluate_transcription] and
    [evaluate_summarization] return lies between 0 and 1. *)
Theorem scores_in_unit_interval (reference hypothesis : str) :
  let t := evaluate_transcription reference hypothesis in
  let s := evaluate_summarization reference hypothesis in
  in_unit_interval (word_error_rate t)
  ∧ in_unit_interval (character_error_rate t)
  ∧ in_unit_interval (bleu_score t)
  ∧ in_unit_interval (accuracy t)
  ∧ in_unit_interval (rouge_1 s)
  ∧ in_unit_interval (rouge_2 s)
  ∧ in_unit_interval (rouge_l s)
  ∧ in_unit_interval (semantic_similarity s).
Proof.
  simpl. unfold _calculate_rouge_l, _calculate_semantic_similarity.
  repeat split;
    try apply one_minus_unit;
    first [ apply wer_unit | apply cer_unit | apply bleu_unit
          | apply rouge_1_unit | apply rouge_2_unit ].
Qed.

(** ** The character error rate on a hypothesis that extends the reference *)

(** C10: when the reference is not empty and the lowercased hypothesis
    begins with the lowercased reference, the character error rate is 0:
    positions beyond the shorter text are not compared. *)
Theorem cer_prefix_zero (reference hypothesis : str) :
  reference ≠ [] →
  lower reference `prefix_of` lower hypothesis →
  (_calculate_cer reference hypothesis == 0)%Q.
Proof.
  intros Hne [k Hk]. unfold _calculate_cer.
  rewrite decide_False by (by destruct reference).
  rewrite Hk, matches_of_prefix.
  apply clamp01_nonpos.
  assert (1 <= true_div (length (lower reference)) (length reference))%Q
    as Hge; [|lra].
  apply true_div_ge_1. split; [destruct reference; simpl; [done|lia]|].
  apply length_lower.
Qed.

Lemma cer_prefix_zero_witness :
  lit "Hello" ≠ []
  ∧ lower (lit "Hello") `prefix_of` lower (lit "hELLO world")
  ∧ (_calculate_cer (lit "Hello") (lit "hELLO world") == 0)%Q.
Proof.
  assert (lit "Hello" ≠ []) as Hne by (vm_compute; discriminate).
  assert (lower (lit "Hello") `prefix_of` lower (lit "hELLO world")) as Hpre
    by (exists (lit " world"); vm_compute; reflexivity).
  exact (conj Hne (conj Hpre
           (cer_prefix_zero (lit "Hello") (lit "hELLO world") Hne Hpre))).
Defined.

End EvaluatorProps.

(* ===================================================================== *)
(** * Properties of src/summarizer.py *)
(* ===================================================================== *)

Module SummarizerProps.
Import MeetingSummarizer Json OutputGenerator MinutesDict Spec.

(** ** Words of a text *)

Lemma split_go_word (w rest cur : str) :
  Forall (fun c => is_space c = false) w →
  split_go (w ++ rest) cur = split_go rest (cur ++ w).
Proof.
  intros Hw. revert cur. induction Hw as [|c w Hc _ IH]; intros cur; simpl.
  - by rewrite app_nil_r.
  - rewrite Hc, IH. by rewrite <- app_assoc.
Qed.

Lemma split_go_space (c : N) (rest cur : str) :
  is_space c = true → cur ≠ [] →
  split_go (c :: rest) cur = cur :: split_go rest [].
Proof. intros Hc Hcur. simpl. rewrite Hc. by rewrite decide_False. Qed.

(** Words joined by single spaces are split into the same words. *)
Lemma split_join_spaces (ws : list str) :
  Forall plain_word ws → split (join (lit " ") ws) = ws.
Proof.
  unfold split. induction 1 as [|w ws [Hne Hw] Hws IH]; [done|].
  destruct ws as [|w' ws].
  - simpl join. pose proof (split_go_word w [] [] Hw) as Hgo.
    rewrite app_nil_r in Hgo. rewrite Hgo. simpl.
    by rewrite decide_False.
  - change (join (lit " ") (w :: w' :: ws))
      with (w ++ 32%N :: join (lit " ") (w' :: ws)).
    rewrite split_go_word by done. rewrite app_nil_l.
    rewrite split_go_space by done. by rewrite IH.
Qed.

(** ** Decimal numerals *)

Lemma number_of_digits_go (fuel : nat) (n : N) (acc : str) :
  (N.to_nat n ≤ fuel)%nat →
  fold_left (fun a c => a * 10 + (c - 0x30))%N (digits_go fuel n acc) 0%N
  = fold_left (fun a c => a * 10 + (c - 0x30))%N acc n.
Proof.
  revert n acc. induction fuel as [|fuel IH]; intros n acc Hn.
  - assert (n = 0%N) as -> by lia. reflexivity.
  - simpl digits_go. destruct (N.eqb_spec (n / 10) 0) as [Hq|Hq].
    + simpl. f_equal. Tactics.div_lia.
    + rewrite IH.
      * simpl. f_equal. Tactics.div_lia.
      * Tactics.div_lia.
Qed.

(** [str(n)] is a decimal numeral of [n]. *)
Lemma number_of_str_of_N (n : N) : number_of_digits (str_of_N n) = n.
Proof.
  unfold number_of_digits, str_of_N.
  by rewrite number_of_digits_go.
Qed.

(** ** Decimal numerals, continued *)

Lemma digits_go_digits (fuel : nat) (n : N) (acc : str) :
  Forall (fun c => 0x30 ≤ c ∧ c ≤ 0x39)%N acc →
  Forall (fun c => 0x30 ≤ c ∧ c ≤ 0x39)%N (digits_go fuel n acc).
Proof.
  revert n acc. induction fuel as [|fuel IH]; intros n acc Hacc;
    cbn [digits_go].
  - constructor; [Tactics.div_lia | done].
  - destruct (n / 10 =? 0)%N.
    + constructor; [Tactics.div_lia | done].
    + apply IH. constructor; [Tactics.div_lia | done].
Qed.

Lemma digits_go_nonempty (fuel : nat) (n : N) (acc : str) :
  digits_go fuel n acc ≠ [].
Proof.
  revert n acc. induction fuel as [|fuel IH]; intros n acc;
    cbn [digits_go]; [done|].
  destruct (n / 10 =? 0)%N; [done | apply IH].
Qed.

(** The first digit of a positive number is not zero. *)
Lemma digits_go_head (fuel : nat) (n : N) (acc : str) :
  (0 < n)%N → (N.to_nat n ≤ fuel)%nat →
  head (digits_go fuel n acc) ≠ Some 0x30%N.
Proof.
  revert n acc. induction fuel as [|fuel IH]; intros n acc Hn Hfuel; [lia|].
  cbn [digits_go]. destruct (N.eqb_spec (n / 10) 0%N) as [Hq|Hq].
  - cbn [head]. intros [= H]. Tactics.div_lia.
  - apply IH; Tactics.div_lia.
Qed.

(** [str(n)] is the decimal numeral of [n]. *)
Lemma str_of_N_decimal (n : N) : decimal_numeral n (str_of_N n).
Proof.
  unfold decimal_numeral, str_of_N. split; [apply digits_go_nonempty|].
  split; [apply digits_go_digits; constructor|].
  split; [|apply number_of_str_of_N].
  destruct (N.eq_dec n 0%N) as [->|Hn]; [done|].
  intros Hhead.
  destruct (digits_go_head (N.to_nat n) n []); [lia | lia | exact Hhead].
Qed.

(** ** The duration estimate *)

(** C5: the estimate is a numeral followed by " minutes", where the numeral
    is the decimal numeral (digits 0 to 9, no leading zero) of
    max(1, words / 150, rounded down); 450 words give "3 minutes", one word
    gives "1 minutes", and 1500 words give "10 minutes". *)
Theorem estimate_duration_spec (transcript : str) :
  (∃ numeral,
     _estimate_duration transcript = numeral ++ lit " minutes"
     ∧ decimal_numeral
         (N.of_nat (Nat.max 1 (length (split transcript) / 150))) numeral)
  ∧ _estimate_duration (join (lit " ") (replicate 450 (lit "word")))
    = lit "3 minutes"
  ∧ _estimate_duration (lit "word") = lit "1 minutes"
  ∧ _estimate_duration (join (lit " ") (replicate 1500 (lit "word")))
    = lit "10 minutes".
Proof.
  split.
  - exists (str_of_nat (Nat.max 1 (length (split transcript) / 150))).
    split; [reflexivity | apply str_of_N_decimal].
  - repeat split; vm_compute; reflexivity.
Qed.

(** Any transcript of 450 words, and any of one word. *)
Lemma estimate_duration_450 (transcript : str) :
  length (split transcript) = 450 →
  _estimate_duration transcript = lit "3 minutes".
Proof. unfold _estimate_duration. intros ->. vm_compute. reflexivity. Qed.

Lemma estimate_duration_1 (transcript : str) :
  length (split transcript) = 1 →
  _estimate_duration transcript = lit "1 minutes".
Proof. unfold _estimate_duration. intros ->. vm_compute. reflexivity. Qed.

Lemma estimate_duration_words (ws : list str) :
  Forall plain_word ws →
  _estimate_duration (join (lit " ") ws)
  = str_of_nat (Nat.max 1 (length ws / 150)) ++ lit " minutes".
Proof. intros Hws. unfold _estimate_duration. by rewrite split_join_spaces. Qed.

Example estimate_duration_300 :
  _estimate_duration (join (lit " ") (replicate 300 (lit "w")))
  = lit "2 minutes".
Proof. vm_compute. reflexivity. Qed.

(** ** The calls to the language model *)

Lemma length_omap_le {A B} (f : A → option B) (l : list A) :
  length (omap f l) ≤ length l.
Proof.
  induction l as [|x l IH]; [done|].
  change (omap f (x :: l))
    with (match f x with Some y => y :: omap f l | None => omap f l end).
  destruct (f x); simpl; lia.
Qed.

Lemma llm_summary_run p t ml n :
  (_generate_llm_summary p t ml n).2 = S n.
Proof. reflexivity. Qed.

Lemma llm_decisions_run p t n : (_extract_llm_decisions p t n).2 = S n.
Proof. reflexivity. Qed.

Lemma llm_action_items_run p t n : (_extract_llm_action_items p t n).2 = S n.
Proof. reflexivity. Qed.

Lemma llm_next_steps_run p t n : (_extract_llm_next_steps p t n).2 = S n.
Proof. reflexivity. Qed.

Lemma llm_decisions_length p t n :
  length (_extract_llm_decisions p t n).1 ≤ 5.
Proof.
  unfold _extract_llm_decisions, bind, call, ret. cbn [fst].
  destruct (p n _ _); [rewrite length_take; lia | simpl; lia].
Qed.

Lemma llm_action_items_length p t n :
  length (_extract_llm_action_items p t n).1 ≤ 5.
Proof.
  unfold _extract_llm_action_items, bind, call, ret. cbn [fst].
  destruct (p n _ _); [|simpl; lia].
  etrans; [apply length_omap_le|]. rewrite length_take. lia.
Qed.

Lemma llm_next_steps_length p t n :
  length (_extract_llm_next_steps p t n).1 ≤ 5.
Proof.
  unfold _extract_llm_next_steps, bind, call, ret. cbn [fst].
  destruct (p n _ _); [rewrite length_take; lia | simpl; lia].
Qed.

(** ** [generate_minutes] *)

Lemma generate_minutes_demo self md ml n :
  in_demo_mode self →
  generate_minutes self md ml n = (_generate_demo_minutes md ml, n).
Proof.
  unfold generate_minutes, in_demo_mode.
  intros [Hm | Hp].
  - rewrite Hm. by destruct (pipeline self).
  - rewrite Hp. by destruct (model self).
Qed.

Lemma generate_minutes_ready self p md ml n :
  model self ≠ DemoMode → pipeline self = Some p →
  generate_minutes self md ml n =
  let t := transcript_text md in
  ({| meeting_info :=
        {| title := default (lit "Meeting") (md_title md);
           date := default [] (md_date md);
           participants := default [] (md_participants md);
           duration := _estimate_duration t |};
      summary := (_generate_llm_summary p t ml n).1;
      key_decisions := (_extract_llm_decisions p t (S n)).1;
      action_items := (_extract_llm_action_items p t (S (S n))).1;
      next_steps := (_extract_llm_next_steps p t (S (S (S n)))).1;
      full_transcript := t |},
   S (S (S (S n)))).
Proof.
  intros Hm Hp. unfold generate_minutes. rewrite Hp.
  destruct (model self); [reflexivity | done | reflexivity].
Qed.

Lemma demo_or_ready self :
  in_demo_mode self
  ∨ ∃ p, model self ≠ DemoMode ∧ pipeline self = Some p.
Proof.
  unfold in_demo_mode.
  destruct (model self) eqn:Hm; destruct (pipeline self) eqn:Hp; eauto.
Qed.

(** The record that [generate_minutes] returns in the model stands for the
    dictionary that the code returns. *)
Lemma generate_minutes_dict_record (self : Summarizer) (md : MeetingData)
    (ml : Z) (n : nat) :
  generate_minutes_dict self md ml n
  = (to_json (generate_minutes self md ml n).1,
     (generate_minutes self md ml n).2).
Proof.
  unfold generate_minutes_dict, generate_minutes.
  destruct (model self), (pipeline self) as [p|]; try reflexivity;
    unfold bind, ret;
    destruct (_generate_llm_summary p _ ml n) as [s n1];
    destruct (_extract_llm_decisions p _ n1) as [d n2];
    destruct (_extract_llm_action_items p _ n2) as [a n3];
    destruct (_extract_llm_next_steps p _ n3) as [x n4];
    reflexivity.
Qed.

(** C3: in either mode the dictionary that [generate_minutes] returns has
    the six keys and no other; under each of the keys of the three lists it
    holds a list of at most five entries; and under [full_transcript] it
    holds the text of the transcript of the input, as it is. *)
Theorem minutes_record_complete (self : Summarizer)
    (meeting_title meeting_date : option str)
    (names : option (list str)) (transcript : str) (ml : Z) (n : nat) :
  let meeting_data :=
    {| md_title := meeting_title; md_date := meeting_date;
       md_participants := names;
       md_transcript := Some {| text := Some transcript |} |} in
  let minutes := (generate_minutes_dict self meeting_data ml n).1 in
  dict_keys minutes = minutes_fields
  ∧ Forall (fun k => ∃ xs, dict_get k minutes = Some (JList xs)
                           ∧ length xs ≤ 5)
           [lit "key_decisions"; lit "action_items"; lit "next_steps"]
  ∧ dict_get (lit "full_transcript") minutes = Some (JStr transcript)
  ∧ (∃ info, dict_get (lit "meeting_info") minutes = Some (JDict info))
  ∧ (∃ s, dict_get (lit "summary") minutes = Some (JStr s))
  ∧ minutes = to_json (generate_minutes self meeting_data ml n).1.
Proof.
  cbv zeta.
  set (md := {| md_title := meeting_title; md_date := meeting_date;
                md_participants := names;
                md_transcript := Some {| text := Some transcript |} |}).
  assert (∀ A (xs : list A) (f : A → value) (k : nat),
            length xs ≤ k → length (f <$> xs) ≤ k) as Hlen
    by (intros; by rewrite length_fmap).
  destruct (demo_or_ready self) as [Hd | (p & Hm & Hp)].
  - assert (generate_minutes_dict self md ml n
            = (_generate_demo_minutes_dict md ml, n)) as ->.
    { unfold generate_minutes_dict. destruct Hd as [-> | ->]; [done|].
      by destruct (model self). }
    rewrite generate_minutes_demo by done. cbn [fst].
    split; [reflexivity|]. split.
    { repeat apply Forall_cons_2; [| | |apply Forall_nil_2];
        (eexists; split; [reflexivity | vm_compute; lia]). }
    split; [reflexivity|]. split; [by eexists|]. split; [by eexists|].
    reflexivity.
  - rewrite generate_minutes_dict_record.
    rewrite (generate_minutes_ready self p) by done. cbn [fst].
    split; [reflexivity|]. split.
    { repeat apply Forall_cons_2; [| | |apply Forall_nil_2];
        (eexists; split; [reflexivity|]); apply Hlen.
      - apply llm_decisions_length.
      - apply llm_action_items_length.
      - apply llm_next_steps_length. }
    split; [reflexivity|]. split; [by eexists|]. split; [by eexists|].
    reflexivity.
Qed.

(** C4: in demo mode the summary, the decisions, the action items and the
    next steps that [generate_minutes] returns are the same whatever the
    state of the backend, so two calls on the same input agree. *)
Theorem demo_minutes_deterministic self md ml n1 n2 :
  in_demo_mode self →
  let m1 := (generate_minutes self md ml n1).1 in
  let m2 := (generate_minutes self md ml n2).1 in
  summary m1 = summary m2
  ∧ key_decisions m1 = key_decisions m2
  ∧ action_items m1 = action_items m2
  ∧ next_steps m1 = next_steps m2.
Proof.
  intros Hd. cbv zeta. by rewrite !generate_minutes_demo.
Qed.

Lemma demo_minutes_deterministic_witness :
  let self := {| model := DemoMode; pipeline := None |} in
  let md := {| md_title := Some (lit "Sprint Review"); md_date := None;
               md_participants := Some [lit "Ann"; lit "Ben"];
               md_transcript := Some {| text := Some (lit "we met") |} |} in
  in_demo_mode self
  ∧ summary (generate_minutes self md 500 0).1
    = summary (generate_minutes self md 500 7).1.
Proof.
  cbv zeta. split; [by left|].
  refine (proj1 (demo_minutes_deterministic _ _ 500%Z 0 7 _)). by left.
Defined.

(** Two calls in a row, the second starting where the first stopped. *)
Lemma demo_minutes_twice self md ml n :
  in_demo_mode self →
  (m1 <- generate_minutes self md ml ;;
   m2 <- generate_minutes self md ml ;;
   ret (m1, m2)) n
  = ((_generate_demo_minutes md ml, _generate_demo_minutes md ml), n).
Proof.
  intros Hd. unfold bind, ret. by rewrite !generate_minutes_demo.
Qed.

(** With a backend the answer may change from one call to the next. *)
Example ready_minutes_may_differ :
  let p : Pipeline := fun n _ _ => Some (str_of_nat n) in
  let self := {| model := Loaded; pipeline := Some p |} in
  let md := {| md_title := None; md_date := None; md_participants := None;
               md_transcript := None |} in
  summary (generate_minutes self md 500 0).1
  ≠ summary (generate_minutes self md 500 4).1.
Proof. vm_compute. discriminate. Qed.

(** The demo texts. *)
Example demo_minutes_sizes md ml :
  let m := _generate_demo_minutes md ml in
  length (key_decisions m) = 2 ∧ length (action_items m) = 2
  ∧ length (next_steps m) = 3.
Proof. done. Qed.

End SummarizerProps.

(* ===================================================================== *)
(** * Properties of src/audio_processor.py *)
(* ===================================================================== *)

Module AudioProps.
Import AudioProcessor Spec.

Lemma split_sep_char_absent (c : N) (s cur : str) :
  c ∉ s → split_sep_go [c] s 0 cur = [cur ++ s].
Proof.
  revert cur. induction s as [|a s IH]; intros cur Hc.
  - by rewrite app_nil_r.
  - apply not_elem_of_cons in Hc as [Hca Hcs]. simpl.
    destruct (N.eqb_spec c a) as [->|_]; [done|]. simpl.
    rewrite IH by done. by rewrite <- app_assoc.
Qed.

Lemma rfind_char_absent (c : N) (s : str) : c ∉ s → rfind_char c s = None.
Proof.
  induction s as [|a s IH]; [done|].
  intros [Hca Hcs]%not_elem_of_cons. simpl. rewrite IH by done.
  by destruct (N.eqb_spec a c) as [->|_].
Qed.

Lemma rfind_char_last (c : N) (stem ext : str) :
  c ∉ ext → rfind_char c (stem ++ c :: ext) = Some (length stem).
Proof.
  intros Hc. induction stem as [|a stem IH]; simpl.
  - rewrite rfind_char_absent by done. by rewrite N.eqb_refl.
  - by rewrite IH.
Qed.

Lemma rfind_char_None (c : N) (s : str) : rfind_char c s = None → c ∉ s.
Proof.
  induction s as [|a s IH]; [intros _; apply not_elem_of_nil|].
  simpl. destruct (rfind_char c s); [done|].
  destruct (N.eqb_spec a c) as [->|Hac]; [done|].
  intros _. apply not_elem_of_cons. split; [done | by apply IH].
Qed.

(** [rfind] returns the index of the last occurrence. *)
Lemma rfind_char_Some (c : N) (s : str) (i : nat) :
  rfind_char c s = Some i →
  ∃ stem ext, s = stem ++ c :: ext ∧ (c ∉ ext) ∧ i = length stem.
Proof.
  revert i. induction s as [|a s IH]; intros i; [done|].
  simpl. destruct (rfind_char c s) as [j|] eqn:Hj.
  - intros [= <-]. destruct (IH j eq_refl) as (stem & ext & -> & Hext & ->).
    by exists (a :: stem), ext.
  - destruct (N.eqb_spec a c) as [->|Hac]; [|done].
    intros [= <-]. exists [], s. split; [done|].
    split; [by apply rfind_char_None | done].
Qed.

(** The name of a POSIX path with a single component. *)
Lemma path_name_simple (name : str) :
  name ≠ [] → name ≠ lit "." → 47%N ∉ name → posix_path_name name = name.
Proof.
  intros Hne Hdot Hsl. unfold posix_path_name, split_sep.
  change (lit "/") with [47%N]. rewrite split_sep_char_absent by done.
  rewrite app_nil_l, filter_cons_True by done. done.
Qed.

Lemma split_sep_char_app (c : N) (x y cur : str) :
  ∃ init,
    split_sep_go [c] (x ++ c :: y) 0 cur = init ++ split_sep_go [c] y 0 [].
Proof.
  revert cur. induction x as [|a x IH]; intros cur.
  - exists [cur]. simpl. by rewrite N.eqb_refl.
  - simpl. destruct (N.eqb_spec c a) as [->|Hca]; simpl.
    + destruct (IH []) as [init Hinit]. exists (cur :: init).
      by rewrite Hinit.
    + apply IH.
Qed.

(** The name of a POSIX path is its text after the last slash, when that
    text is a component that counts. *)
Lemma posix_path_name_last (dir name : str) :
  dir = [] ∨ (∃ d, dir = d ++ [47%N]) →
  name ≠ [] → name ≠ lit "." → 47%N ∉ name →
  posix_path_name (dir ++ name) = name.
Proof.
  intros [->|[d ->]] Hne Hdot Hsl; [by apply path_name_simple|].
  unfold posix_path_name, split_sep. change (lit "/") with [47%N].
  rewrite <- app_assoc. cbn [app].
  destruct (split_sep_char_app 47%N d name []) as [init Hinit].
  unfold str, char in *. rewrite Hinit.
  rewrite split_sep_char_absent by done. rewrite app_nil_l.
  rewrite filter_app, filter_cons_True by done. rewrite filter_nil.
  unfold last_piece. by rewrite last_snoc.
Qed.

Section Flavour.
Variable path_name : str → str.

(** The suffix of a path is the text of its name from the last dot on, when
    that dot is neither the first nor the last character of the name. *)
Lemma suffix_name (file_path stem ext : str) :
  path_name file_path = stem ++ 46%N :: ext →
  stem ≠ [] → ext ≠ [] → 46%N ∉ ext →
  suffix path_name file_path = 46%N :: ext.
Proof.
  intros Hname Hs He Hdot. unfold suffix. rewrite Hname.
  rewrite rfind_char_last by done.
  rewrite length_app, length_cons.
  assert (0 < length stem) by (destruct stem; [done | simpl; lia]).
  assert (0 < length ext) by (destruct ext; [done | simpl; lia]).
  rewrite decide_True by lia. by rewrite drop_app_length.
Qed.

(** Any other name has no suffix. *)
Lemma suffix_cases (file_path : str) :
  suffix path_name file_path = []
  ∨ ∃ stem ext,
      path_name file_path = stem ++ 46%N :: ext
      ∧ stem ≠ [] ∧ ext ≠ [] ∧ (46%N ∉ ext)
      ∧ suffix path_name file_path = 46%N :: ext.
Proof.
  unfold suffix.
  destruct (rfind_char 46%N (path_name file_path)) as [i|] eqn:Hi; [|by left].
  apply rfind_char_Some in Hi as (stem & ext & Hname & Hext & ->).
  rewrite Hname, length_app, length_cons.
  case_decide as Hrange; [right|by left].
  exists stem, ext. rewrite drop_app_length.
  repeat split; try done.
  - intros ->. simpl in Hrange. lia.
  - intros ->. simpl in Hrange. lia.
Qed.

End Flavour.

Lemma lower_cons_dot (s : str) : lower (46%N :: s) = 46%N :: lower s.
Proof. reflexivity. Qed.

(** C9: on either platform, [validate_file] answers true exactly when the
    name of the path is a stem, a dot and an extension, where the extension
    is not empty and has no dot and the stem is not empty, and the
    lowercased text from that dot on is one of .mp3, .wav, .mp4, .avi,
    .mov, .mkv; it answers false otherwise.  The name of a POSIX path is
    its text after the last slash. *)
Theorem validate_file_spec (path_name : str → str) (file_path : str) :
  (validate_file path_name file_path = true ↔
   ∃ stem ext,
     path_name file_path = stem ++ 46%N :: ext
     ∧ stem ≠ [] ∧ ext ≠ [] ∧ (46%N ∉ ext)
     ∧ lower (46%N :: ext)
       ∈ [ lit ".mp3"; lit ".wav"; lit ".mp4"; lit ".avi"; lit ".mov";
           lit ".mkv" ])
  ∧ (validate_file path_name file_path = false ↔
     ¬ ∃ stem ext,
         path_name file_path = stem ++ 46%N :: ext
         ∧ stem ≠ [] ∧ ext ≠ [] ∧ (46%N ∉ ext)
         ∧ lower (46%N :: ext)
           ∈ [ lit ".mp3"; lit ".wav"; lit ".mp4"; lit ".avi"; lit ".mov";
               lit ".mkv" ])
  ∧ (∀ dir name,
       dir = [] ∨ (∃ d, dir = d ++ [47%N]) →
       name ≠ [] → name ≠ lit "." → 47%N ∉ name →
       posix_path_name (dir ++ name) = name).
Proof.
  assert (validate_file path_name file_path = true ↔
          ∃ stem ext,
            path_name file_path = stem ++ 46%N :: ext
            ∧ stem ≠ [] ∧ ext ≠ [] ∧ (46%N ∉ ext)
            ∧ lower (46%N :: ext)
              ∈ [ lit ".mp3"; lit ".wav"; lit ".mp4"; lit ".avi";
                  lit ".mov"; lit ".mkv" ]) as Htrue.
  { unfold validate_file, supported_formats. rewrite bool_decide_eq_true.
    split.
    - intros Hin.
      destruct (suffix_cases path_name file_path)
        as [Hnone | (stem & ext & Hname & Hs & He & Hdot & Hsuffix)].
      + rewrite Hnone in Hin. exfalso. revert Hin.
        apply (bool_decide_unpack _). vm_compute. exact I.
      + rewrite Hsuffix in Hin. by exists stem, ext.
    - intros (stem & ext & Hname & Hs & He & Hdot & Hin).
      by rewrite (suffix_name path_name file_path stem ext). }
  split; [exact Htrue|]. split.
  - rewrite <- Htrue. by destruct (validate_file path_name file_path).
  - apply posix_path_name_last.
Qed.

(** On a plain file name [stem.ext] the answer depends on the extension
    alone. *)
Lemma validate_file_simple (stem ext : str) :
  stem ≠ [] → ext ≠ [] → 47%N ∉ stem ++ ext → 46%N ∉ ext →
  validate_file posix_path_name (stem ++ 46%N :: ext) = true ↔
  lower ext
  ∈ [ lit "mp3"; lit "wav"; lit "mp4"; lit "avi"; lit "mov"; lit "mkv" ].
Proof.
  intros Hs He Hsl Hdot.
  unfold validate_file, supported_formats.
  apply not_elem_of_app in Hsl as [Hsl1 Hsl2].
  rewrite bool_decide_eq_true.
  rewrite (suffix_name posix_path_name _ stem ext); try done.
  - rewrite lower_cons_dot.
    change [lit ".mp3"; lit ".wav"; lit ".mp4"; lit ".avi"; lit ".mov";
            lit ".mkv"]
      with ((cons 46%N) <$> [lit "mp3"; lit "wav"; lit "mp4"; lit "avi";
                              lit "mov"; lit "mkv"]).
    rewrite list_elem_of_fmap. split.
    + by intros (y & [= <-] & Hy).
    + eauto.
  - apply path_name_simple.
    + by destruct stem.
    + destruct stem as [|a [|b stem]]; [done | | done].
      destruct ext; [done|]. done.
    + rewrite elem_of_app, elem_of_cons. intros [?|[?|?]]; done.
Qed.

Example validate_file_supported :
  Forall (fun fmt => validate_file posix_path_name (lit "test" ++ fmt) = true)
         supported_formats.
Proof. repeat constructor. Qed.

Example validate_file_cases :
  validate_file posix_path_name
    <$> [ lit "talk.MP3"; lit "/tmp/a.b/Talk.Mkv"; lit "talk.txt";
          lit "talk"; lit ".mp3"; lit "talk.mp3/"; lit "mp3";
          lit "talk.mp3."; lit "a.mp3/b"; lit "ΔΟΚΙΜΗ.MP4" ]
  = [ true; true; false; false; false; true; false; false; false; true ].
Proof. vm_compute. reflexivity. Qed.

End AudioProps.

(* ===================================================================== *)
(** * Properties of src/output_generator.py: the dispatch *)
(* ===================================================================== *)

Module OutputProps.
Import MeetingSummarizer Json OutputGenerator Spec.

#[local] Arguments lit : simpl never.
#[local] Arguments _generate_json : simpl never.
#[local] Arguments _generate_html : simpl never.
#[local] Arguments _generate_pdf : simpl never.

Lemma recognised_cases (f : str) :
  f ∈ recognised_formats ↔ f = lit "JSON" ∨ f = lit "HTML" ∨ f = lit "PDF".
Proof.
  unfold recognised_formats. rewrite !elem_of_cons, elem_of_nil. tauto.
Qed.

(** An identifier that is none of the three leaves the outputs as they
    are, and raises nothing. *)
Lemma generate_outputs_from_skip (t : str) (m : Minutes) (f : str) (rest : list str)
    (outs : gmap str bytes) :
  f ∉ recognised_formats →
  generate_outputs_from t m (f :: rest) outs
  = generate_outputs_from t m rest outs.
Proof.
  rewrite recognised_cases. intros Hf. cbn [generate_outputs_from].
  repeat (case_decide; [tauto|]). done.
Qed.

Lemma generate_outputs_from_filter (t : str) (m : Minutes)
    (fmts : list str)
    (outs : gmap str bytes) :
  generate_outputs_from t m fmts outs
  = generate_outputs_from t m
      (filter (fun f => f ∈ recognised_formats) fmts) outs.
Proof.
  revert outs. induction fmts as [|f fmts IH]; intros outs; [done|].
  destruct (decide (f ∈ recognised_formats)) as [Hf|Hf].
  - rewrite filter_cons_True by done. cbn [generate_outputs_from].
    repeat case_decide; try apply IH;
      match goal with
      | |- context [?g ≫= _] => destruct g; [apply IH | done]
      end.
  - rewrite filter_cons_False by done.
    by rewrite generate_outputs_from_skip.
Qed.

Lemma generate_outputs_from_dom (t : str) (m : Minutes)
    (fmts : list str)
    (outs out : gmap str bytes) :
  generate_outputs_from t m fmts outs = Some out →
  ∀ k, k ∈ dom out ↔ k ∈ dom outs ∨ (k ∈ fmts ∧ k ∈ recognised_formats).
Proof.
  revert outs. induction fmts as [|f fmts IH]; intros outs Hrun k.
  - injection Hrun as <-. rewrite elem_of_nil. tauto.
  - cbn [generate_outputs_from] in Hrun. rewrite elem_of_cons.
    pose proof (recognised_cases f) as Hf.
    pose proof (recognised_cases k) as Hk.
    repeat case_decide.
    + destruct (_generate_json m) as [b|]; [|done]. cbn [mbind option_bind] in Hrun.
      rewrite (IH _ Hrun k), dom_insert, elem_of_union, elem_of_singleton.
      subst f. intuition congruence.
    + destruct (_generate_html t m) as [b|]; [|done]. cbn [mbind option_bind] in Hrun.
      rewrite (IH _ Hrun k), dom_insert, elem_of_union, elem_of_singleton.
      subst f. intuition congruence.
    + destruct (_generate_pdf m) as [b|]; [|done]. cbn [mbind option_bind] in Hrun.
      rewrite (IH _ Hrun k), dom_insert, elem_of_union, elem_of_singleton.
      subst f. intuition congruence.
    + rewrite (IH _ Hrun k). intuition congruence.
Qed.

(** C6: the mapping that [generate_outputs] returns has an entry for an
    identifier exactly when the identifier was requested and is one of
    JSON, HTML, PDF; other identifiers are skipped without an error, and the
    request [UNKNOWN] alone gives the empty mapping. *)
Theorem generate_outputs_dispatch (t : str) (m : Minutes)
    (formats : list str) :
  (∀ out, generate_outputs t m formats = Some out →
     ∀ k, k ∈ dom out ↔ k ∈ formats ∧ k ∈ recognised_formats)
  ∧ generate_outputs t m formats
    = generate_outputs t m
        (filter (fun f => f ∈ recognised_formats) formats)
  ∧ generate_outputs t m [lit "UNKNOWN"] = Some ∅.
Proof.
  unfold generate_outputs. split; [|split].
  - intros out Hrun k.
    rewrite (generate_outputs_from_dom _ _ _ _ _ Hrun k), dom_empty.
    rewrite elem_of_empty. tauto.
  - apply generate_outputs_from_filter.
  - rewrite generate_outputs_from_skip; [done|].
    rewrite recognised_cases. intros [H|[H|H]]; vm_compute in H; discriminate.
Qed.

(** When no requested identifier is recognised the mapping is empty. *)
Lemma generate_outputs_unrecognised (t : str) (m : Minutes)
    (formats : list str) :
  Forall (fun f => f ∉ recognised_formats) formats →
  generate_outputs t m formats = Some ∅.
Proof.
  unfold generate_outputs. induction 1 as [|f fmts Hf _ IH]; [done|].
  by rewrite generate_outputs_from_skip.
Qed.

End OutputProps.

(* ===================================================================== *)
(** * UTF-8: decoding undoes encoding *)
(* ===================================================================== *)

Module Utf8Props.

Import Tactics.

Lemma to_N_byte_of (n : N) : (n < 256)%N → Byte.to_N (byte_of n) = n.
Proof.
  intros Hn. unfold byte_of. destruct (Byte.of_N n) as [b|] eqn:Hb.
  - by apply Byte.to_of_N.
  - apply Byte.of_N_None_iff in Hb. lia.
Qed.

Lemma decode_encode_char (c : char) (bs : bytes) (rest : list N) :
  encode_char c = Some bs →
  decode_utf8_N (map Byte.to_N bs ++ rest) = cons c <$> decode_utf8_N rest.
Proof.
  unfold encode_char.
  destruct (N.ltb_spec c 0x80) as [H1|H1];
    [|destruct (N.ltb_spec c 0x800) as [H2|H2];
      [|destruct (N.ltb_spec c 0x10000) as [H3|H3];
        [|destruct (N.ltb_spec c 0x110000) as [H4|H4]]]].
  - intros [= <-]. cbn [map app]. rewrite to_N_byte_of by lia.
    cbn [decode_utf8_N]. by settle_tests.
  - intros [= <-]. cbn [map app]. rewrite !to_N_byte_of by div_lia.
    cbn [decode_utf8_N]. unfold is_cont. settle_tests. cbn [andb].
    do 2 f_equal. div_lia.
  - destruct (N.leb_spec 0xD800 c) as [H5|H5];
      [destruct (N.ltb_spec c 0xE000) as [H6|H6]|]; cbn [andb];
      (discriminate || intros [= <-]);
      cbn [map app]; rewrite !to_N_byte_of by div_lia;
      cbn [decode_utf8_N]; unfold is_cont; settle_tests; cbn [andb negb];
      do 2 f_equal; div_lia.
  - intros [= <-]. cbn [map app]. rewrite !to_N_byte_of by div_lia.
    cbn [decode_utf8_N]. unfold is_cont. settle_tests. cbn [andb].
    do 2 f_equal. div_lia.
  - discriminate.
Qed.

Lemma decode_encode_chars (s : str) (bss : list bytes) :
  mapM encode_char s = Some bss →
  decode_utf8_N (map Byte.to_N (concat bss)) = Some s.
Proof.
  revert bss. induction s as [|c s IH]; intros bss.
  - by intros [= <-].
  - cbn [mapM]. destruct (encode_char c) as [bs|] eqn:Hc; [|done].
    cbn [mbind option_bind].
    destruct (mapM encode_char s) as [bss'|] eqn:Hs; [|done].
    intros [= <-]. cbn [concat]. rewrite map_app.
    rewrite (decode_encode_char _ _ _ Hc), (IH _ eq_refl). done.
Qed.

(** [encode('utf-8')] followed by [decode('utf-8')] gives the text back. *)
Lemma decode_encode_utf8 (s : str) (b : bytes) :
  encode_utf8 s = Some b → decode_utf8 b = Some s.
Proof.
  unfold encode_utf8, decode_utf8.
  match goal with
  | |- context [fmap _ ?x] => destruct x as [bss|] eqn:Hs; simpl; [|done]
  end.
  intros [= <-]. by apply decode_encode_chars.
Qed.

(** Every scalar value has a UTF-8 form, and nothing else has. *)
Lemma encode_char_scalar (c : char) :
  is_Some (encode_char c) ↔ Spec.is_scalar c.
Proof.
  unfold encode_char, Spec.is_scalar.
  destruct (N.ltb_spec c 0x80); [split; [lia | eauto]|].
  destruct (N.ltb_spec c 0x800); [split; [lia | eauto]|].
  destruct (N.ltb_spec c 0x10000).
  - destruct (N.leb_spec 0xD800 c); destruct (N.ltb_spec c 0xE000);
      cbn [andb]; (split; [intros [? ?]; (done || lia) | (eauto || lia)]).
  - destruct (N.ltb_spec c 0x110000); (split; [intros [? ?]; (done || lia)|]);
      (eauto || lia).
Qed.

(** [encode('utf-8')] raises on no text of scalar values. *)
Lemma encode_utf8_total (s : str) :
  Spec.encodable s → is_Some (encode_utf8 s).
Proof.
  intros Hs. unfold encode_utf8. apply fmap_is_Some, mapM_is_Some_2.
  eapply Forall_impl; [exact Hs|]. intros c Hc. by apply encode_char_scalar.
Qed.

End Utf8Props.

(* ===================================================================== *)
(** * JSON: [loads] undoes [dumps] *)
(* ===================================================================== *)

Module JsonProps.
Import Json Spec.

#[local] Arguments lit : simpl never.
Local Open Scope N_scope.

(** Induction on values, with the hypothesis available on every member of
    a list and on every value of a dictionary. *)
Lemma value_induction (P : value → Prop) :
  (∀ s, P (JStr s)) →
  (∀ xs, Forall P xs → P (JList xs)) →
  (∀ kvs, Forall (fun kv => P (snd kv)) kvs → P (JDict kvs)) →
  ∀ v, P v.
Proof.
  intros Hs Hl Hd.
  refine (fix go v : P v :=
    match v with
    | JStr s => Hs s
    | JList xs =>
      Hl xs ((fix members l : Forall P l :=
                match l with
                | [] => @List.Forall_nil _ _
                | x :: l' =>
                  @List.Forall_cons _ _ x l' (go x) (members l')
                end) xs)
    | JDict kvs =>
      Hd kvs ((fix members l : Forall (fun kv => P (snd kv)) l :=
                 match l with
                 | [] => @List.Forall_nil _ _
                 | kv :: l' =>
                   @List.Forall_cons _ _ kv l' (go (snd kv)) (members l')
                 end) kvs)
    end).
Qed.

(** ** White space *)

Lemma starts_value_not_ws (s : str) :
  starts_value s → skip_ws s = s.
Proof. intros (c & r & -> & [-> | [-> | ->]]); reflexivity. Qed.

Lemma skip_ws_spaces (n : nat) (s : str) :
  skip_ws (replicate n 0x20%N ++ s) = skip_ws s.
Proof. induction n as [|n IH]; [done|]. exact IH. Qed.

Lemma skip_ws_newline_indent (level : nat) (s : str) :
  skip_ws (newline_indent level ++ s) = skip_ws s.
Proof. unfold newline_indent. apply skip_ws_spaces. Qed.

(** ** Strings *)

Lemma hex4_control (c : N) :
  (c < 0x20)%N →
  hex4 0x30 0x30 (hex_digit (c / 16)) (hex_digit (c mod 16)) = Some c.
Proof.
  intros Hc. assert (∃ k, (k < 32)%nat ∧ c = N.of_nat k) as (k & Hk & ->).
  { exists (N.to_nat c). split; lia. }
  do 32 (destruct k as [|k]; [reflexivity|]). lia.
Qed.

(** A [\uXXXX] escape below the surrogates is one code point. *)
Lemma scanstring_unicode_escape (h1 h2 h3 h4 uni : N) (s acc : str) :
  hex4 h1 h2 h3 h4 = Some uni → (uni < 0xD800)%N →
  scanstring (0x5C :: 0x75 :: h1 :: h2 :: h3 :: h4 :: s)%N acc
  = scanstring s (acc ++ [uni]).
Proof.
  intros Hhex Huni.
  assert ((0xD800 <=? uni)%N = false) as Hlow by (apply N.leb_gt; lia).
  destruct s as [|b [|u [|l1 [|l2 [|l3 [|l4 s]]]]]]; simpl; rewrite Hhex;
    try reflexivity.
  destruct (hex4 l1 l2 l3 l4); [|reflexivity]. by rewrite Hlow.
Qed.

(** Reading back an escaped string up to its closing quote. *)
Lemma scanstring_escaped (s rest acc : str) :
  scanstring ((s ≫= escape_char) ++ 0x22%N :: rest) acc
  = Some (acc ++ s, rest).
Proof.
  revert acc. induction s as [|c s IH]; intros acc.
  - simpl. by rewrite app_nil_r.
  - rewrite bind_cons, <- app_assoc.
    replace (acc ++ c :: s) with ((acc ++ [c]) ++ s)
      by (by rewrite <- app_assoc).
    rewrite <- IH. unfold escape_char.
    destruct (N.eqb_spec c 0x22) as [->|H1]; [reflexivity|].
    destruct (N.eqb_spec c 0x5C) as [->|H2]; [reflexivity|].
    destruct (N.eqb_spec c 0x0A) as [->|H3]; [reflexivity|].
    destruct (N.eqb_spec c 0x0D) as [->|H4]; [reflexivity|].
    destruct (N.eqb_spec c 0x09) as [->|H5]; [reflexivity|].
    destruct (N.eqb_spec c 0x08) as [->|H6]; [reflexivity|].
    destruct (N.eqb_spec c 0x0C) as [->|H7]; [reflexivity|].
    destruct (N.ltb_spec c 0x20) as [H8|H8].
    + apply scanstring_unicode_escape; [by apply hex4_control | lia].
    + cbn [app scanstring].
      rewrite (proj2 (N.eqb_neq c 0x22)) by done.
      rewrite (proj2 (N.eqb_neq c 0x5C)) by done.
      by rewrite (proj2 (N.ltb_ge c 0x20)).
Qed.

(** ** The first character of a value *)

Lemma encode_starts_value (level : nat) (v : value) :
  starts_value (encode level v).
Proof.
  destruct v as [s|[|x xs]|[|kv kvs]]; eexists _, _;
    (split; [reflexivity | auto]).
Qed.

Lemma starts_value_app (s t : str) :
  starts_value s → starts_value (s ++ t).
Proof. intros (c & r & -> & Hc). by exists c, (r ++ t). Qed.

Lemma join_items_starts_value (level : nat) (x : str) (items : list str) :
  starts_value x → starts_value (join_items level (x :: items)).
Proof.
  intros Hx. destruct items; [done|]. by apply starts_value_app.
Qed.

Lemma skip_ws_indented_value (level : nat) (s : str) :
  starts_value s → skip_ws (newline_indent level ++ s) = s.
Proof.
  intros Hs. rewrite skip_ws_newline_indent. by apply starts_value_not_ws.
Qed.

Lemma json_size_pos (v : value) : (1 ≤ json_size v)%nat.
Proof. destruct v; simpl; lia. Qed.

(** ** Arrays *)

(** One element of an array, then what follows it. *)
Lemma parse_array_step (fuel level : nat) (x : value) (after : str)
    (acc : list value) :
  reads_back x → (json_size x ≤ fuel)%nat →
  parse_array (S fuel) (encode level x ++ after) acc =
  match skip_ws after with
  | c :: r1 =>
    if c =? 0x5D then Some (JList (acc ++ [x]), r1)
    else if c =? 0x2C then parse_array fuel (skip_ws r1) (acc ++ [x])
    else None
  | [] => None
  end.
Proof.
  intros Hx Hfuel. cbn [parse_array]. by rewrite (Hx level after fuel Hfuel).
Qed.

Lemma parse_array_items (xs : list value) :
  Forall reads_back xs → xs ≠ [] →
  ∀ level acc rest fuel,
    (foldr (fun x n => S (json_size x) + n) 0 xs ≤ fuel)%nat →
    parse_array fuel
      (join_items (S level) (map (encode (S level)) xs)
       ++ newline_indent level ++ 0x5D :: rest) acc
    = Some (JList (acc ++ xs), rest).
Proof.
  induction 1 as [|x xs Hx Hxs IH]; [done|].
  intros _ level acc rest fuel Hfuel. cbn [foldr] in Hfuel.
  destruct fuel as [|fuel]; [lia|].
  destruct xs as [|y ys].
  - cbn [map join_items foldr] in *.
    rewrite parse_array_step by (done || lia).
    rewrite skip_ws_newline_indent. reflexivity.
  - change (join_items (S level) (map (encode (S level)) (x :: y :: ys)))
      with (encode (S level) x ++ [0x2C] ++ newline_indent (S level)
            ++ join_items (S level) (map (encode (S level)) (y :: ys))).
    rewrite <- !app_assoc.
    rewrite parse_array_step by (done || lia).
    change (skip_ws ([0x2C] ++ ?s)) with ([0x2C] ++ s).
    cbn [app N.eqb Pos.eqb].
    rewrite skip_ws_indented_value.
    + rewrite IH by (done || lia). by rewrite <- app_assoc.
    + apply starts_value_app, join_items_starts_value, encode_starts_value.
Qed.

Lemma array_dispatch (fuel : nat) (s : str) :
  starts_value s →
  match s with
  | c2 :: r2 =>
    if c2 =? 0x5D then Some (JList [], r2)
    else parse_array fuel (c2 :: r2) []
  | [] => None
  end = parse_array fuel s [].
Proof. intros (c & r & -> & [-> | [-> | ->]]); reflexivity. Qed.

Lemma parse_value_list (fuel level : nat) (xs : list value) (rest : str) :
  xs ≠ [] →
  parse_value (S fuel) (encode level (JList xs) ++ rest)
  = parse_array fuel
      (join_items (S level) (map (encode (S level)) xs)
       ++ newline_indent level ++ 0x5D :: rest) [].
Proof.
  destruct xs as [|x xs]; [done|]. intros _.
  change (encode level (JList (x :: xs)))
    with ([0x5B] ++ newline_indent (S level)
          ++ join_items (S level) (map (encode (S level)) (x :: xs))
          ++ newline_indent level ++ [0x5D]).
  rewrite <- !app_assoc. cbn [app parse_value N.eqb Pos.eqb].
  assert (starts_value
            (join_items (S level) (map (encode (S level)) (x :: xs))
             ++ newline_indent level ++ 0x5D :: rest)) as Hstart
    by apply starts_value_app, join_items_starts_value, encode_starts_value.
  rewrite skip_ws_indented_value by done.
  by apply array_dispatch.
Qed.

(** ** Objects *)

#[local] Arguments newline_indent : simpl never.

Lemma dict_set_fresh (k : str) (v : value) (d : list (str * value)) :
  k ∉ d.*1 → dict_set k v d = d ++ [(k, v)].
Proof.
  induction d as [|[k' v'] d IH]; [done|].
  intros [Hk Hd]%not_elem_of_cons. simpl.
  rewrite decide_False by done. by rewrite IH.
Qed.

Lemma dict_of_pairs_from (kvs d : list (str * value)) :
  NoDup (d ++ kvs).*1 →
  fold_left (fun d kv => dict_set (fst kv) (snd kv) d) kvs d = d ++ kvs.
Proof.
  revert d. induction kvs as [|[k v] kvs IH]; intros d Hnd.
  - by rewrite app_nil_r.
  - cbn [fold_left fst snd]. rewrite dict_set_fresh.
    + rewrite IH; rewrite <- app_assoc; done.
    + rewrite fmap_app, fmap_cons in Hnd.
      apply NoDup_app in Hnd as (_ & Hnd & _).
      intros Hk. apply (Hnd k Hk). by left.
Qed.

(** A list of pairs with distinct keys is the dictionary it builds. *)
Lemma dict_of_pairs_distinct (kvs : list (str * value)) :
  NoDup kvs.*1 → dict_of_pairs kvs = kvs.
Proof. intros Hnd. by apply (dict_of_pairs_from kvs []). Qed.

(** One key and its value, then what follows them. *)
Lemma parse_object_step (fuel level : nat) (k : str) (v : value)
    (after : str) (acc : list (str * value)) :
  reads_back v → (json_size v ≤ fuel)%nat →
  parse_object (S fuel)
    ((k ≫= escape_char) ++ 0x22 :: 0x3A :: 0x20 :: encode level v ++ after)
    acc =
  match skip_ws after with
  | c3 :: r3 =>
    if c3 =? 0x7D
    then Some (JDict (dict_of_pairs (acc ++ [(k, v)])), r3)
    else if c3 =? 0x2C then
      match skip_ws r3 with
      | c4 :: r4 =>
        if c4 =? 0x22 then parse_object fuel r4 (acc ++ [(k, v)]) else None
      | [] => None
      end
    else None
  | [] => None
  end.
Proof.
  intros Hv Hfuel. cbn [parse_object]. rewrite scanstring_escaped.
  change (skip_ws (0x3A :: 0x20 :: ?s)) with (0x3A :: 0x20 :: s).
  cbn [app N.eqb Pos.eqb].
  change (skip_ws (0x20 :: ?s)) with (skip_ws s).
  rewrite starts_value_not_ws
    by apply starts_value_app, encode_starts_value.
  by rewrite (Hv level after fuel Hfuel).
Qed.

Lemma object_dispatch (fuel : nat) (s text : str)
    (acc : list (str * value)) :
  s = 0x22 :: text →
  match s with
  | c4 :: r4 => if c4 =? 0x22 then parse_object fuel r4 acc else None
  | [] => None
  end = parse_object fuel text acc.
Proof. by intros ->. Qed.

(** The text of a key begins with a quote. *)
Lemma items_quote (level : nat) (kv : str * value)
    (kvs : list (str * value)) (tail : str) :
  ∃ text,
    join_items level
      (map (fun kv => encode_basestring (fst kv) ++ [0x3A; 0x20]
                      ++ encode level (snd kv)) (kv :: kvs)) ++ tail
    = 0x22 :: text.
Proof. destruct kvs; eexists; reflexivity. Qed.

Lemma parse_object_items (kvs : list (str * value)) :
  Forall (fun kv => reads_back (snd kv)) kvs → kvs ≠ [] →
  ∀ level acc rest fuel text,
    (foldr (fun kv n => S (json_size (snd kv)) + n) 0 kvs ≤ fuel)%nat →
    0x22 :: text
    = join_items (S level)
        (map (fun kv => encode_basestring (fst kv) ++ [0x3A; 0x20]
                        ++ encode (S level) (snd kv)) kvs)
      ++ newline_indent level ++ 0x7D :: rest →
    parse_object fuel text acc
    = Some (JDict (dict_of_pairs (acc ++ kvs)), rest).
Proof.
  induction 1 as [|[k v] kvs Hv Hkvs IH]; [done|].
  intros _ level acc rest fuel text Hfuel Htext. cbn [foldr snd] in Hfuel.
  destruct fuel as [|fuel]; [lia|].
  destruct kvs as [|kv' kvs'].
  - cbn [map join_items fst snd] in Htext. unfold encode_basestring in Htext.
    rewrite <- !app_assoc in Htext. cbn [app] in Htext.
    assert (text = (k ≫= escape_char) ++ 0x22 :: 0x3A :: 0x20
                   :: encode (S level) v
                   ++ newline_indent level ++ 0x7D :: rest)
      as -> by (injection Htext as Htext; exact Htext).
    rewrite parse_object_step by (done || (cbn [foldr] in Hfuel; lia)).
    rewrite skip_ws_newline_indent. reflexivity.
  - change (join_items (S level)
              (map (fun kv => encode_basestring (fst kv) ++ [0x3A; 0x20]
                              ++ encode (S level) (snd kv))
                   ((k, v) :: kv' :: kvs')))
      with ((encode_basestring k ++ [0x3A; 0x20] ++ encode (S level) v)
            ++ [0x2C] ++ newline_indent (S level)
            ++ join_items (S level)
                 (map (fun kv => encode_basestring (fst kv) ++ [0x3A; 0x20]
                                 ++ encode (S level) (snd kv))
                      (kv' :: kvs'))) in Htext.
    unfold encode_basestring in Htext at 1.
    rewrite <- !app_assoc in Htext. cbn [app] in Htext.
    assert (text = (k ≫= escape_char) ++ 0x22 :: 0x3A :: 0x20
                   :: encode (S level) v
                   ++ 0x2C :: newline_indent (S level)
                   ++ join_items (S level)
                        (map (fun kv => encode_basestring (fst kv)
                                        ++ [0x3A; 0x20]
                                        ++ encode (S level) (snd kv))
                             (kv' :: kvs'))
                   ++ newline_indent level ++ 0x7D :: rest)
      as -> by (injection Htext as Htext; exact Htext).
    rewrite parse_object_step by (done || lia).
    change (skip_ws (0x2C :: ?s)) with (0x2C :: s).
    cbn [N.eqb Pos.eqb].
    rewrite skip_ws_newline_indent.
    destruct (items_quote (S level) kv' kvs'
                (newline_indent level ++ 0x7D :: rest)) as [text' Htext'].
    rewrite starts_value_not_ws
      by (rewrite Htext'; eexists _, _; split; [reflexivity | auto]).
    rewrite (object_dispatch _ _ text') by done.
    rewrite (IH ltac:(done) level (acc ++ [(k, v)]) rest fuel text')
      by (done || lia).
    by rewrite <- app_assoc.
Qed.

Lemma brace_dispatch (fuel : nat) (s text : str) :
  0x22 :: text = s →
  match skip_ws s with
  | c2 :: r2 =>
    if c2 =? 0x7D then Some (JDict [], r2)
    else if c2 =? 0x22 then parse_object fuel r2 []
    else None
  | [] => None
  end = parse_object fuel text [].
Proof. by intros <-. Qed.

Lemma parse_value_dict (fuel level : nat) (kvs : list (str * value))
    (rest text : str) :
  0x22 :: text
  = join_items (S level)
      (map (fun kv => encode_basestring (fst kv) ++ [0x3A; 0x20]
                      ++ encode (S level) (snd kv)) kvs)
    ++ newline_indent level ++ 0x7D :: rest →
  kvs ≠ [] →
  parse_value (S fuel) (encode level (JDict kvs) ++ rest)
  = parse_object fuel text [].
Proof.
  intros Htext Hne. destruct kvs as [|kv kvs]; [done|].
  change (encode level (JDict (kv :: kvs)))
    with ([0x7B] ++ newline_indent (S level)
          ++ join_items (S level)
               (map (fun kv => encode_basestring (fst kv) ++ [0x3A; 0x20]
                               ++ encode (S level) (snd kv)) (kv :: kvs))
          ++ newline_indent level ++ [0x7D]).
  rewrite <- !app_assoc. cbn [app parse_value N.eqb Pos.eqb].
  rewrite skip_ws_newline_indent. by apply brace_dispatch.
Qed.

(** ** Values *)

Lemma encode_reads_back (v : value) : distinct_keys v → reads_back v.
Proof.
  induction v as [s|xs IH|kvs IH] using value_induction;
    intros Hkeys level rest fuel Hfuel;
    (destruct fuel as [|fuel]; [simpl in Hfuel; lia|]).
  - cbn [encode]. unfold encode_basestring. rewrite <- !app_assoc.
    cbn [app parse_value N.eqb Pos.eqb]. by rewrite scanstring_escaped.
  - inversion Hkeys as [|? Hall|]; subst.
    destruct xs as [|x xs]; [reflexivity|].
    rewrite parse_value_list by done.
    apply parse_array_items; [|done|simpl in Hfuel; simpl; lia].
    apply Forall_forall. intros y Hy.
    rewrite Forall_forall in IH, Hall. by apply IH, Hall.
  - inversion Hkeys as [| |? Hnd Hall]; subst.
    destruct kvs as [|kv kvs]; [reflexivity|].
    destruct (items_quote (S level) kv kvs
                (newline_indent level ++ 0x7D :: rest)) as [text Htext].
    rewrite (parse_value_dict _ _ _ _ text) by done.
    rewrite (parse_object_items (kv :: kvs)) with (level := level)
                                                  (rest := rest);
      [by rewrite app_nil_l, dict_of_pairs_distinct | | done
      | simpl in Hfuel; simpl; lia | done].
    apply Forall_forall. intros y Hy.
    rewrite Forall_forall in IH, Hall. by apply IH, Hall.
Qed.

(** ** The fuel that [loads] supplies *)

Lemma members_size_bound (level : nat) (xs : list value) :
  Forall (fun x => ∀ l, (json_size x ≤ length (encode l x))%nat) xs →
  (foldr (fun x n => S (json_size x) + n) 0 xs
   ≤ length (join_items level (map (encode level) xs)) + 1)%nat.
Proof.
  induction 1 as [|x xs Hx Hxs IH]; [simpl; lia|].
  destruct xs as [|y ys].
  - cbn [foldr map join_items]. specialize (Hx level). lia.
  - change (join_items level (map (encode level) (x :: y :: ys)))
      with (encode level x ++ [0x2C%N] ++ newline_indent level
            ++ join_items level (map (encode level) (y :: ys))).
    rewrite !length_app. cbn [foldr] in *. specialize (Hx level).
    change (length [0x2C%N]) with 1%nat. unfold str, char in *. lia.
Qed.

Lemma entries_size_bound (level : nat) (kvs : list (str * value)) :
  Forall (fun kv => ∀ l, (json_size (snd kv) ≤ length (encode l (snd kv)))%nat)
         kvs →
  (foldr (fun kv n => S (json_size (snd kv)) + n) 0 kvs
   ≤ length (join_items level
               (map (fun kv => encode_basestring (fst kv) ++ [0x3A%N; 0x20%N]
                               ++ encode level (snd kv)) kvs)) + 1)%nat.
Proof.
  induction 1 as [|kv kvs Hx Hxs IH]; [simpl; lia|].
  destruct kvs as [|kv' kvs'].
  - cbn [foldr map join_items]. rewrite !length_app.
    specialize (Hx level). unfold str, char in *. lia.
  - change (join_items level
              (map (fun kv => encode_basestring (fst kv) ++ [0x3A%N; 0x20%N]
                              ++ encode level (snd kv))
                   (kv :: kv' :: kvs')))
      with ((encode_basestring (fst kv) ++ [0x3A%N; 0x20%N]
             ++ encode level (snd kv))
            ++ [0x2C%N] ++ newline_indent level
            ++ join_items level
                 (map (fun kv => encode_basestring (fst kv) ++ [0x3A%N; 0x20%N]
                                 ++ encode level (snd kv))
                      (kv' :: kvs'))).
    rewrite !length_app. cbn [foldr] in *. specialize (Hx level).
    change (length [0x2C%N]) with 1%nat. unfold str, char in *. lia.
Qed.

Lemma json_size_le_length (v : value) (level : nat) :
  (json_size v ≤ length (encode level v))%nat.
Proof.
  revert level.
  induction v as [s|xs IH|kvs IH] using value_induction; intros level.
  - cbn [encode json_size]. unfold encode_basestring.
    rewrite length_app. simpl. lia.
  - destruct xs as [|x xs]; [simpl; lia|].
    change (encode level (JList (x :: xs)))
      with ([0x5B] ++ newline_indent (S level)
            ++ join_items (S level) (map (encode (S level)) (x :: xs))
            ++ newline_indent level ++ [0x5D]).
    pose proof (members_size_bound (S level) (x :: xs) IH) as Hb.
    rewrite !length_app. cbn [json_size length].
    unfold str, char in *. lia.
  - destruct kvs as [|kv kvs]; [simpl; lia|].
    change (encode level (JDict (kv :: kvs)))
      with ([0x7B] ++ newline_indent (S level)
            ++ join_items (S level)
                 (map (fun kv => encode_basestring (fst kv) ++ [0x3A; 0x20]
                                 ++ encode (S level) (snd kv)) (kv :: kvs))
            ++ newline_indent level ++ [0x7D]).
    pose proof (entries_size_bound (S level) (kv :: kvs) IH) as Hb.
    rewrite !length_app. cbn [json_size length].
    unfold str, char in *. lia.
Qed.

(** ** The round trip *)

(** [json.loads(json.dumps(v, indent=2, ensure_ascii=False))] is [v]. *)
Lemma loads_dumps (v : value) : distinct_keys v → loads (dumps v) = Some v.
Proof.
  intros Hkeys. unfold loads, dumps.
  rewrite starts_value_not_ws by apply encode_starts_value.
  pose proof (encode_reads_back v Hkeys 0%nat [] (S (length (encode 0 v))))
    as Hread.
  rewrite app_nil_r in Hread. rewrite Hread.
  - reflexivity.
  - pose proof (json_size_le_length v 0). lia.
Qed.

(** ** The text of an encodable value is encodable *)

Lemma ascii_scalar (c : N) : c < 0x80 → is_scalar c.
Proof. unfold is_scalar. lia. Qed.

Lemma hex_digit_ascii (n : N) : n < 16 → hex_digit n < 0x80.
Proof. unfold hex_digit. destruct (N.ltb_spec n 10); lia. Qed.

Lemma escape_char_encodable (c : char) :
  is_scalar c → encodable (escape_char c).
Proof.
  intros Hc. unfold escape_char, encodable.
  destruct (c =? 0x22); [|destruct (c =? 0x5C); [|destruct (c =? 0x0A);
    [|destruct (c =? 0x0D); [|destruct (c =? 0x09); [|destruct (c =? 0x08);
    [|destruct (c =? 0x0C); [|destruct (N.ltb_spec c 0x20)]]]]]]];
    repeat first [apply Forall_nil_2 | apply Forall_cons_2];
    try exact Hc; apply ascii_scalar; try lia;
    apply hex_digit_ascii; Tactics.div_lia.
Qed.

Lemma encode_basestring_encodable (s : str) :
  encodable s → encodable (encode_basestring s).
Proof.
  intros Hs. unfold encode_basestring, encodable.
  rewrite !Forall_app. split; [|split].
  - repeat first [apply Forall_nil_2 | apply Forall_cons_2]; by apply ascii_scalar.
  - apply Forall_bind. eapply Forall_impl; [exact Hs|].
    intros c Hc. by apply escape_char_encodable.
  - repeat first [apply Forall_nil_2 | apply Forall_cons_2]; by apply ascii_scalar.
Qed.

Lemma newline_indent_encodable (level : nat) :
  encodable (newline_indent level).
Proof.
  unfold newline_indent, encodable. apply Forall_cons_2; [by apply ascii_scalar|].
  apply Forall_replicate. by apply ascii_scalar.
Qed.

Lemma join_items_encodable (level : nat) (items : list str) :
  Forall encodable items → encodable (join_items level items).
Proof.
  induction 1 as [|x items Hx Hitems IH]; [constructor|].
  destruct items as [|y items]; [done|].
  change (join_items level (x :: y :: items))
    with (x ++ [0x2C] ++ newline_indent level
          ++ join_items level (y :: items)).
  unfold encodable. rewrite !Forall_app. repeat split; try done.
  - repeat first [apply Forall_nil_2 | apply Forall_cons_2]; by apply ascii_scalar.
  - apply newline_indent_encodable.
Qed.

Lemma encode_encodable (v : value) (level : nat) :
  encodable_value v → encodable (encode level v).
Proof.
  revert level.
  induction v as [s|xs IH|kvs IH] using value_induction;
    intros level Hv.
  - inversion Hv; subst. by apply encode_basestring_encodable.
  - inversion Hv as [|? Hall|]; subst.
    destruct xs as [|x xs];
      [repeat first [apply Forall_nil_2 | apply Forall_cons_2]; by apply ascii_scalar|].
    change (encode level (JList (x :: xs)))
      with ([0x5B] ++ newline_indent (S level)
            ++ join_items (S level) (map (encode (S level)) (x :: xs))
            ++ newline_indent level ++ [0x5D]).
    unfold encodable. rewrite !Forall_app.
    repeat split; try apply newline_indent_encodable;
      try (repeat first [apply Forall_nil_2 | apply Forall_cons_2]; by apply ascii_scalar).
    apply join_items_encodable, Forall_fmap, Forall_forall. intros y Hy.
    rewrite Forall_forall in IH, Hall. by apply IH, Hall.
  - inversion Hv as [| |? Hall]; subst.
    destruct kvs as [|kv kvs];
      [repeat first [apply Forall_nil_2 | apply Forall_cons_2]; by apply ascii_scalar|].
    change (encode level (JDict (kv :: kvs)))
      with ([0x7B] ++ newline_indent (S level)
            ++ join_items (S level)
                 (map (fun kv => encode_basestring (fst kv) ++ [0x3A; 0x20]
                                 ++ encode (S level) (snd kv)) (kv :: kvs))
            ++ newline_indent level ++ [0x7D]).
    unfold encodable. rewrite !Forall_app.
    repeat split; try apply newline_indent_encodable;
      try (repeat first [apply Forall_nil_2 | apply Forall_cons_2]; by apply ascii_scalar).
    apply join_items_encodable, Forall_fmap, Forall_forall. intros y Hy.
    rewrite Forall_forall in IH, Hall. destruct (Hall y Hy) as [Hk Hval].
    unfold encodable, compose. rewrite !Forall_app. repeat split.
    + by apply encode_basestring_encodable.
    + repeat first [apply Forall_nil_2 | apply Forall_cons_2]; by apply ascii_scalar.
    + by apply IH.
Qed.

End JsonProps.


(* ===================================================================== *)
(** * Properties of src/output_generator.py: the JSON payload *)
(* ===================================================================== *)

Module JsonPayloadProps.
Import MeetingSummarizer Json OutputGenerator Spec Tactics.

#[local] Arguments lit : simpl never.

Lemma strings_distinct_keys (l : list str) : Forall distinct_keys (JStr <$> l).
Proof. apply Forall_fmap, Forall_true. intros s. constructor. Qed.

Lemma action_item_distinct_keys (item : ActionItem) :
  distinct_keys (action_item_to_json item).
Proof.
  unfold action_item_to_json. constructor.
  - change (NoDup [lit "task"; lit "assignee"; lit "due_date";
                   lit "priority"]).
    distinct_literals.
  - repeat constructor.
Qed.

Lemma meeting_info_distinct_keys (info : MeetingInfo) :
  distinct_keys (meeting_info_to_json info).
Proof.
  unfold meeting_info_to_json. constructor.
  - change (NoDup [lit "title"; lit "date"; lit "participants";
                   lit "duration"]).
    distinct_literals.
  - repeat first [apply Forall_nil_2 | apply Forall_cons_2]; cbn [snd];
      constructor. apply strings_distinct_keys.
Qed.

(** The dictionary of a minutes record has no key twice. *)
Lemma to_json_distinct_keys (minutes : Minutes) :
  distinct_keys (to_json minutes).
Proof.
  unfold to_json. constructor.
  - change (NoDup minutes_fields). distinct_literals.
  - repeat first [apply Forall_nil_2 | apply Forall_cons_2]; cbn [snd].
    + apply meeting_info_distinct_keys.
    + constructor.
    + constructor. apply strings_distinct_keys.
    + constructor. apply Forall_fmap, Forall_true, action_item_distinct_keys.
    + constructor. apply strings_distinct_keys.
    + constructor.
Qed.

(** Decoding the payload of [_generate_json] gives back the dictionary of
    the record. *)
Lemma generate_json_round_trip (minutes : Minutes) (payload : bytes) :
  _generate_json minutes = Some payload →
  decode_payload payload = Some (to_json minutes)
  ∧ (decode_payload payload ≫= dict_get (lit "meeting_info"))
      ≫= dict_get (lit "title")
    = Some (JStr (title (meeting_info minutes)))
  ∧ length <$> ((decode_payload payload ≫= dict_get (lit "key_decisions"))
                  ≫= json_list)
    = Some (length (key_decisions minutes)).
Proof.
  unfold _generate_json. intros Hpayload.
  assert (decode_payload payload = Some (to_json minutes)) as Hdecoded.
  { unfold decode_payload.
    rewrite (Utf8Props.decode_encode_utf8 _ _ Hpayload). cbn [mbind option_bind].
    apply JsonProps.loads_dumps, to_json_distinct_keys. }
  rewrite Hdecoded. split; [done|]. split.
  - reflexivity.
  - transitivity (Some (length (JStr <$> key_decisions minutes)));
      [reflexivity | by rewrite length_fmap].
Qed.

(** When every string of the record is encodable the export of the
    formats [JSON] succeeds and holds a payload. *)
Lemma json_export_total (generated_time : str) (minutes : Minutes) :
  encodable_value (to_json minutes) →
  ∃ payload,
    generate_outputs generated_time minutes [lit "JSON"]
    = Some {[ lit "JSON" := payload ]}.
Proof.
  intros Hm. unfold generate_outputs. cbn [generate_outputs_from].
  rewrite decide_True by done.
  destruct (Utf8Props.encode_utf8_total (dumps (to_json minutes)))
    as [payload Hpayload]; [by apply JsonProps.encode_encodable|].
  exists payload. unfold _generate_json. by rewrite Hpayload.
Qed.

Lemma json_export_total_witness :
  let minutes :=
    {| meeting_info :=
         {| title := lit "Test"; date := lit "2024"; participants := [lit "Ann"];
            duration := lit "1 minutes" |};
       summary := lit "• ok";
       key_decisions := [lit "go"];
       action_items :=
         [ {| task := lit "t"; assignee := lit "a"; due_date := lit "d";
              priority := lit "p" |} ];
       next_steps := [];
       full_transcript := lit "hi" |} in
  encodable_value (to_json minutes)
  ∧ ∃ payload,
      generate_outputs (lit "now") minutes [lit "JSON"]
      = Some {[ lit "JSON" := payload ]}.
Proof.
  intros minutes.
  assert (encodable_value (to_json minutes)) as Hm.
  { vm_compute. repeat constructor. }
  exact (conj Hm (json_export_total (lit "now") minutes Hm)).
Defined.

(** C7: the JSON payload that the export of a minutes record with the
    formats [JSON] holds decodes to the dictionary of the record; in
    particular the decoded title is the title of the record and the decoded
    list of decisions has as many entries as the record has decisions. *)
Theorem json_export_round_trip (generated_time : str) (minutes : Minutes)
    (outputs : gmap str bytes) (payload : bytes) :
  generate_outputs generated_time minutes [lit "JSON"] = Some outputs →
  outputs !! lit "JSON" = Some payload →
  decode_payload payload = Some (to_json minutes)
  ∧ (decode_payload payload ≫= dict_get (lit "meeting_info"))
      ≫= dict_get (lit "title")
    = Some (JStr (title (meeting_info minutes)))
  ∧ length <$> ((decode_payload payload ≫= dict_get (lit "key_decisions"))
                  ≫= json_list)
    = Some (length (key_decisions minutes)).
Proof.
  unfold generate_outputs. cbn [generate_outputs_from].
  rewrite decide_True by done.
  destruct (_generate_json minutes) as [b|] eqn:Hjson; [|done].
  cbn [mbind option_bind]. intros [= <-].
  rewrite lookup_insert_eq. intros [= ->].
  by apply generate_json_round_trip.
Qed.

(** The record of the specification's example: the title "Test", one
    decision and one action item. *)
Lemma json_export_round_trip_witness :
  let minutes :=
    {| meeting_info :=
         {| title := lit "Test"; date := lit "2024-01-15";
            participants := [lit "Ann"; lit "Ben"];
            duration := lit "1 minutes" |};
       summary := lit "Budget review • next steps";
       key_decisions := [lit "Approve the budget"];
       action_items :=
         [ {| task := lit "Send the report"; assignee := lit "Ann";
              due_date := lit "Friday"; priority := lit "High" |} ];
       next_steps := [];
       full_transcript := lit "We reviewed the budget." |} in
  ∃ outputs payload,
    generate_outputs (lit "2024-01-15 10:00:00") minutes [lit "JSON"]
    = Some outputs
    ∧ outputs !! lit "JSON" = Some payload
    ∧ (decode_payload payload ≫= dict_get (lit "meeting_info"))
        ≫= dict_get (lit "title")
      = Some (JStr (lit "Test"))
    ∧ length <$> ((decode_payload payload ≫= dict_get (lit "key_decisions"))
                    ≫= json_list)
      = Some 1.
Proof.
  intros minutes.
  destruct (generate_outputs (lit "2024-01-15 10:00:00") minutes [lit "JSON"])
    as [outputs|] eqn:Hout; [|vm_compute in Hout; discriminate Hout].
  destruct (outputs !! lit "JSON") as [payload|] eqn:Hpay.
  - exists outputs, payload. split; [reflexivity|]. split; [exact Hpay|].
    exact (proj2 (json_export_round_trip _ minutes outputs payload Hout Hpay)).
  - exfalso. revert Hpay. unfold generate_outputs in Hout.
    cbn [generate_outputs_from] in Hout. rewrite decide_True in Hout by done.
    destruct (_generate_json minutes); [|done].
    injection Hout as <-. by rewrite lookup_insert_eq.
Defined.

End JsonPayloadProps.

(* ===================================================================== *)
(** * Further properties of src/evaluator.py *)
(* ===================================================================== *)

Module EvaluatorMore.
Import Evaluator Spec Notions Tactics EvaluatorProps.

(** ** Quotients equal to one *)

Lemma true_div_eq_1 (a b : nat) :
  b ≠ 0 → (true_div a b == 1)%Q ↔ a = b.
Proof.
  intros Hb. unfold true_div.
  assert (¬ (inject_Z (Z.of_nat b) == 0)%Q) as Hb'.
  { intros H. apply (proj1 (inject_Z_injective (Z.of_nat b) 0)) in H. lia. }
  split.
  - intros H.
    assert (inject_Z (Z.of_nat a) == inject_Z (Z.of_nat b))%Q as Hab.
    { rewrite <- (Qmult_div_r (inject_Z (Z.of_nat a)) _ Hb'), H.
      by rewrite Qmult_1_r. }
    apply (proj1 (inject_Z_injective (Z.of_nat a) (Z.of_nat b))) in Hab.
    lia.
  - intros ->. by apply Qmult_inv_r.
Qed.

Lemma distinct_length_NoDup `{EqDecision A} (xs : list A) :
  distinct xs = length xs → NoDup xs.
Proof.
  unfold distinct. induction xs as [|x xs IH]; [constructor|].
  simpl. destruct (decide_rel elem_of x xs) as [Hx|Hx].
  - pose proof (distinct_le_length xs) as Hle. unfold distinct in Hle.
    intros Heq. lia.
  - simpl. intros [= Heq]. constructor; [done | by apply IH].
Qed.

Lemma filter_all {A} (P : A → Prop) `{∀ x, Decision (P x)} (l : list A) :
  Forall P l → filter P l = l.
Proof.
  induction 1 as [|x l Hx Hl IH]; [done|].
  rewrite filter_cons_True by done. by rewrite IH.
Qed.

Lemma filter_none {A} (P : A → Prop) `{∀ x, Decision (P x)} (l : list A) :
  Forall (fun x => ¬ P x) l → filter P l = [].
Proof.
  induction 1 as [|x l Hx Hl IH]; [done|].
  by rewrite filter_cons_False.
Qed.

Lemma distinct_common_nil `{EqDecision A} (xs : list A) :
  distinct_common xs [] = 0.
Proof.
  unfold distinct_common. rewrite filter_none; [done|].
  apply Forall_forall. intros x _. apply not_elem_of_nil.
Qed.

Lemma true_div_0 (n : nat) : (true_div 0 n == 0)%Q.
Proof. unfold true_div, Qdiv. apply Qmult_0_l. Qed.

Lemma distinct_common_self `{EqDecision A} (xs : list A) :
  distinct_common xs xs = distinct xs.
Proof.
  unfold distinct_common, distinct. f_equal.
  apply filter_all, Forall_forall. intros x Hx.
  by apply elem_of_remove_dups.
Qed.

(** ** A text against itself *)

(** The word error rate of a text against itself is 0 exactly when no word
    occurs twice in the text. *)
Theorem wer_of_same_text (text : str) :
  words text ≠ [] →
  (_calculate_wer text text == 0)%Q ↔ NoDup (words text).
Proof.
  intros Hne.
  assert (length (words text) ≠ 0) as Hlen by (by destruct (words text)).
  rewrite (wer_unclamped text text Hlen), distinct_common_self.
  split.
  - intros H. apply distinct_length_NoDup, (true_div_eq_1 _ _ Hlen). lra.
  - intros Hnd.
    pose proof (proj2 (true_div_eq_1 (distinct (words text)) _ Hlen)
                  (distinct_NoDup _ Hnd)). lra.
Qed.

Lemma wer_of_same_text_witness :
  words (lit "the cat sat") ≠ []
  ∧ ((_calculate_wer (lit "the cat sat") (lit "the cat sat") == 0)%Q
     ↔ NoDup (words (lit "the cat sat"))).
Proof.
  assert (words (lit "the cat sat") ≠ []) as Hne
    by (vm_compute; discriminate).
  exact (conj Hne (wer_of_same_text (lit "the cat sat") Hne)).
Defined.

Example wer_of_repeated_word :
  (_calculate_wer (lit "no no no") (lit "no no no") == 2 # 3)%Q.
Proof. vm_compute. reflexivity. Qed.

(** ** Order and repetition *)

Lemma to_set_same_members `{Countable A} (xs ys : list A) :
  (∀ x, x ∈ xs ↔ x ∈ ys) → to_set xs = to_set ys.
Proof.
  intros Hxy. unfold to_set. apply set_eq. intros x.
  by rewrite !elem_of_list_to_set.
Qed.

Lemma same_members_length_0 {A} (xs ys : list A) :
  (∀ x, x ∈ xs ↔ x ∈ ys) → (0 < length xs ↔ 0 < length ys).
Proof.
  intros Hxy. destruct xs as [|x xs], ys as [|y ys]; simpl; try lia.
  - exfalso. eapply not_elem_of_nil, Hxy. left.
  - exfalso. eapply not_elem_of_nil, Hxy. left.
Qed.

(** The word error rate does not depend on the order of the words of the
    reference, nor on the order or the repetitions of the words of the
    hypothesis. *)
Theorem wer_ignores_word_order (reference reference' hypothesis
    hypothesis' : str) :
  words reference ≡ₚ words reference' →
  (∀ w, w ∈ words hypothesis ↔ w ∈ words hypothesis') →
  (_calculate_wer reference hypothesis
   == _calculate_wer reference' hypothesis')%Q.
Proof.
  unfold words. intros Href Hhyp. unfold _calculate_wer.
  rewrite (to_set_same_members _ _ Hhyp).
  rewrite (to_set_same_members (split (lower reference))
             (split (lower reference')))
    by (intros w; by rewrite Href).
  rewrite (Permutation_length Href).
  destruct (decide (length (split (lower reference')) = 0)); [|reflexivity].
  pose proof (same_members_length_0 _ _ Hhyp).
  repeat case_decide; (reflexivity || tauto).
Qed.

Lemma wer_ignores_word_order_witness :
  words (lit "the cat sat down") ≡ₚ words (lit "down sat the cat")
  ∧ (∀ w, w ∈ words (lit "cat Cat the dog") ↔ w ∈ words (lit "dog the cat"))
  ∧ (_calculate_wer (lit "the cat sat down") (lit "cat Cat the dog")
     == _calculate_wer (lit "down sat the cat") (lit "dog the cat"))%Q.
Proof.
  assert (words (lit "the cat sat down") ≡ₚ words (lit "down sat the cat"))
    as Href.
  { apply NoDup_Permutation;
      [apply (bool_decide_unpack _); vm_compute; exact I
      |apply (bool_decide_unpack _); vm_compute; exact I|].
    intros w. rewrite <- !(elem_of_list_to_set (C := gset str)).
    assert (list_to_set (words (lit "the cat sat down"))
            =@{gset str} list_to_set (words (lit "down sat the cat")))
      as -> by (apply (bool_decide_unpack _); vm_compute; exact I).
    done. }
  assert (∀ w, w ∈ words (lit "cat Cat the dog")
               ↔ w ∈ words (lit "dog the cat")) as Hhyp.
  { intros w. rewrite <- !(elem_of_list_to_set (C := gset str)).
    assert (list_to_set (words (lit "cat Cat the dog"))
            =@{gset str} list_to_set (words (lit "dog the cat")))
      as -> by (apply (bool_decide_unpack _); vm_compute; exact I).
    done. }
  exact (conj Href (conj Hhyp (wer_ignores_word_order _ _ _ _ Href Hhyp))).
Defined.

(** ** Precision and recall *)

(** The BLEU score of a hypothesis against a reference is the ROUGE-1
    score with the two texts exchanged. *)
Theorem bleu_is_rouge_1_exchanged (reference hypothesis : str) :
  (_calculate_bleu reference hypothesis
   == _calculate_rouge_1 hypothesis reference)%Q.
Proof.
  unfold _calculate_bleu, _calculate_rouge_1.
  case_decide; [reflexivity|].
  by rewrite (comm_L (∩) (to_set (split (lower reference)))).
Qed.

(** ** Letter case *)

Lemma lookup_mapped (c c' : char) (table : list (N * N * N * N)) :
  lower_lookup c table = Some c' → c ∈ table ≫= mapped_by.
Proof.
  induction table as [|[[[lo hi] step] target] table IH]; [done|].
  cbn [lower_lookup]. rewrite bind_cons, elem_of_app.
  destruct ((lo <=? c)%N && (c <=? hi)%N && ((c - lo) mod step =? 0)%N)
    eqn:Hc; [intros _; left | intros H; right; by apply IH].
  apply andb_true_iff in Hc as [[Hlo Hhi]%andb_true_iff Hstep].
  apply N.leb_le in Hlo, Hhi. apply N.eqb_eq in Hstep.
  unfold mapped_by. apply list_elem_of_fmap.
  exists (N.to_nat ((c - lo) / step)). split.
  - rewrite N2Nat.id. pose proof (N.Div0.div_mod (c - lo) step). lia.
  - apply elem_of_seq.
    assert ((c - lo) / step ≤ (hi - lo) / step)%N as Hle
      by (apply N.Div0.div_le_mono; lia).
    revert Hle. generalize ((c - lo) / step)%N ((hi - lo) / step)%N. lia.
Qed.

Lemma mapped_lowercase :
  forallb (fun c => forallb lowercase_char (lower_char c)) mapped = true.
Proof. vm_compute. reflexivity. Qed.

(** The lowercase form of a code point is in lowercase. *)
Lemma lower_char_lowercase (c : char) :
  Forall (fun c' => lowercase_char c' = true) (lower_char c).
Proof.
  destruct (N.eqb_spec c 0x130) as [Heq|H130].
  - rewrite Heq. change (lower_char 0x130%N) with [0x69%N; 0x307%N].
    repeat constructor; vm_compute; reflexivity.
  - assert (lower_char c = match lower_lookup c lower_table with
                           | Some c' => [c']
                           | None => [c]
                           end) as Hc.
    { unfold lower_char. by rewrite (proj2 (N.eqb_neq c 0x130%N) H130). }
    destruct (lower_lookup c lower_table) as [c'|] eqn:Hlookup.
    + pose proof (proj1 (forallb_forall _ _) mapped_lowercase c
                    (proj1 (list_elem_of_In _ _)
                       (lookup_mapped _ _ _ Hlookup))) as Hmapped.
      cbv beta in Hmapped. apply Forall_forall. intros x Hx.
      by apply (proj1 (forallb_forall _ _) Hmapped), list_elem_of_In.
    + rewrite Hc. repeat constructor. unfold lowercase_char.
      rewrite Hc, bool_decide_eq_true_2 by done. rewrite andb_true_r.
      apply negb_true_iff, N.eqb_neq. intros ->. by vm_compute in Hlookup.
Qed.

Lemma lower_from_lowercase (after_cased : bool) (s : str) :
  Forall (fun c => lowercase_char c = true) (lower_from after_cased s).
Proof.
  revert after_cased. induction s as [|c s IH]; intros after_cased;
    [constructor|].
  cbn [lower_from]. apply Forall_app. split; [|apply IH].
  destruct (c =? 0x3A3)%N; [|apply lower_char_lowercase].
  destruct (after_cased && sigma_ends s); by repeat constructor.
Qed.

(** Lowercasing leaves a text in lowercase as it is. *)
Lemma lower_from_fixed (after_cased : bool) (s : str) :
  Forall (fun c => lowercase_char c = true) s → lower_from after_cased s = s.
Proof.
  intros Hs. revert after_cased.
  induction Hs as [|c s Hc _ IH]; intros after_cased; [done|].
  cbn [lower_from]. rewrite IH.
  apply andb_true_iff in Hc as [Hsigma Hfixed].
  apply negb_true_iff in Hsigma. rewrite Hsigma.
  by rewrite (bool_decide_eq_true_1 _ Hfixed).
Qed.

(** Lowercasing twice is lowercasing once. *)
Lemma lower_lower (s : str) : lower (lower s) = lower s.
Proof. apply lower_from_fixed, lower_from_lowercase. Qed.

(** Lowercasing the reference, the hypothesis or both beforehand changes
    none of the scores computed from words. *)
Theorem word_scores_ignore_case (reference hypothesis : str) :
  (_calculate_wer (lower reference) (lower hypothesis)
   == _calculate_wer reference hypothesis)%Q
  ∧ (_calculate_bleu (lower reference) (lower hypothesis)
     == _calculate_bleu reference hypothesis)%Q
  ∧ (_calculate_rouge_1 (lower reference) (lower hypothesis)
     == _calculate_rouge_1 reference hypothesis)%Q
  ∧ (_calculate_rouge_2 (lower reference) (lower hypothesis)
     == _calculate_rouge_2 reference hypothesis)%Q.
Proof.
  unfold _calculate_wer, _calculate_bleu, _calculate_rouge_1,
    _calculate_rouge_2.
  rewrite !lower_lower. repeat split; reflexivity.
Qed.

(** ** Texts without words *)

Lemma to_set_nil_size `{Countable A} : size (to_set (@nil A)) = 0.
Proof. done. Qed.

(** Against a hypothesis without words, a reference that has words gets
    the worst score on every word-based metric. *)
Theorem scores_of_empty_hypothesis (reference hypothesis : str) :
  words reference ≠ [] → words hypothesis = [] →
  (_calculate_wer reference hypothesis == 1)%Q
  ∧ (accuracy (evaluate_transcription reference hypothesis) == 0)%Q
  ∧ (_calculate_bleu reference hypothesis == 0)%Q
  ∧ (_calculate_rouge_1 reference hypothesis == 0)%Q
  ∧ (_calculate_rouge_2 reference hypothesis == 0)%Q.
Proof.
  unfold words. intros Href Hhyp.
  assert (_calculate_wer reference hypothesis == 1)%Q as Hwer.
  { unfold _calculate_wer. rewrite Hhyp.
    rewrite decide_False by (by destruct (split (lower reference))).
    rewrite size_common, distinct_common_nil.
    rewrite clamp01_id by (apply one_minus_unit, true_div_unit; lia).
    pose proof (true_div_0 (length (split (lower reference)))). lra. }
  split; [exact Hwer|]. split; [simpl; rewrite Hwer; reflexivity|].
  split; [|split].
  - unfold _calculate_bleu. rewrite Hhyp. reflexivity.
  - unfold _calculate_rouge_1. rewrite Hhyp. case_decide; [reflexivity|].
    rewrite size_common, distinct_common_nil. apply true_div_0.
  - unfold _calculate_rouge_2. rewrite !get_bigrams_pairs, Hhyp.
    case_decide; [reflexivity|].
    change (pairs []) with (@nil (str * str)).
    rewrite size_common, distinct_common_nil. apply true_div_0.
Qed.

Lemma scores_of_empty_hypothesis_witness :
  words (lit "the cat sat") ≠ [] ∧ words (lit "  ") = []
  ∧ (_calculate_wer (lit "the cat sat") (lit "  ") == 1)%Q.
Proof.
  assert (words (lit "the cat sat") ≠ []) as Href
    by (vm_compute; discriminate).
  assert (words (lit "  ") = []) as Hhyp by (vm_compute; reflexivity).
  exact (conj Href (conj Hhyp
           (proj1 (scores_of_empty_hypothesis _ _ Href Hhyp)))).
Defined.

(** Against a reference without words the word error rate is 1 when the
    hypothesis has a word and 0 when it has none, while ROUGE-1 and ROUGE-2
    are 0 either way. *)
Theorem scores_of_empty_reference (reference hypothesis : str) :
  words reference = [] →
  (_calculate_wer reference hypothesis
   == if decide (words hypothesis = []) then 0 else 1)%Q
  ∧ (_calculate_rouge_1 reference hypothesis == 0)%Q
  ∧ (_calculate_rouge_2 reference hypothesis == 0)%Q.
Proof.
  unfold words. intros Href. split; [|split].
  - unfold _calculate_wer. rewrite Href. simpl.
    destruct (split (lower hypothesis)); simpl; reflexivity.
  - unfold _calculate_rouge_1. rewrite Href. reflexivity.
  - unfold _calculate_rouge_2. rewrite !get_bigrams_pairs, Href. reflexivity.
Qed.

Lemma scores_of_empty_reference_witness :
  words [] = []
  ∧ (_calculate_wer [] (lit "hello")
     == if decide (words (lit "hello") = []) then 0 else 1)%Q.
Proof.
  exact (conj eq_refl (proj1 (scores_of_empty_reference [] (lit "hello")
                                eq_refl))).
Defined.

End EvaluatorMore.

(* ===================================================================== *)
(** * Properties of the string operations *)
(* ===================================================================== *)

Module PyStrProps.
Import Notions.

(** ** [drop_while] and [strip] *)

Lemma drop_while_split (p : char → bool) (s : str) :
  ∃ pre, s = pre ++ drop_while p s ∧ Forall (fun c => p c = true) pre.
Proof.
  induction s as [|c s (pre & Hs & Hpre)]; [by exists []|].
  simpl. destruct (p c) eqn:Hc.
  - exists (c :: pre). split; [by rewrite Hs at 1 | by constructor].
  - by exists [].
Qed.

Lemma drop_while_head (p : char → bool) (s r : str) (c : char) :
  drop_while p s = c :: r → p c = false.
Proof.
  induction s as [|a s IH]; [done|]. simpl.
  destruct (p a) eqn:Ha; [done|]. by intros [= <- _].
Qed.

Lemma drop_while_fixed (p : char → bool) (s : str) :
  (∀ c r, s = c :: r → p c = false) → drop_while p s = s.
Proof.
  destruct s as [|c s]; [done|]. intros H. simpl.
  by rewrite (H c s eq_refl).
Qed.

(** What [strip] removes is white space. *)
Lemma strip_split (s : str) :
  ∃ pre post,
    s = pre ++ strip s ++ post
    ∧ Forall (fun c => is_space c = true) pre
    ∧ Forall (fun c => is_space c = true) post.
Proof.
  unfold strip, rstrip, lstrip.
  destruct (drop_while_split is_space s) as (pre & Hs & Hpre).
  destruct (drop_while_split is_space (reverse (drop_while is_space s)))
    as (post & Hr & Hpost).
  exists pre, (reverse post). split; [|split].
  - rewrite Hs at 1. f_equal.
    rewrite <- reverse_app, <- Hr. by rewrite reverse_involutive.
  - done.
  - by apply Forall_reverse.
Qed.

Lemma strip_stripped (s : str) : stripped (strip s).
Proof.
  split.
  - intros c r Hc.
    destruct (drop_while_split is_space (reverse (lstrip s)))
      as (post & Hr & _).
    apply (drop_while_head is_space s (r ++ reverse post) c).
    fold (lstrip s). rewrite <- (reverse_involutive (lstrip s)), Hr.
    rewrite reverse_app. fold (rstrip (lstrip s)). fold (strip s).
    by rewrite Hc.
  - intros c r Hc.
    apply (drop_while_head is_space (reverse (lstrip s)) (reverse r) c).
    rewrite <- (reverse_involutive (drop_while _ _)).
    fold (rstrip (lstrip s)). fold (strip s).
    by rewrite Hc, reverse_app.
Qed.

Lemma stripped_strip (s : str) : stripped s → strip s = s.
Proof.
  intros [Hhead Hlast]. unfold strip, rstrip, lstrip.
  rewrite (drop_while_fixed is_space s) by done.
  rewrite drop_while_fixed; [apply reverse_involutive|].
  intros c r Hc. apply (Hlast c (reverse r)).
  by rewrite <- (reverse_involutive s), Hc, reverse_cons.
Qed.

(** [strip] is idempotent. *)
Lemma strip_strip (s : str) : strip (strip s) = strip s.
Proof. apply stripped_strip, strip_stripped. Qed.

Lemma elem_of_strip (c : char) (s : str) : c ∈ strip s → c ∈ s.
Proof.
  destruct (strip_split s) as (pre & post & Hs & _). intros Hc.
  rewrite Hs, !elem_of_app. auto.
Qed.


Lemma occurs_strip (sep s : str) : occurs sep (strip s) → occurs sep s.
Proof.
  destruct (strip_split s) as (pre & post & Hs & _).
  intros (a & b & Hab). exists (pre ++ a), (b ++ post).
  rewrite Hs at 1. rewrite Hab. by rewrite <- !app_assoc.
Qed.

(** ** [startswith] *)

Lemma startswith_spec (p s : str) :
  startswith p s = true ↔ ∃ r, s = p ++ r.
Proof.
  revert s. induction p as [|a p IH]; intros s.
  - split; [by exists s | by destruct s].
  - destruct s as [|b s]; simpl.
    + split; [done | by intros [r Hr]].
    + rewrite andb_true_iff, N.eqb_eq, IH. split.
      * intros [-> [r ->]]. by exists r.
      * intros [r [= -> ->]]. eauto.
Qed.

(** ** [split] on one character *)

Lemma split_char_step (c : char) (s cur : str) :
  split_sep_go [c] (c :: s) 0 cur = cur :: split_sep_go [c] s 0 [].
Proof. simpl. by rewrite N.eqb_refl. Qed.

Lemma split_char_run (c : char) (x s cur : str) :
  c ∉ x → split_sep_go [c] (x ++ s) 0 cur = split_sep_go [c] s 0 (cur ++ x).
Proof.
  revert cur. induction x as [|a x IH]; intros cur Hc.
  - by rewrite app_nil_r.
  - apply not_elem_of_cons in Hc as [Hca Hcx]. simpl.
    rewrite (proj2 (N.eqb_neq c a)) by done. simpl.
    rewrite IH by done. by rewrite <- app_assoc.
Qed.

(** No piece holds the character. *)
Lemma split_char_pieces (c : char) (s cur : str) :
  c ∉ cur → Forall (fun piece => c ∉ piece) (split_sep_go [c] s 0 cur).
Proof.
  revert cur. induction s as [|a s IH]; intros cur Hcur.
  - by repeat constructor.
  - simpl. destruct (N.eqb_spec c a) as [->|Hca]; simpl.
    + constructor; [done|]. apply IH, not_elem_of_nil.
    + apply IH. rewrite elem_of_app, list_elem_of_singleton. intros [?|?]; [done | by apply Hca].
Qed.

Lemma split_char_none (c : char) (s cur : str) :
  c ∉ s → split_sep_go [c] s 0 cur = [cur ++ s].
Proof.
  intros Hc. rewrite <- (app_nil_r s) at 1.
  by rewrite split_char_run.
Qed.

(** Splitting undoes joining. *)
Lemma split_char_join (c : char) (xs : list str) :
  xs ≠ [] → Forall (fun x => c ∉ x) xs →
  split_sep [c] (join [c] xs) = xs.
Proof.
  unfold split_sep. intros Hne Hxs.
  induction Hxs as [|x xs Hx Hxs IH]; [done|].
  destruct xs as [|y ys].
  - simpl join. by rewrite split_char_none.
  - change (join [c] (x :: y :: ys)) with (x ++ c :: join [c] (y :: ys)).
    rewrite split_char_run, split_char_step by done.
    by rewrite IH.
Qed.

(** ** [split] on a marker *)

Lemma split_sep_go_nonempty (sep s : str) (k : nat) (cur : str) :
  split_sep_go sep s k cur ≠ [].
Proof.
  revert k cur. induction s as [|c s IH]; intros k cur; [done|].
  simpl. destruct k; [|apply IH]. case_match; [done | apply IH].
Qed.


Lemma split_sep_go_skip (sep x s : str) (cur : str) :
  split_sep_go sep (x ++ s) (length x) cur = split_sep_go sep s 0 cur.
Proof. induction x as [|a x IH]; [done | exact IH]. Qed.

Lemma occurs_cons (sep s : str) (c : char) :
  occurs sep s → occurs sep (c :: s).
Proof. intros (a & b & ->). by exists (c :: a), b. Qed.

(** A text in which the marker does not occur is one piece. *)
Lemma split_sep_go_absent (sep s cur : str) :
  ¬ occurs sep s → split_sep_go sep s 0 cur = [cur ++ s].
Proof.
  revert cur. induction s as [|c s IH]; intros cur Hs.
  - by rewrite app_nil_r.
  - simpl. destruct (startswith sep (c :: s)) eqn:Hstart.
    + exfalso. apply startswith_spec in Hstart as [r Hr].
      apply Hs. exists [], r. by rewrite Hr.
    + rewrite IH by (intros H; by apply Hs, occurs_cons).
      by rewrite <- app_assoc.
Qed.

Lemma last_cons_nonempty {A} (x : A) (l : list A) :
  l ≠ [] → last (x :: l) = last l.
Proof. by destruct l. Qed.

(** The last piece is what follows the last occurrence of the marker: here
    for a marker whose first character occurs nowhere else in it, followed
    by a text in which the marker does not occur.  While [k] characters of
    an occurrence are still to be dropped, those characters are the end of
    the marker. *)
Lemma split_sep_go_last (a : char) (sep' post : str) :
  a ∉ sep' → ¬ occurs (a :: sep') post →
  ∀ pre k cur front mid rest,
    pre ++ (a :: sep') ++ post = mid ++ rest →
    length mid = k → sep' = front ++ mid →
    last (split_sep_go (a :: sep') (pre ++ (a :: sep') ++ post) k cur)
    = Some post.
Proof.
  intros Ha Hpost. induction pre as [|c pre IH];
    intros k cur front mid rest Htext Hk Hmid.
  - destruct mid as [|m mid].
    + simpl in Hk. subst k. rewrite app_nil_l.
      cbn [split_sep_go app].
      rewrite (proj2 (startswith_spec (a :: sep') (a :: sep' ++ post)))
        by (by exists post).
      change (Nat.pred (length (a :: sep'))) with (length sep').
      rewrite split_sep_go_skip, split_sep_go_absent by done. done.
    + exfalso. rewrite app_nil_l in Htext. injection Htext as <- _.
      apply Ha. rewrite Hmid, elem_of_app. right. by left.
  - destruct mid as [|m mid].
    + simpl in Hk. subst k.
      change ((c :: pre) ++ (a :: sep') ++ post)
        with (c :: (pre ++ (a :: sep') ++ post)).
      cbn [split_sep_go].
      destruct (startswith (a :: sep') (c :: pre ++ (a :: sep') ++ post))
        eqn:Hstart.
      * apply startswith_spec in Hstart as [r Hr].
        injection Hr as -> Hr.
        rewrite last_cons_nonempty by apply split_sep_go_nonempty.
        change (Nat.pred (length (a :: sep'))) with (length sep').
        by apply (IH _ _ [] sep' r).
      * apply (IH _ _ sep' [] (pre ++ (a :: sep') ++ post));
          [done | done | by rewrite app_nil_r].
    + simpl in Hk. subst k.
      change ((c :: pre) ++ (a :: sep') ++ post)
        with (c :: (pre ++ (a :: sep') ++ post)) in *.
      injection Htext as <- Htext. cbn [split_sep_go].
      apply (IH _ _ (front ++ [c]) mid rest); [done | done|].
      by rewrite <- app_assoc.
Qed.

Lemma split_sep_last (a : char) (sep' pre post : str) :
  a ∉ sep' → ¬ occurs (a :: sep') post →
  last_piece (split_sep (a :: sep') (pre ++ (a :: sep') ++ post)) = post.
Proof.
  intros Ha Hpost. unfold last_piece, split_sep.
  rewrite (split_sep_go_last a sep' post Ha Hpost pre 0 [] sep' []
             (pre ++ (a :: sep') ++ post));
    [done | done | done | by rewrite app_nil_r].
Qed.

End PyStrProps.

(* ===================================================================== *)
(** * src/summarizer.py: what is read from the answers of the model *)
(* ===================================================================== *)

Module SummarizerMore.
Import MeetingSummarizer ModelLoading Notions PyStrProps.

(** ** [needle in hay] *)

Lemma contains_cons (needle hay : str) (c : char) :
  contains needle (c :: hay)
  = startswith needle (c :: hay) || contains needle hay.
Proof. reflexivity. Qed.

Lemma contains_occurs (needle hay : str) :
  contains needle hay = true ↔ occurs needle hay.
Proof.
  induction hay as [|c hay IH].
  - change (contains needle []) with (startswith needle [] || false).
    rewrite orb_false_r, startswith_spec. split.
    + intros [r Hr]. by exists [], r.
    + intros (before & after & H). symmetry in H.
      apply app_eq_nil in H as [-> H]. by exists after.
  - rewrite contains_cons, orb_true_iff, startswith_spec, IH. split.
    + intros [[r Hr]|H]; [by exists [], r | by apply occurs_cons].
    + intros (before & after & H). destruct before as [|b before].
      * left. by exists after.
      * right. injection H as -> ->. by exists before, after.
Qed.

Lemma not_contains_occurs (needle hay : str) :
  contains needle hay = false → ¬ occurs needle hay.
Proof. intros H Hocc. apply contains_occurs in Hocc. congruence. Qed.

(** ** The text after the last marker *)

Lemma last_piece_after_marker (marker : str) (a : char) (sep' pre post : str) :
  marker = a :: sep' → a ∉ sep' → contains marker post = false →
  last_piece (split_sep marker (pre ++ marker ++ post)) = post.
Proof.
  intros -> Ha Hpost. by apply split_sep_last, not_contains_occurs.
Qed.

Lemma literal_end (l m : str) :
  drop (length l - length m) l = m → l = take (length l - length m) l ++ m.
Proof.
  intros H. rewrite <- (take_drop (length l - length m) l) at 1.
  by rewrite H.
Qed.

(** The prompt ends with the marker that the answer is split at. *)
Lemma summary_prompt_ends (transcript : str) (max_length : Z) :
  ∃ pre, summary_prompt transcript max_length = pre ++ lit "Summary:".
Proof.
  unfold summary_prompt.
  match goal with
  | |- ∃ pre, _ ++ _ ++ _ ++ _ ++ ?l = _ =>
    rewrite (literal_end l (lit "Summary:")) by (vm_compute; reflexivity)
  end.
  eexists. rewrite !app_assoc. reflexivity.
Qed.

(** The summary is the text that follows the last ["Summary:"] of the
    answer, without the white space around it; whatever stands before that
    marker is dropped. *)
Theorem summary_is_text_after_last_marker (p : Pipeline) (transcript : str)
    (max_length : Z) (n : nat) (pre answer : str) :
  p n (summary_prompt transcript max_length)
    {| max_new_tokens := max_length; temperature := 7 # 10 |}
  = Some (pre ++ lit "Summary:" ++ answer) →
  contains (lit "Summary:") answer = false →
  fst (_generate_llm_summary p transcript max_length n) = strip answer.
Proof.
  intros Hresponse Hanswer.
  unfold _generate_llm_summary, bind, call, ret. cbv beta iota.
  rewrite Hresponse. cbn [fst]. f_equal.
  apply (last_piece_after_marker _ 0x53%N (lit "ummary:"));
    [vm_compute; reflexivity | Tactics.distinct_literals | done].
Qed.

Lemma summary_is_text_after_last_marker_witness :
  fst (_generate_llm_summary
         (fun _ _ _ => Some (lit "Draft Summary: one Summary: All good. "))
         (lit "hello") 50 0)
  = lit "All good.".
Proof.
  rewrite (summary_is_text_after_last_marker _ _ _ _
             (lit "Draft Summary: one ") (lit " All good. "));
    vm_compute; reflexivity.
Defined.

(** A pipeline that returns the prompt followed by its continuation, as the
    text-generation pipeline does by default: when the continuation does not
    hold ["Summary:"], the summary is the continuation without the white
    space around it, whatever the transcript holds. *)
Theorem summary_of_echoed_prompt (p : Pipeline) (transcript : str)
    (max_length : Z) (n : nat) (continuation : str) :
  p n (summary_prompt transcript max_length)
    {| max_new_tokens := max_length; temperature := 7 # 10 |}
  = Some (summary_prompt transcript max_length ++ continuation) →
  contains (lit "Summary:") continuation = false →
  fst (_generate_llm_summary p transcript max_length n) = strip continuation.
Proof.
  intros Hresponse Hanswer.
  destruct (summary_prompt_ends transcript max_length) as [pre Hpre].
  unfold _generate_llm_summary, bind, call, ret. cbv beta iota.
  rewrite Hresponse. cbn [fst]. f_equal.
  rewrite Hpre, <- app_assoc.
  apply (last_piece_after_marker _ 0x53%N (lit "ummary:"));
    [vm_compute; reflexivity | Tactics.distinct_literals | done].
Qed.

Lemma summary_of_echoed_prompt_witness :
  fst (_generate_llm_summary
         (fun _ prompt _ => Some (prompt ++ lit " All good. "))
         (lit "Agenda. Summary: none so far.") 50 0)
  = lit "All good.".
Proof.
  rewrite (summary_of_echoed_prompt _ _ _ _ (lit " All good. "));
    vm_compute; reflexivity.
Defined.

(** ** Key decisions *)

Lemma stripped_of_fixed (s : str) : strip s = s → stripped s.
Proof. intros <-. apply strip_stripped. Qed.

(** Every key decision, from the model or from the fallback, is one line
    that is not empty, has no white space at either end and is not a bare
    number. *)
Theorem decisions_well_formed (p : Pipeline) (transcript : str) (n : nat) :
  Forall (fun d => d ≠ [] ∧ stripped d ∧ isdigit d = false ∧ 0x0A%N ∉ d)
         (fst (_extract_llm_decisions p transcript n)).
Proof.
  unfold _extract_llm_decisions, bind, call, ret. cbv beta iota.
  destruct (p n _ _) as [generated_text|]; cbn [fst].
  - apply Forall_take, Forall_fmap, Forall_forall. intros d Hd.
    apply list_elem_of_filter in Hd as [[Hne Hdigit] Hd]. cbn [compose].
    split; [done|]. split; [apply strip_stripped|]. split; [done|].
    intros Hnl. apply elem_of_strip in Hnl. revert Hnl.
    pose proof (split_char_pieces 0x0A%N
      (strip (last_piece (split_sep (lit "Key Decisions:") generated_text)))
      [] (not_elem_of_nil _)) as Hpieces.
    rewrite Forall_forall in Hpieces. by apply Hpieces.
  - unfold _extract_demo_decisions.
    repeat apply Forall_cons_2; [| |apply Forall_nil_2];
      (split; [by vm_compute|];
       split; [apply stripped_of_fixed; vm_compute; reflexivity|];
       split; [vm_compute; reflexivity | Tactics.distinct_literals]).
Qed.

(** ** Action items *)



Lemma default_lookup_Forall {A} (P : A → Prop) (d : A) (xs : list A) (i : nat) :
  Forall P xs → P d → P (default d (xs !! i)).
Proof.
  intros Hxs Hd. destruct (xs !! i) as [x|] eqn:Hx; [|done].
  by apply (Forall_lookup_1 _ _ _ _ Hxs Hx).
Qed.

(** No field of an action item, from the model or from the fallback, holds
    a dash or has white space at either end: a hyphenated word or a date
    written with dashes is cut at the dash. *)
Theorem action_item_fields_without_dash (p : Pipeline) (transcript : str)
    (n : nat) :
  Forall (fun item =>
            Forall (fun field => (0x2D%N ∉ field) ∧ stripped field)
                   [task item; assignee item; due_date item; priority item])
         (fst (_extract_llm_action_items p transcript n)).
Proof.
  unfold _extract_llm_action_items, bind, call, ret. cbv beta iota.
  destruct (p n _ _) as [generated_text|]; cbn [fst].
  - apply Forall_forall. intros item Hitem.
    apply list_elem_of_omap in Hitem as (line & _ & Hline).
    unfold parse_action_item in Hline.
    destruct (_ && _); [|done]. destruct (decide _); [|done].
    injection Hline as <-. cbn [task assignee due_date priority].
    assert (Forall (fun field => (0x2D%N ∉ field) ∧ stripped field)
                   (strip <$> split_sep (lit "-") line)) as Hparts.
    { apply Forall_fmap, Forall_forall. intros part Hpart. cbn [compose].
      split; [|apply strip_stripped].
      intros Hdash. apply elem_of_strip in Hdash. revert Hdash.
      pose proof (split_char_pieces 0x2D%N line [] (not_elem_of_nil _))
        as Hpieces.
      rewrite Forall_forall in Hpieces. by apply Hpieces. }
    repeat apply Forall_cons_2; [| | | |apply Forall_nil_2];
      (apply default_lookup_Forall; [exact Hparts|]);
      (split; [Tactics.distinct_literals
              | apply stripped_of_fixed; vm_compute; reflexivity]).
  - unfold _extract_demo_action_items.
    repeat apply Forall_cons_2; try apply Forall_nil_2;
      cbn [task assignee due_date priority];
      (split; [Tactics.distinct_literals
              | apply stripped_of_fixed; vm_compute; reflexivity]).
Qed.

(** ** Next steps *)

(** No next step, from the model or from the fallback, starts with one of
    the bullet characters. *)
Theorem next_steps_start_without_bullet (p : Pipeline) (transcript : str)
    (n : nat) :
  Forall (fun step => ∀ c r, step = c :: r → c ∉ bullets)
         (fst (_extract_llm_next_steps p transcript n)).
Proof.
  unfold _extract_llm_next_steps, bind, call, ret. cbv beta iota.
  destruct (p n _ _) as [generated_text|]; cbn [fst].
  - apply Forall_take, Forall_fmap, Forall_forall.
    intros line _ c r Hstep. cbn [compose] in Hstep.
    apply drop_while_head in Hstep.
    by apply bool_decide_eq_false_1 in Hstep.
  - unfold _extract_demo_next_steps.
    repeat apply Forall_cons_2; try apply Forall_nil_2;
      intros c r Hstep; vm_compute in Hstep; injection Hstep as <- _;
      Tactics.distinct_literals.
Qed.

(** A line made of one bullet, a space and a text comes out with the space
    in front: the white space is removed before the bullet is. *)
Theorem bulleted_step_keeps_leading_space (p : Pipeline) (transcript : str)
    (n : nat) (b : char) (step : str) :
  p n (next_steps_prompt transcript)
    {| max_new_tokens := 200; temperature := 5 # 10 |}
  = Some (lit "Next Steps:" ++ b :: 0x20%N :: step) →
  b ∈ bullets → step ≠ [] → strip step = step → 0x0A%N ∉ step →
  contains (lit "Next Steps:") (b :: 0x20%N :: step) = false →
  fst (_extract_llm_next_steps p transcript n) = [0x20%N :: step].
Proof.
  intros Hresponse Hb Hne Hstep Hnl Hmarker.
  assert (is_space b = false ∧ b ≠ 0x0A%N) as [Hbs Hbn].
  { unfold bullets in Hb. vm_compute in Hb.
    apply elem_of_cons in Hb as [-> | Hb]; [done|].
    apply elem_of_cons in Hb as [-> | Hb]; [done|].
    apply list_elem_of_singleton in Hb as ->. done. }
  assert (strip (b :: 0x20%N :: step) = b :: 0x20%N :: step) as Hline.
  { apply stripped_strip. apply stripped_of_fixed in Hstep as [_ Hlast].
    split.
    - by intros c r [= <- _].
    - intros c r Hc. destruct (exists_last Hne) as (r' & c' & ->).
      rewrite !app_comm_cons in Hc. apply app_inj_tail in Hc as [_ <-].
      by apply (Hlast c' r'). }
  unfold _extract_llm_next_steps, bind, call, ret. cbv beta iota.
  rewrite Hresponse. cbn [fst].
  rewrite <- (app_nil_l (lit "Next Steps:" ++ _)).
  rewrite (last_piece_after_marker _ 0x4E%N (lit "ext Steps:"));
    [|vm_compute; reflexivity | Tactics.distinct_literals | done].
  rewrite Hline. unfold nl, split_sep.
  rewrite split_char_none, app_nil_l.
  - rewrite filter_cons_True by (by rewrite Hline).
    rewrite filter_nil. cbn [fmap list_fmap take]. rewrite Hline.
    f_equal. unfold lstrip_chars. cbn [drop_while].
    rewrite (bool_decide_eq_true_2 _ Hb).
    by rewrite bool_decide_eq_false_2 by Tactics.distinct_literals.
  - rewrite !not_elem_of_cons. done.
Qed.

Lemma bulleted_step_keeps_leading_space_witness :
  fst (_extract_llm_next_steps
         (fun _ _ _ => Some (lit "Next Steps:- Book a room"))
         (lit "hello") 0)
  = [lit " Book a room"].
Proof.
  apply (bulleted_step_keeps_leading_space _ _ _ 0x2D%N (lit "Book a room"));
    first [ Tactics.distinct_literals | by vm_compute ].
Defined.

(** ** Failures *)

(** When each of the four calls to the model fails, the minutes are the
    demo minutes. *)
Theorem failed_calls_give_demo_minutes (self : Summarizer) (p : Pipeline)
    (meeting_data : MeetingData) (max_length : Z) (n : nat) :
  model self ≠ DemoMode → pipeline self = Some p →
  (∀ k prompt args, n ≤ k < n + 4 → p k prompt args = None) →
  generate_minutes self meeting_data max_length n
  = (_generate_demo_minutes meeting_data max_length, n + 4).
Proof.
  intros Hmodel Hpipeline Hfail.
  unfold generate_minutes. rewrite Hpipeline.
  destruct (model self); [|done|];
    unfold _generate_llm_summary, _extract_llm_decisions,
      _extract_llm_action_items, _extract_llm_next_steps, bind, call, ret;
    cbv beta iota;
    rewrite !Hfail by lia;
    unfold _generate_demo_minutes;
    (f_equal; lia).
Qed.

Lemma failed_calls_give_demo_minutes_witness :
  generate_minutes {| model := Loaded; pipeline := Some (fun _ _ _ => None) |}
    {| md_title := None; md_date := None; md_participants := None;
       md_transcript := None |} 500 0
  = (_generate_demo_minutes
       {| md_title := None; md_date := None; md_participants := None;
          md_transcript := None |} 500, 4).
Proof.
  apply (failed_calls_give_demo_minutes _ (fun _ _ _ => None)); done.
Defined.

(** When loading the model fails, the summarizer that the constructor
    returns gives the demo minutes for every meeting, and calls no model. *)
Theorem failed_load_gives_demo_minutes (loader : str → option Pipeline)
    (model_name : str) (meeting_data : MeetingData) (max_length : Z)
    (n : nat) :
  loader (model_path model_name) = None →
  generate_minutes (init loader model_name) meeting_data max_length n
  = (_generate_demo_minutes meeting_data max_length, n).
Proof.
  intros Hload. unfold init, _load_model. by rewrite Hload.
Qed.

Lemma failed_load_gives_demo_minutes_witness :
  generate_minutes (init (fun _ => None) (lit "qwen2.5-7b-instruct"))
    {| md_title := None; md_date := None; md_participants := None;
       md_transcript := None |} 500 0
  = (_generate_demo_minutes
       {| md_title := None; md_date := None; md_participants := None;
          md_transcript := None |} 500, 0).
Proof.
  apply (failed_load_gives_demo_minutes (fun _ => None)). reflexivity.
Defined.

End SummarizerMore.

(* ===================================================================== *)
(** * src/output_generator.py: the payloads *)
(* ===================================================================== *)

Module OutputMore.
Import MeetingSummarizer OutputGenerator Spec Notions.

#[local] Arguments lit : simpl never.
#[local] Arguments _generate_json : simpl never.
#[local] Arguments _generate_html : simpl never.
#[local] Arguments _generate_pdf : simpl never.
#[local] Opaque lit.

(** ** The loop of [generate_outputs] *)

Lemma rendering_Some (t : str) (m : Minutes) (f : str) (r : option bytes) :
  rendering t m f = Some r →
  (f = lit "JSON" ∧ r = _generate_json m)
  ∨ (f = lit "HTML" ∧ r = _generate_html t m)
  ∨ (f = lit "PDF" ∧ r = _generate_pdf m).
Proof.
  unfold rendering. repeat case_decide; intros [= <-]; auto.
Qed.

Lemma generate_outputs_from_cons (t : str) (m : Minutes) (f : str)
    (rest : list str) (outs : gmap str bytes) :
  generate_outputs_from t m (f :: rest) outs
  = match rendering t m f with
    | Some r => b ← r; generate_outputs_from t m rest (<[f := b]> outs)
    | None => generate_outputs_from t m rest outs
    end.
Proof.
  unfold rendering. cbn [generate_outputs_from].
  repeat case_decide; subst; done.
Qed.

Lemma generate_outputs_from_spec (t : str) (m : Minutes) (fmts : list str) :
  ∀ outs : gmap str bytes,
    match generate_outputs_from t m fmts outs with
    | Some out =>
      (∀ f, f ∈ fmts → rendering t m f ≠ Some None)
      ∧ ∀ k, out !! k = entry t m fmts outs k
    | None => ∃ f, f ∈ fmts ∧ rendering t m f = Some None
    end.
Proof.
  induction fmts as [|f rest IH]; intros outs.
  - cbn [generate_outputs_from]. split.
    + intros f Hf. by apply elem_of_nil in Hf.
    + intros k. unfold entry. by rewrite decide_False by apply not_elem_of_nil.
  - rewrite generate_outputs_from_cons.
    destruct (rendering t m f) as [[b|]|] eqn:Hf; cbn [mbind option_bind].
    + specialize (IH (<[f := b]> outs)).
      destruct (generate_outputs_from t m rest (<[f := b]> outs)) as [out|].
      * destruct IH as [Hok Hout]. split.
        { intros f' [->|Hf']%elem_of_cons; [by rewrite Hf | by apply Hok]. }
        intros k. rewrite Hout. unfold entry.
        destruct (decide (k ∈ rest)) as [Hk|Hk].
        { rewrite decide_True by (by right).
          destruct (rendering t m k) eqn:Hrk; [done|].
          rewrite lookup_insert_ne; [done|]. intros ->. congruence. }
        destruct (decide (k = f)) as [->|Hkf].
        { rewrite decide_True by (by left). rewrite Hf.
          by rewrite lookup_insert_eq. }
        rewrite decide_False by (rewrite elem_of_cons; tauto).
        by rewrite lookup_insert_ne.
      * destruct IH as (f' & Hf' & Hfail). exists f'. split; [by right|done].
    + exists f. split; [by left | done].
    + specialize (IH outs).
      destruct (generate_outputs_from t m rest outs) as [out|].
      * destruct IH as [Hok Hout]. split.
        { intros f' [->|Hf']%elem_of_cons; [by rewrite Hf | by apply Hok]. }
        intros k. rewrite Hout. unfold entry.
        destruct (decide (k ∈ rest)) as [Hk|Hk].
        { by rewrite decide_True by (by right). }
        destruct (decide (k = f)) as [->|Hkf].
        { rewrite decide_True by (by left). by rewrite Hf. }
        by rewrite decide_False by (rewrite elem_of_cons; tauto).
      * destruct IH as (f' & Hf' & Hfail). exists f'. split; [by right|done].
Qed.

(** The export raises exactly when the generator of some requested
    identifier raises; no partial mapping is returned. *)
Theorem export_fails_iff (t : str) (m : Minutes) (formats : list str) :
  generate_outputs t m formats = None
  ↔ ∃ f, f ∈ formats ∧ rendering t m f = Some None.
Proof.
  unfold generate_outputs.
  pose proof (generate_outputs_from_spec t m formats ∅) as Hspec.
  destruct (generate_outputs_from t m formats ∅) as [out|].
  - destruct Hspec as [Hok _]. split; [done|].
    intros (f & Hf & Hfail). by destruct (Hok f Hf).
  - done.
Qed.

(** The entry of a requested identifier is the payload of its generator,
    however often and wherever the identifier stands in the request. *)
Theorem export_payloads (t : str) (m : Minutes) (formats : list str)
    (out : gmap str bytes) :
  generate_outputs t m formats = Some out →
  (lit "JSON" ∈ formats → out !! lit "JSON" = _generate_json m)
  ∧ (lit "HTML" ∈ formats → out !! lit "HTML" = _generate_html t m)
  ∧ (lit "PDF" ∈ formats → out !! lit "PDF" = _generate_pdf m).
Proof.
  unfold generate_outputs. intros Hrun.
  pose proof (generate_outputs_from_spec t m formats ∅) as Hspec.
  rewrite Hrun in Hspec. destruct Hspec as [_ Hout].
  repeat split; intros Hk; rewrite Hout; unfold entry;
    rewrite decide_True by done; reflexivity.
Qed.

Lemma export_payloads_witness :
  (<[lit "PDF" :=
       default [] (_generate_pdf
                     (_generate_demo_minutes
                        {| md_title := None; md_date := None;
                           md_participants := None; md_transcript := None |}
                        500))]> (∅ : gmap str bytes)) !! lit "PDF"
  = _generate_pdf
      (_generate_demo_minutes
         {| md_title := None; md_date := None;
            md_participants := None; md_transcript := None |} 500).
Proof.
  refine (proj2 (proj2 (export_payloads [] _ [lit "PDF"] _ _)) _).
  - vm_compute. reflexivity.
  - by left.
Defined.



(** ** UTF-8 of a text in pieces *)

Lemma encode_utf8_cons (c : char) (s : str) :
  encode_utf8 (c :: s)
  = bc ← encode_char c; bs ← encode_utf8 s; Some (bc ++ bs).
Proof.
  unfold encode_utf8. cbn [mapM].
  destruct (encode_char c) as [bc|]; [|reflexivity].
  simpl.
  match goal with
  | |- _ = mbind _ (fmap _ ?x) => destruct x as [bss|]; reflexivity
  end.
Qed.

Lemma encode_utf8_app (a b : str) :
  encode_utf8 (a ++ b)
  = xa ← encode_utf8 a; xb ← encode_utf8 b; Some (xa ++ xb).
Proof.
  induction a as [|c a IH].
  - rewrite app_nil_l. change (encode_utf8 []) with (Some (@nil Byte.byte)).
    cbn [mbind option_bind]. by destruct (encode_utf8 b).
  - rewrite <- app_comm_cons, !encode_utf8_cons, IH.
    destruct (encode_char c) as [bc|]; [|done]. cbn [mbind option_bind].
    destruct (encode_utf8 a) as [xa|]; [|done]. cbn [mbind option_bind].
    destruct (encode_utf8 b) as [xb|]; [|done]. cbn [mbind option_bind].
    by rewrite app_assoc.
Qed.

(** A text that occurs in an encoded text is encoded within it. *)
Lemma encode_utf8_occurs (x s : str) (b : bytes) :
  occurs x s → encode_utf8 s = Some b →
  ∃ xb, encode_utf8 x = Some xb ∧ occurs xb b.
Proof.
  intros (before & after & ->). rewrite !encode_utf8_app.
  destruct (encode_utf8 before) as [bb|]; [|done].
  destruct (encode_utf8 x) as [xb|]; [|done].
  destruct (encode_utf8 after) as [ab|]; [|done].
  cbn [mbind option_bind]. intros [= <-]. exists xb. split; [done|].
  by exists bb, ab.
Qed.

(** ** Occurrences *)

Lemma occurs_here {A} (x b : list A) : occurs x (x ++ b).
Proof. by exists [], b. Qed.

Lemma occurs_self {A} (x : list A) : occurs x x.
Proof. exists [], []. by rewrite app_nil_r. Qed.

Lemma occurs_app_r {A} (x a b : list A) : occurs x b → occurs x (a ++ b).
Proof.
  intros (before & after & ->). exists (a ++ before), after.
  by rewrite <- app_assoc.
Qed.

Lemma occurs_app_l {A} (x a b : list A) : occurs x a → occurs x (a ++ b).
Proof.
  intros (before & after & ->). exists before, (after ++ b).
  by rewrite <- !app_assoc.
Qed.

Lemma occurs_trans {A} (x y z : list A) :
  occurs x y → occurs y z → occurs x z.
Proof.
  intros (b1 & a1 & ->) (b2 & a2 & ->). exists (b2 ++ b1), (a1 ++ a2).
  by rewrite <- !app_assoc.
Qed.

Lemma occurs_concat {A} (x : list A) (xs : list (list A)) :
  x ∈ xs → occurs x (concat xs).
Proof.
  induction xs as [|y xs IH]; [by intros ?%elem_of_nil|].
  intros [->|Hx]%elem_of_cons; cbn [concat].
  - apply occurs_here.
  - by apply occurs_app_r, IH.
Qed.

Lemma occurs_join (sep x : str) (xs : list str) :
  x ∈ xs → occurs x (join sep xs).
Proof.
  induction xs as [|y xs IH]; [by intros ?%elem_of_nil|].
  intros Hx. destruct xs as [|z xs].
  - apply list_elem_of_singleton in Hx as ->. apply occurs_self.
  - change (join sep (y :: z :: xs)) with (y ++ sep ++ join sep (z :: xs)).
    apply elem_of_cons in Hx as [->|Hx]; [apply occurs_here|].
    by apply occurs_app_r, occurs_app_r, IH.
Qed.

Ltac find_occurrence :=
  repeat first [ apply occurs_here | apply occurs_self | apply occurs_app_r ].

(** ** The HTML page *)

Lemma html_template_arguments
    (title date duration participants summary decisions_html
     action_items_html next_steps_html transcript generated_time : str) :
  Forall (fun x =>
            occurs x (html_template title date duration participants summary
                        decisions_html action_items_html next_steps_html
                        transcript generated_time))
         [ title; date; duration; participants; summary; decisions_html;
           action_items_html; next_steps_html; transcript; generated_time ].
Proof.
  unfold html_template.
  repeat apply Forall_cons_2; [..|apply Forall_nil_2]; find_occurrence.
Qed.

Lemma html_content_texts (t : str) (m : Minutes) (x : str) :
  x ∈ shown_texts t m →
  ∃ title date duration participants summary decisions_html
    action_items_html next_steps_html transcript generated_time,
    _generate_html t m
    = encode_utf8 (html_template title date duration participants summary
                     decisions_html action_items_html next_steps_html
                     transcript generated_time)
    ∧ Exists (occurs x)
        [ title; date; duration; participants; summary; decisions_html;
          action_items_html; next_steps_html; transcript; generated_time ].
Proof.
  intros Hx. unfold _generate_html. cbv zeta.
  do 10 eexists. split; [reflexivity|].
  unfold shown_texts in Hx. cbv zeta in Hx.
  rewrite !elem_of_app, !elem_of_cons, elem_of_nil in Hx.
  destruct Hx as [[->|[->|[->|[->|[->|[->|[]]]]]]]|[Hx|[Hx|[Hx|Hx]]]].
  - apply Exists_cons_hd, occurs_self.
  - do 1 apply Exists_cons_tl. apply Exists_cons_hd, occurs_self.
  - do 2 apply Exists_cons_tl. apply Exists_cons_hd, occurs_self.
  - do 4 apply Exists_cons_tl. apply Exists_cons_hd, occurs_self.
  - do 8 apply Exists_cons_tl. apply Exists_cons_hd, occurs_self.
  - do 9 apply Exists_cons_tl. apply Exists_cons_hd, occurs_self.
  - do 3 apply Exists_cons_tl. apply Exists_cons_hd. by apply occurs_join.
  - do 5 apply Exists_cons_tl. apply Exists_cons_hd.
    eapply occurs_trans; [|apply occurs_concat, list_elem_of_fmap_2, Hx].
    find_occurrence.
  - do 7 apply Exists_cons_tl. apply Exists_cons_hd.
    eapply occurs_trans; [|apply occurs_concat, list_elem_of_fmap_2, Hx].
    find_occurrence.
  - do 6 apply Exists_cons_tl. apply Exists_cons_hd.
    apply list_elem_of_bind in Hx as (item & Hx & Hitem).
    eapply occurs_trans; [|apply occurs_concat, list_elem_of_fmap_2, Hitem].
    rewrite !elem_of_cons, elem_of_nil in Hx.
    destruct Hx as [->|[->|[->|[]]]]; find_occurrence.
Qed.

(** The HTML page holds every text of the minutes as it is, byte for byte:
    nothing is escaped, so markup inside a title, a summary or a transcript
    is markup of the page. *)
Theorem html_holds_texts_verbatim (t : str) (m : Minutes) (page : bytes)
    (x : str) :
  _generate_html t m = Some page → x ∈ shown_texts t m →
  ∃ xb, encode_utf8 x = Some xb ∧ occurs xb page.
Proof.
  intros Hpage Hx.
  destruct (html_content_texts t m x Hx)
    as (a1 & a2 & a3 & a4 & a5 & a6 & a7 & a8 & a9 & a10 & Hhtml & Hex).
  rewrite Hhtml in Hpage.
  apply Exists_exists in Hex as (y & Hy & Hxy).
  pose proof (html_template_arguments a1 a2 a3 a4 a5 a6 a7 a8 a9 a10) as Hall.
  rewrite Forall_forall in Hall.
  apply (encode_utf8_occurs x (html_template a1 a2 a3 a4 a5 a6 a7 a8 a9 a10)
           page); [|done].
  eapply occurs_trans; [exact Hxy | by apply Hall].
Qed.

Lemma html_holds_texts_verbatim_witness :
  ∃ xb, encode_utf8 (lit "<b>Q3</b>") = Some xb
        ∧ occurs xb
            (default []
               (_generate_html (lit "2024-01-01 10:00:00")
                  (_generate_demo_minutes
                     {| md_title := Some (lit "<b>Q3</b>"); md_date := None;
                        md_participants := None; md_transcript := None |}
                     500))).
Proof.
  apply (html_holds_texts_verbatim (lit "2024-01-01 10:00:00")
           (_generate_demo_minutes
              {| md_title := Some (lit "<b>Q3</b>"); md_date := None;
                 md_participants := None; md_transcript := None |} 500)).
  - vm_compute. reflexivity.
  - by left.
Defined.

(** ** The PDF placeholder *)

Lemma literal_start (l : str) (c : char) :
  take 1 l = [c] → l = c :: drop 1 l.
Proof. intros H. by rewrite <- (take_drop 1 l) at 1; rewrite H. Qed.

(** The payload stored under [PDF] starts with a line break: it is never a
    PDF document, which starts with [%PDF-]. *)
Theorem pdf_payload_is_not_pdf (m : Minutes) (payload : bytes) :
  _generate_pdf m = Some payload →
  (∃ rest, payload = Byte.x0a :: rest) ∧ take 5 payload ≠ blit "%PDF-".
Proof.
  unfold _generate_pdf. cbv zeta.
  match goal with
  | |- encode_utf8 (?l ++ _) = _ → _ =>
    rewrite (literal_start l 0x0A%N) by (vm_compute; reflexivity)
  end.
  rewrite <- app_comm_cons, encode_utf8_cons.
  change (encode_char 0x0A%N) with (Some [Byte.x0a]).
  cbn [mbind option_bind].
  destruct (encode_utf8 _) as [rest|]; [|done]. intros [= <-].
  split; [by exists rest|]. by vm_compute.
Qed.

Lemma pdf_payload_is_not_pdf_witness :
  (∃ rest,
     default [] (_generate_pdf
                   (_generate_demo_minutes
                      {| md_title := None; md_date := None;
                         md_participants := None; md_transcript := None |}
                      500))
     = Byte.x0a :: rest)
  ∧ take 5 (default [] (_generate_pdf
                          (_generate_demo_minutes
                             {| md_title := None; md_date := None;
                                md_participants := None;
                                md_transcript := None |} 500)))
    ≠ blit "%PDF-".
Proof.
  apply (pdf_payload_is_not_pdf
           (_generate_demo_minutes
              {| md_title := None; md_date := None;
                 md_participants := None; md_transcript := None |} 500)).
  vm_compute. reflexivity.
Defined.

End OutputMore.

(* ===================================================================== *)
(** * src/app.py: participants, downloads and files *)
(* ===================================================================== *)

Module AppMore.
Import MeetingSummarizer Json OutputGenerator AudioFiles App Spec Notions.
Import PyStrProps.

#[local] Arguments lit : simpl never.

(** ** Participants *)

(** Every participant is one line that is not empty and has no white space
    at either end. *)
Theorem participants_well_formed (participants : str) :
  Forall (fun name => name ≠ [] ∧ stripped name ∧ 0x0A%N ∉ name)
         (parse_participants participants).
Proof.
  unfold parse_participants.
  apply Forall_fmap, Forall_forall. intros line Hline.
  apply list_elem_of_filter in Hline as [Hne Hline]. cbn [compose].
  split; [done|]. split; [apply strip_stripped|].
  intros Hnl. apply elem_of_strip in Hnl. revert Hnl.
  pose proof (split_char_pieces 0x0A%N participants [] (not_elem_of_nil _))
    as Hpieces.
  rewrite Forall_forall in Hpieces. by apply Hpieces.
Qed.

Lemma filter_keeps_all {A} (P : A → Prop) `{!∀ x, Decision (P x)}
    (xs : list A) :
  Forall P xs → filter P xs = xs.
Proof.
  induction 1 as [|x xs Hx _ IH]; [done|].
  by rewrite filter_cons_True, IH.
Qed.

Lemma fmap_fixed {A} (f : A → A) (xs : list A) :
  Forall (fun x => f x = x) xs → f <$> xs = xs.
Proof.
  induction 1 as [|x xs Hx _ IH]; [done|].
  by rewrite fmap_cons, Hx, IH.
Qed.

(** Names written one per line are read back as they are. *)
Theorem participants_round_trip (names : list str) :
  Forall (fun name => name ≠ [] ∧ strip name = name ∧ 0x0A%N ∉ name) names →
  parse_participants (join nl names) = names.
Proof.
  intros Hnames. destruct (decide (names = [])) as [->|Hne]; [done|].
  unfold parse_participants, nl.
  rewrite split_char_join.
  - rewrite filter_keeps_all.
    + apply fmap_fixed. eapply Forall_impl; [exact Hnames|]. by intros ? (_&?&_).
    + eapply Forall_impl; [exact Hnames|]. intros name (Hn & Hs & _).
      by rewrite Hs.
  - done.
  - eapply Forall_impl; [exact Hnames|]. by intros ? (_&_&?).
Qed.

Lemma participants_round_trip_witness :
  parse_participants (join nl [lit "Ann Lee"; lit "Bob"])
  = [lit "Ann Lee"; lit "Bob"].
Proof.
  apply participants_round_trip.
  repeat apply Forall_cons_2; [..|apply Forall_nil_2];
    (split; [by vm_compute|];
     split; [vm_compute; reflexivity | Tactics.distinct_literals]).
Defined.

(** ** Downloads *)



(** ** Files *)

(** The processed file has the bytes of the input file, whatever its format
    and whatever the chunk length: nothing is converted, and no other file
    changes. *)
Theorem processed_file_is_a_copy (tmp_name : str) (fs fs' : gmap str bytes)
    (file_path output_path : str) (chunk_length : Z) :
  process_file tmp_name fs file_path chunk_length = (fs', Some output_path) →
  is_Some (fs !! file_path)
  ∧ fs' !! output_path = fs !! file_path
  ∧ ∀ q, q ≠ output_path → fs' !! q = fs !! q.
Proof.
  unfold process_file. cbv zeta.
  destruct (decide (file_path = tmp_name)) as [->|Hne].
  - by rewrite lookup_insert_eq.
  - rewrite lookup_insert_ne by done.
    destruct (fs !! file_path) as [content|] eqn:Hsrc; [|done].
    intros [= <- <-].
    split; [done|]. split; [by rewrite lookup_insert_eq|].
    intros q Hq. by rewrite !lookup_insert_ne.
Qed.

Lemma processed_file_is_a_copy_witness :
  is_Some (({[ lit "/in.mp3" := blit "ID3" ]} : gmap str bytes)
             !! lit "/in.mp3")
  ∧ (<[lit "/tmp/x.wav" := blit "ID3"]>
       (<[lit "/tmp/x.wav" := []]> {[ lit "/in.mp3" := blit "ID3" ]})
     : gmap str bytes) !! lit "/tmp/x.wav"
    = ({[ lit "/in.mp3" := blit "ID3" ]} : gmap str bytes) !! lit "/in.mp3"
  ∧ ∀ q, q ≠ lit "/tmp/x.wav" →
      (<[lit "/tmp/x.wav" := blit "ID3"]>
         (<[lit "/tmp/x.wav" := []]> {[ lit "/in.mp3" := blit "ID3" ]})
       : gmap str bytes) !! q
      = ({[ lit "/in.mp3" := blit "ID3" ]} : gmap str bytes) !! q.
Proof.
  apply (processed_file_is_a_copy (lit "/tmp/x.wav") _ _ (lit "/in.mp3")
           (lit "/tmp/x.wav") 30).
  vm_compute. reflexivity.
Defined.

(** When processing fails, the temporary file that was created for the
    result stays behind, empty. *)
Theorem failed_processing_leaves_file (tmp_name : str)
    (fs fs' : gmap str bytes) (file_path : str) (chunk_length : Z) :
  process_file tmp_name fs file_path chunk_length = (fs', None) →
  fs' = <[tmp_name := []]> fs
  ∧ (fs !! file_path = None ∨ file_path = tmp_name).
Proof.
  unfold process_file. cbv zeta.
  destruct (decide (file_path = tmp_name)) as [->|Hne].
  - rewrite lookup_insert_eq. intros [= <-]. auto.
  - rewrite lookup_insert_ne by done.
    destruct (fs !! file_path) as [content|] eqn:Hsrc; [done|].
    intros [= <-]. auto.
Qed.

Lemma failed_processing_leaves_file_witness :
  (<[lit "/tmp/x.wav" := []]> ∅ : gmap str bytes)
  = <[lit "/tmp/x.wav" := []]> ∅
  ∧ ((∅ : gmap str bytes) !! lit "/in.mp3" = None
     ∨ lit "/in.mp3" = lit "/tmp/x.wav").
Proof.
  apply (failed_processing_leaves_file (lit "/tmp/x.wav") ∅ _
           (lit "/in.mp3") 30).
  vm_compute. reflexivity.
Defined.



(** ** From the form to the JSON file *)

Lemma generate_minutes_info (self : Summarizer) (meeting_data : MeetingData)
    (max_length : Z) (n : nat) :
  meeting_info (fst (generate_minutes self meeting_data max_length n))
  = {| title := default (lit "Meeting") (md_title meeting_data);
       date := default [] (md_date meeting_data);
       participants := default [] (md_participants meeting_data);
       duration := _estimate_duration (transcript_text meeting_data) |}
  ∧ full_transcript (fst (generate_minutes self meeting_data max_length n))
    = transcript_text meeting_data.
Proof.
  unfold generate_minutes.
  destruct (model self), (pipeline self) as [p|]; split; reflexivity.
Qed.

(** Whatever the summarizer and the other requested formats, the JSON file
    of a processed meeting reads back as the minutes shown, and these hold
    the title and the date of the form, the participants read from it, and
    the text of the transcript. *)
Theorem json_download_holds_the_form (summarizer : Summarizer)
    (generated_time meeting_title meeting_date names : str)
    (transcript : Transcript) (output_formats : list str)
    (max_summary_length : Z) (n : nat) (minutes : Minutes)
    (output_files : gmap str bytes) :
  fst (minutes_and_outputs summarizer generated_time meeting_title
         meeting_date names transcript output_formats max_summary_length n)
  = (minutes, Some output_files) →
  lit "JSON" ∈ output_formats →
  ∃ payload,
    output_files !! lit "JSON" = Some payload
    ∧ decode_payload payload = Some (to_json minutes)
    ∧ title (meeting_info minutes) = meeting_title
    ∧ date (meeting_info minutes) = meeting_date
    ∧ participants (meeting_info minutes) = parse_participants names
    ∧ full_transcript minutes = default [] (text transcript).
Proof.
  unfold minutes_and_outputs, bind, ret. intros Hrun Hjson.
  pose proof (generate_minutes_info summarizer
                (make_meeting_data meeting_title meeting_date names transcript)
                max_summary_length n) as [Hinfo Htranscript].
  destruct (generate_minutes summarizer _ max_summary_length n)
    as [minutes' n'].
  cbn [fst] in Hrun, Hinfo, Htranscript. injection Hrun as -> Hout.
  unfold generate_outputs in Hout.
  pose proof (OutputMore.generate_outputs_from_spec generated_time minutes
                output_formats ∅) as Hspec.
  rewrite Hout in Hspec. destruct Hspec as [Hok Hentry].
  specialize (Hok _ Hjson). specialize (Hentry (lit "JSON")).
  unfold entry in Hentry. rewrite decide_True in Hentry by done.
  assert (rendering generated_time minutes (lit "JSON")
          = Some (_generate_json minutes)) as Hrendering.
  { unfold rendering. by rewrite decide_True. }
  rewrite Hrendering in Hok, Hentry.
  destruct (_generate_json minutes) as [payload|] eqn:Hpayload; [|done].
  exists payload. split; [done|].
  split; [by apply JsonPayloadProps.generate_json_round_trip|].
  rewrite Hinfo, Htranscript. done.
Qed.

Lemma json_download_holds_the_form_witness :
  ∃ payload,
    default ∅
      (snd (fst (minutes_and_outputs
                   {| model := DemoMode; pipeline := None |} []
                   (lit "Q3") (lit "2024-01-15")
                   (lit " Ann " ++ nl ++ lit "Bob")
                   {| text := Some (lit "hello") |} [lit "JSON"] 500 0)))
    !! lit "JSON" = Some payload
    ∧ decode_payload payload
      = Some (to_json (fst (fst (minutes_and_outputs
                   {| model := DemoMode; pipeline := None |} []
                   (lit "Q3") (lit "2024-01-15")
                   (lit " Ann " ++ nl ++ lit "Bob")
                   {| text := Some (lit "hello") |} [lit "JSON"] 500 0))))
    ∧ title (meeting_info (fst (fst (minutes_and_outputs
                   {| model := DemoMode; pipeline := None |} []
                   (lit "Q3") (lit "2024-01-15")
                   (lit " Ann " ++ nl ++ lit "Bob")
                   {| text := Some (lit "hello") |} [lit "JSON"] 500 0))))
      = lit "Q3"
    ∧ date (meeting_info (fst (fst (minutes_and_outputs
                   {| model := DemoMode; pipeline := None |} []
                   (lit "Q3") (lit "2024-01-15")
                   (lit " Ann " ++ nl ++ lit "Bob")
                   {| text := Some (lit "hello") |} [lit "JSON"] 500 0))))
      = lit "2024-01-15"
    ∧ participants (meeting_info (fst (fst (minutes_and_outputs
                   {| model := DemoMode; pipeline := None |} []
                   (lit "Q3") (lit "2024-01-15")
                   (lit " Ann " ++ nl ++ lit "Bob")
                   {| text := Some (lit "hello") |} [lit "JSON"] 500 0))))
      = parse_participants (lit " Ann " ++ nl ++ lit "Bob")
    ∧ full_transcript (fst (fst (minutes_and_outputs
                   {| model := DemoMode; pipeline := None |} []
                   (lit "Q3") (lit "2024-01-15")
                   (lit " Ann " ++ nl ++ lit "Bob")
                   {| text := Some (lit "hello") |} [lit "JSON"] 500 0)))
      = default [] (text {| text := Some (lit "hello") |}).
Proof.
  apply (json_download_holds_the_form
           {| model := DemoMode; pipeline := None |} []
           (lit "Q3") (lit "2024-01-15") (lit " Ann " ++ nl ++ lit "Bob")
           {| text := Some (lit "hello") |} [lit "JSON"] 500 0).
  - vm_compute. reflexivity.
  - by left.
Defined.

End AppMore.
